(** * clay_math.hpp: vectors, quaternions and 4x4 matrices over binary32

    A shallow embedding of the math header of the clay project
    (include/clay_math.hpp).  The C++ type [float] is IEEE-754 binary32;
    it is modelled by the Standard Library's [spec_float] at precision 24
    and maximal exponent 128, whose operations round to nearest, ties to
    even, one rounding per C++ operator.  The libm functions the header
    calls ([sin], [cos], [acos]) are not part of the repository and are
    taken as an interface. *)

From Stdlib Require Import ZArith Bool List Lia Reals Lra Psatz.
From Stdlib Require Import Floats.SpecFloat.
Import ListNotations.

(** ** binary32 arithmetic *)

Module F32.

Definition prec : Z := 24.
Definition emax : Z := 128.

Definition float : Type := spec_float.

(** Decoding of a 32-bit pattern: sign bit 31, biased exponent in bits
    30..23, fraction in bits 22..0. *)
Definition of_bits (n : Z) : float :=
  let s := Z.testbit n 31 in
  let e := Z.land (Z.shiftr n 23) 255 in
  let f := Z.land n 8388607 in
  if (e =? 0)%Z then
    match f with Zpos p => S754_finite s p (-149) | _ => S754_zero s end
  else if (e =? 255)%Z then
    (if (f =? 0)%Z then S754_infinity s else S754_nan)
  else
    match (f + 8388608)%Z with
    | Zpos p => S754_finite s p (e - 150)
    | _ => S754_nan
    end.

Definition add : float -> float -> float := SFadd prec emax.
Definition sub : float -> float -> float := SFsub prec emax.
Definition mul : float -> float -> float := SFmul prec emax.
Definition div : float -> float -> float := SFdiv prec emax.
Definition sqrt : float -> float := SFsqrt prec emax.
Definition neg : float -> float := SFopp.
Definition abs : float -> float := SFabs.

(** The C++ comparisons [==], [<], [<=]; all are false on NaN. *)
Definition eqb : float -> float -> bool := SFeqb.
Definition ltb : float -> float -> bool := SFltb.
Definition leb : float -> float -> bool := SFleb.

(** The literals of the header. *)
Definition lit0 : float := Eval cbv in of_bits 0x00000000.      (* 0.0f *)
Definition lit1 : float := Eval cbv in of_bits 0x3F800000.      (* 1.0f *)
Definition lit2 : float := Eval cbv in of_bits 0x40000000.      (* 2.0f *)
Definition lit0_5 : float := Eval cbv in of_bits 0x3F000000.    (* 0.5f *)
Definition lit0_001 : float := Eval cbv in of_bits 0x3A83126F.  (* 0.001f *)
Definition lit4 : float := Eval cbv in of_bits 0x40800000.      (* 4.0f *)

(** FLT_EPSILON, 2^-23. *)
Definition epsilon : float := Eval cbv in of_bits 0x34000000.

Definition is_nan (x : float) : bool :=
  match x with S754_nan => true | _ => false end.

Definition is_finite (x : float) : bool :=
  match x with S754_zero _ | S754_finite _ _ _ => true | _ => false end.

Definition is_zero (x : float) : bool :=
  match x with S754_zero _ => true | _ => false end.

(** A value of the model is a binary32 number when its mantissa is
    canonical for its exponent. *)
Definition valid (x : float) : bool := valid_binary prec emax x.

(** [|x - y| <= tol], evaluated in binary32. *)
Definition close (tol x y : float) : bool := leb (abs (sub x y)) tol.

End F32.

Declare Scope f32_scope.
Delimit Scope f32_scope with f32.
Bind Scope f32_scope with F32.float.
Notation "x + y" := (F32.add x y) : f32_scope.
Notation "x - y" := (F32.sub x y) : f32_scope.
Notation "x * y" := (F32.mul x y) : f32_scope.
Notation "x / y" := (F32.div x y) : f32_scope.
Notation "- x" := (F32.neg x) : f32_scope.
Notation "x == y" := (F32.eqb x y) (at level 70, no associativity) : f32_scope.
Notation "x < y" := (F32.ltb x y) : f32_scope.
Notation "x >= y" := (F32.leb y x) : f32_scope.

#[global] Arguments F32.add : simpl never.
#[global] Arguments F32.sub : simpl never.
#[global] Arguments F32.mul : simpl never.
#[global] Arguments F32.div : simpl never.
#[global] Arguments F32.sqrt : simpl never.
#[global] Arguments F32.neg : simpl never.
#[global] Arguments F32.abs : simpl never.
#[global] Arguments F32.eqb : simpl never.
#[global] Arguments F32.ltb : simpl never.
#[global] Arguments F32.leb : simpl never.

(** The part of libm the header uses, each result rounded to binary32
    where the header stores it in a [float]. *)
Class Libm : Type := {
  sinf : F32.float -> F32.float;
  cosf : F32.float -> F32.float;
  acosf : F32.float -> F32.float
}.

(** ** binary64 and int

    Of the C++ library the header includes [<cmath>] and [<string>];
    it has no [using] and qualifies none of its calls, so [sin], [tan]
    and [abs] are the functions of the global namespace,
    [double sin(double)], [double tan(double)] and [int abs(int)].  A
    [float] argument is widened to [double], which is exact, or
    converted to [int], which discards its fraction.  Where the header
    divides the [double] that [sin] or [tan] returns, the division is
    one of [double], and its quotient is rounded once, when it is
    stored in a [float]. *)

Module F64.

Definition prec : Z := 53.
Definition emax : Z := 1024.

Definition float : Type := spec_float.

Definition div : float -> float -> float := SFdiv prec emax.

(** The conversion of a [float] to [double]: the same number with a
    mantissa of 53 bits. *)
Definition of_f32 (x : F32.float) : float :=
  match x with
  | S754_finite s m e => binary_round prec emax s m e
  | _ => x
  end.

(** The conversion of a [double] to [float], rounded to nearest, ties
    to even. *)
Definition to_f32 (x : float) : F32.float :=
  match x with
  | S754_finite s m e => binary_round F32.prec F32.emax s m e
  | _ => x
  end.

End F64.

(** A step whose behaviour may be undefined, and what follows it. *)
Definition defined {A B} (c : option A) (k : A -> option B) : option B :=
  match c with Some x => k x | None => None end.

Module Int.

Definition min : Z := -2147483648.   (* INT_MIN *)
Definition max : Z := 2147483647.    (* INT_MAX *)

(** The conversion of a [float] to [int] discards the fraction.  Its
    behaviour is undefined, [None] here, when what is left is not an
    [int], below [INT_MIN] or above [INT_MAX], and on an infinity and
    on NaN. *)
Definition of_float (x : F32.float) : option Z :=
  match x with
  | S754_zero _ => Some 0%Z
  | S754_finite s m e =>
      let n := cond_Zopp s (Z.shiftl (Z.pos m) e) in
      if ((min <=? n) && (n <=? max))%Z then Some n else None
  | _ => None
  end.

(** [int abs(int)], undefined at [INT_MIN]. *)
Definition abs (n : Z) : option Z :=
  if (n =? min)%Z then None else Some (Z.abs n).

(** The conversion of an [int] to [float]: a comparison of an [int]
    with a [float] converts the [int]. *)
Definition to_float (n : Z) : F32.float :=
  binary_normalize F32.prec F32.emax n 0 false.

(** The call [abs(x)] on a [float] [x]: [x] is converted to [int]. *)
Definition abs_float (x : F32.float) : option Z :=
  defined (of_float x) abs.

End Int.

(** [sin] and [tan] as functions on [double], for the two places where
    the header uses their result before it is rounded to [float].
    Nothing is assumed of their values, nor of how they relate to those
    of [Libm]. *)
Module Cmath.

Class Double : Type := {
  sin : F64.float -> F64.float;
  tan : F64.float -> F64.float
}.

End Cmath.

Local Open Scope f32_scope.

(** ** Vec2 *)

Module Vec2.

Record t : Type := Vec2 { x : F32.float; y : F32.float }.

(** [Vec2(float value)] *)
Definition splat (value : F32.float) : t := Vec2 value value.

(** [Vec2()] *)
Definition zero : t := Vec2 F32.lit0 F32.lit0.

(** [float dot(const Vec2 &other) const] *)
Definition dot (this other : t) : F32.float :=
  x this * x other + y this * y other.

(** [float length() const] *)
Definition length (this : t) : F32.float := F32.sqrt (dot this this).

(** [float length_squared() const] *)
Definition length_squared (this : t) : F32.float := dot this this.

(** [Vec2 operator+(const Vec2 &other) const] and the like, component
    by component. *)
Definition plus (this other : t) : t :=
  Vec2 (x this + x other) (y this + y other).
Definition minus (this other : t) : t :=
  Vec2 (x this - x other) (y this - y other).
Definition times (this other : t) : t :=
  Vec2 (x this * x other) (y this * y other).
Definition div (this other : t) : t :=
  Vec2 (x this / x other) (y this / y other).

(** [Vec2 operator+(float value) const] and the like. *)
Definition plus_scalar (this : t) (value : F32.float) : t :=
  Vec2 (x this + value) (y this + value).
Definition minus_scalar (this : t) (value : F32.float) : t :=
  Vec2 (x this - value) (y this - value).
Definition times_scalar (this : t) (value : F32.float) : t :=
  Vec2 (x this * value) (y this * value).
Definition div_scalar (this : t) (value : F32.float) : t :=
  Vec2 (x this / value) (y this / value).

(** [Vec2 operator-() const] *)
Definition neg (this : t) : t := Vec2 (- x this) (- y this).

(** [Vec2 normalize() const]: [*this / length()], unguarded. *)
Definition normalize (this : t) : t := div_scalar this (length this).

(** [bool operator==(const Vec2 &other) const] *)
Definition eqb (this other : t) : bool :=
  (x this == x other) && (y this == y other).

(** [bool operator!=(const Vec2 &other) const]:
    [x != other.x || y != other.y]. *)
Definition neqb (this other : t) : bool :=
  negb (x this == x other) || negb (y this == y other).

End Vec2.

(** ** Vec3 *)

Module Vec3.

Record t : Type := Vec3 { x : F32.float; y : F32.float; z : F32.float }.

(** [float dot(const Vec3 &other) const] *)
Definition dot (this other : t) : F32.float :=
  x this * x other + y this * y other + z this * z other.

(** [Vec3 operator/(float value) const] *)
Definition div_scalar (this : t) (value : F32.float) : t :=
  Vec3 (x this / value) (y this / value) (z this / value).

(** [float length() const] *)
Definition length (this : t) : F32.float := F32.sqrt (dot this this).

(** [float length_squared() const] *)
Definition length_squared (this : t) : F32.float := dot this this.

(** [Vec3 normalize() const]: [*this / length()], unguarded. *)
Definition normalize (this : t) : t := div_scalar this (length this).

(** [Vec3 cross(const Vec3 &other) const] *)
Definition cross (this other : t) : t :=
  Vec3 (y this * z other - z this * y other)
       (z this * x other - x this * z other)
       (x this * y other - y this * x other).

(** [Vec3 operator-(const Vec3 &other) const] *)
Definition sub (this other : t) : t :=
  Vec3 (x this - x other) (y this - y other) (z this - z other).

(** [Vec3 operator+(const Vec3 &other) const] and the like, component
    by component. *)
Definition plus (this other : t) : t :=
  Vec3 (x this + x other) (y this + y other) (z this + z other).
Definition times (this other : t) : t :=
  Vec3 (x this * x other) (y this * y other) (z this * z other).
Definition div (this other : t) : t :=
  Vec3 (x this / x other) (y this / y other) (z this / z other).

(** [Vec3 operator-() const] *)
Definition neg (this : t) : t := Vec3 (- x this) (- y this) (- z this).

(** [Vec3 operator+(float value) const] and the like. *)
Definition plus_scalar (this : t) (value : F32.float) : t :=
  Vec3 (x this + value) (y this + value) (z this + value).
Definition minus_scalar (this : t) (value : F32.float) : t :=
  Vec3 (x this - value) (y this - value) (z this - value).
Definition times_scalar (this : t) (value : F32.float) : t :=
  Vec3 (x this * value) (y this * value) (z this * value).

(** [bool operator==(const Vec3 &other) const] *)
Definition eqb (this other : t) : bool :=
  (x this == x other) && (y this == y other) && (z this == z other).

(** [bool operator!=(const Vec3 &other) const]: the negation of [==]. *)
Definition neqb (this other : t) : bool := negb (eqb this other).

End Vec3.

(** ** Vec4 *)

Module Vec4.

Record t : Type :=
  Vec4 { x : F32.float; y : F32.float; z : F32.float; w : F32.float }.

(** [float dot(const Vec4 &other) const] *)
Definition dot (this other : t) : F32.float :=
  x this * x other + y this * y other + z this * z other + w this * w other.

(** [float length() const] *)
Definition length (this : t) : F32.float := F32.sqrt (dot this this).

(** [float length_squared() const] *)
Definition length_squared (this : t) : F32.float := dot this this.

(** [Vec4 operator+(const Vec4 &other) const] and the like, component
    by component. *)
Definition plus (this other : t) : t :=
  Vec4 (x this + x other) (y this + y other) (z this + z other) (w this + w other).
Definition minus (this other : t) : t :=
  Vec4 (x this - x other) (y this - y other) (z this - z other) (w this - w other).
Definition times (this other : t) : t :=
  Vec4 (x this * x other) (y this * y other) (z this * z other) (w this * w other).
Definition div (this other : t) : t :=
  Vec4 (x this / x other) (y this / y other) (z this / z other) (w this / w other).

(** [Vec4 operator-() const] *)
Definition neg (this : t) : t :=
  Vec4 (- x this) (- y this) (- z this) (- w this).

(** [Vec4 operator/(float value) const] *)
Definition div_scalar (this : t) (value : F32.float) : t :=
  Vec4 (x this / value) (y this / value) (z this / value) (w this / value).

(** [Vec4 normalize() const]: [*this / length()], unguarded. *)
Definition normalize (this : t) : t := div_scalar this (length this).

(** [bool operator==(const Vec4 &other) const] *)
Definition eqb (this other : t) : bool :=
  (x this == x other) && (y this == y other) && (z this == z other)
  && (w this == w other).

(** [bool operator!=(const Vec4 &other) const]: the negation of [==]. *)
Definition neqb (this other : t) : bool := negb (eqb this other).

End Vec4.

(** ** Mat4: [float data[16]] *)

Module Mat4.

(** The sixteen cells of [data], in index order. *)
Record t : Type := Cells {
  d0 : F32.float; d1 : F32.float; d2 : F32.float; d3 : F32.float;
  d4 : F32.float; d5 : F32.float; d6 : F32.float; d7 : F32.float;
  d8 : F32.float; d9 : F32.float; d10 : F32.float; d11 : F32.float;
  d12 : F32.float; d13 : F32.float; d14 : F32.float; d15 : F32.float
}.

(** [m.data[i]]; the array has no cell past 15. *)
Definition data (m : t) (i : nat) : F32.float :=
  match i with
  | 0 => d0 m | 1 => d1 m | 2 => d2 m | 3 => d3 m
  | 4 => d4 m | 5 => d5 m | 6 => d6 m | 7 => d7 m
  | 8 => d8 m | 9 => d9 m | 10 => d10 m | 11 => d11 m
  | 12 => d12 m | 13 => d13 m | 14 => d14 m | 15 => d15 m
  | _ => F32.lit0
  end%nat.

(** [m.data[i] = v] *)
Definition store (m : t) (i : nat) (v : F32.float) : t :=
  let 'Cells a0 a1 a2 a3 a4 a5 a6 a7 a8 a9 a10 a11 a12 a13 a14 a15 := m in
  match i with
  | 0 => Cells v a1 a2 a3 a4 a5 a6 a7 a8 a9 a10 a11 a12 a13 a14 a15
  | 1 => Cells a0 v a2 a3 a4 a5 a6 a7 a8 a9 a10 a11 a12 a13 a14 a15
  | 2 => Cells a0 a1 v a3 a4 a5 a6 a7 a8 a9 a10 a11 a12 a13 a14 a15
  | 3 => Cells a0 a1 a2 v a4 a5 a6 a7 a8 a9 a10 a11 a12 a13 a14 a15
  | 4 => Cells a0 a1 a2 a3 v a5 a6 a7 a8 a9 a10 a11 a12 a13 a14 a15
  | 5 => Cells a0 a1 a2 a3 a4 v a6 a7 a8 a9 a10 a11 a12 a13 a14 a15
  | 6 => Cells a0 a1 a2 a3 a4 a5 v a7 a8 a9 a10 a11 a12 a13 a14 a15
  | 7 => Cells a0 a1 a2 a3 a4 a5 a6 v a8 a9 a10 a11 a12 a13 a14 a15
  | 8 => Cells a0 a1 a2 a3 a4 a5 a6 a7 v a9 a10 a11 a12 a13 a14 a15
  | 9 => Cells a0 a1 a2 a3 a4 a5 a6 a7 a8 v a10 a11 a12 a13 a14 a15
  | 10 => Cells a0 a1 a2 a3 a4 a5 a6 a7 a8 a9 v a11 a12 a13 a14 a15
  | 11 => Cells a0 a1 a2 a3 a4 a5 a6 a7 a8 a9 a10 v a12 a13 a14 a15
  | 12 => Cells a0 a1 a2 a3 a4 a5 a6 a7 a8 a9 a10 a11 v a13 a14 a15
  | 13 => Cells a0 a1 a2 a3 a4 a5 a6 a7 a8 a9 a10 a11 a12 v a14 a15
  | 14 => Cells a0 a1 a2 a3 a4 a5 a6 a7 a8 a9 a10 a11 a12 a13 v a15
  | 15 => Cells a0 a1 a2 a3 a4 a5 a6 a7 a8 a9 a10 a11 a12 a13 a14 v
  | _ => m
  end%nat.

(** [Mat4()]: every cell 0.0f. *)
Definition zero : t :=
  Cells F32.lit0 F32.lit0 F32.lit0 F32.lit0 F32.lit0 F32.lit0 F32.lit0 F32.lit0
        F32.lit0 F32.lit0 F32.lit0 F32.lit0 F32.lit0 F32.lit0 F32.lit0 F32.lit0.

(** [Mat4(m00, m01, ..., m33)]: the arguments fill [data] in order. *)
Definition Mat4 (m00 m01 m02 m03 m10 m11 m12 m13
                 m20 m21 m22 m23 m30 m31 m32 m33 : F32.float) : t :=
  let r := zero in
  let r := store r 0 m00 in
  let r := store r 1 m01 in
  let r := store r 2 m02 in
  let r := store r 3 m03 in
  let r := store r 4 m10 in
  let r := store r 5 m11 in
  let r := store r 6 m12 in
  let r := store r 7 m13 in
  let r := store r 8 m20 in
  let r := store r 9 m21 in
  let r := store r 10 m22 in
  let r := store r 11 m23 in
  let r := store r 12 m30 in
  let r := store r 13 m31 in
  let r := store r 14 m32 in
  store r 15 m33.

(** *** Member functions

    None of [Mat4]'s member functions is declared [const]; each is a
    computation against its receiver that returns a value together
    with the receiver as the call leaves it. *)
Definition method (A : Type) : Type := t -> A * t.

Definition ret {A} (a : A) : method A := fun this => (a, this).

Definition bind {A B} (c : method A) (k : A -> method B) : method B :=
  fun this => let '(a, this') := c this in k a this'.

(** [*this] read as a value. *)
Definition self : method t := fun this => (this, this).

(** [data[i] = v] on the receiver. *)
Definition assign (i : nat) (v : F32.float) : method unit :=
  fun this => (tt, store this i v).

(** [*this = m] *)
Definition assign_all (m : t) : method unit := fun _ => (tt, m).

(** The value a call returns, and the receiver after the call. *)
Definition returned {A} (c : method A) (this : t) : A := fst (c this).
Definition receiver {A} (c : method A) (this : t) : t := snd (c this).

Notation "x <- c ;; k" := (bind c (fun x => k))
  (at level 61, c at next level, right associativity).
Notation "c ;;; k" := (bind c (fun _ => k))
  (at level 61, right associativity).

(** A [for (int i = 0; i < n; i++)] loop over a local matrix. *)
Definition for_upto (n : nat) (body : nat -> t -> t) (init : t) : t :=
  fold_left (fun acc i => body i acc) (seq 0 n) init.

(** [static Mat4 identity()] *)
Definition identity : t :=
  Mat4 F32.lit1 F32.lit0 F32.lit0 F32.lit0
       F32.lit0 F32.lit1 F32.lit0 F32.lit0
       F32.lit0 F32.lit0 F32.lit1 F32.lit0
       F32.lit0 F32.lit0 F32.lit0 F32.lit1.

(** [float determinant()] *)
Definition determinant : method F32.float :=
  this <- self ;;
  let d := data this in
  let det := F32.lit0 in
  let det := det + d 0 * (d 5 * (d 10 * d 15 - d 11 * d 14) - d 6 * (d 9 * d 15 - d 11 * d 13) + d 7 * (d 9 * d 14 - d 10 * d 13)) in
  let det := det - d 1 * (d 4 * (d 10 * d 15 - d 11 * d 14) - d 6 * (d 8 * d 15 - d 11 * d 12) + d 7 * (d 8 * d 14 - d 10 * d 12)) in
  let det := det + d 2 * (d 4 * (d 9 * d 15 - d 11 * d 13) - d 5 * (d 8 * d 15 - d 11 * d 12) + d 7 * (d 8 * d 13 - d 9 * d 12)) in
  let det := det - d 3 * (d 4 * (d 9 * d 14 - d 10 * d 13) - d 5 * (d 8 * d 14 - d 10 * d 12) + d 6 * (d 8 * d 13 - d 9 * d 12)) in
  ret det.

(** [Mat4 cofactor()] *)
Definition cofactor : method t :=
  this <- self ;;
  let d := data this in
  let result := zero in
  let result := store result 0 (d 5 * (d 10 * d 15 - d 11 * d 14) - d 6 * (d 9 * d 15 - d 11 * d 13) + d 7 * (d 9 * d 14 - d 10 * d 13)) in
  let result := store result 1 (-(d 4 * (d 10 * d 15 - d 11 * d 14) - d 6 * (d 8 * d 15 - d 11 * d 12) + d 7 * (d 8 * d 14 - d 10 * d 12))) in
  let result := store result 2 (d 4 * (d 9 * d 15 - d 11 * d 13) - d 5 * (d 8 * d 15 - d 11 * d 12) + d 7 * (d 8 * d 13 - d 9 * d 12)) in
  let result := store result 3 (-(d 4 * (d 9 * d 14 - d 10 * d 13) - d 5 * (d 8 * d 14 - d 10 * d 12) + d 6 * (d 8 * d 13 - d 9 * d 12))) in
  let result := store result 4 (-(d 1 * (d 10 * d 15 - d 11 * d 14) - d 2 * (d 9 * d 15 - d 11 * d 13) + d 3 * (d 9 * d 14 - d 10 * d 13))) in
  let result := store result 5 (d 0 * (d 10 * d 15 - d 11 * d 14) - d 2 * (d 8 * d 15 - d 11 * d 12) + d 3 * (d 8 * d 14 - d 10 * d 12)) in
  let result := store result 6 (-(d 0 * (d 9 * d 15 - d 11 * d 13) - d 1 * (d 8 * d 15 - d 11 * d 12) + d 3 * (d 8 * d 13 - d 9 * d 12))) in
  let result := store result 7 (d 0 * (d 9 * d 14 - d 10 * d 13) - d 1 * (d 8 * d 14 - d 10 * d 12) + d 2 * (d 8 * d 13 - d 9 * d 12)) in
  let result := store result 8 (d 1 * (d 6 * d 15 - d 7 * d 14) - d 2 * (d 5 * d 15 - d 7 * d 13) + d 3 * (d 5 * d 14 - d 6 * d 13)) in
  let result := store result 9 (-(d 0 * (d 6 * d 15 - d 7 * d 14) - d 2 * (d 4 * d 15 - d 7 * d 12) + d 3 * (d 4 * d 14 - d 6 * d 12))) in
  let result := store result 10 (d 0 * (d 5 * d 15 - d 7 * d 13) - d 1 * (d 4 * d 15 - d 7 * d 12) + d 3 * (d 4 * d 13 - d 5 * d 12)) in
  let result := store result 11 (-(d 0 * (d 5 * d 14 - d 6 * d 13) - d 1 * (d 4 * d 14 - d 6 * d 12) + d 2 * (d 4 * d 13 - d 5 * d 12))) in
  let result := store result 12 (-(d 1 * (d 6 * d 11 - d 7 * d 10) - d 2 * (d 5 * d 11 - d 7 * d 9) + d 3 * (d 5 * d 10 - d 6 * d 9))) in
  let result := store result 13 (d 0 * (d 6 * d 11 - d 7 * d 10) - d 2 * (d 4 * d 11 - d 7 * d 8) + d 3 * (d 4 * d 10 - d 6 * d 8)) in
  let result := store result 14 (-(d 0 * (d 5 * d 11 - d 7 * d 9) - d 1 * (d 4 * d 11 - d 7 * d 8) + d 3 * (d 4 * d 9 - d 5 * d 8))) in
  let result := store result 15 (d 0 * (d 5 * d 10 - d 6 * d 9) - d 1 * (d 4 * d 10 - d 6 * d 8) + d 2 * (d 4 * d 9 - d 5 * d 8)) in
  ret result.

(** [Mat4 transpose()] *)
Definition transpose : method t :=
  this <- self ;;
  let d := data this in
  ret (Mat4 (d 0) (d 4) (d 8) (d 12)
            (d 1) (d 5) (d 9) (d 13)
            (d 2) (d 6) (d 10) (d 14)
            (d 3) (d 7) (d 11) (d 15)).

(** [Mat4 inverse()] *)
Definition inverse : method t :=
  result <- self ;;
  det <- determinant ;;
  if det == F32.lit0 then ret result
  else
    cof <- cofactor ;;
    let transpose_matrix := returned transpose cof in
    ret (for_upto 16
           (fun i result => store result i (data transpose_matrix i / det))
           result).

(** [data[i] += v] and [data[i] *= v] on the receiver. *)
Definition add_assign (i : nat) (v : F32.float) : method unit :=
  this <- self ;; assign i (data this i + v).
Definition mul_assign (i : nat) (v : F32.float) : method unit :=
  this <- self ;; assign i (data this i * v).

(** [void translate(Vec3 translation)] *)
Definition translate (translation : Vec3.t) : method unit :=
  add_assign 12 (Vec3.x translation) ;;;
  add_assign 13 (Vec3.y translation) ;;;
  add_assign 14 (Vec3.z translation).

(** [void scale(Vec3 scale)] *)
Definition scale (scale : Vec3.t) : method unit :=
  mul_assign 0 (Vec3.x scale) ;;;
  mul_assign 5 (Vec3.y scale) ;;;
  mul_assign 10 (Vec3.z scale).

(** [static Mat4 ortho(left, right, bottom, top, near, far)] *)
Definition ortho (left right bottom top near far : F32.float) : t :=
  let result := identity in
  let result := store result 0 (F32.lit2 / (right - left)) in
  let result := store result 5 (F32.lit2 / (top - bottom)) in
  let result := store result 10 (- F32.lit2 / (far - near)) in
  let result := store result 12 (- (right + left) / (right - left)) in
  let result := store result 13 (- (top + bottom) / (top - bottom)) in
  let result := store result 14 (- (far + near) / (far - near)) in
  result.

(** [Mat4 operator+(const Mat4 &other)] *)
Definition plus (other : t) : method t :=
  this <- self ;;
  let result := zero in
  ret (for_upto 16
         (fun i result => store result i (data this i + data other i))
         result).

(** [Mat4 operator*(const Mat4 &other)] *)
Definition times (other : t) : method t :=
  this <- self ;;
  let result := zero in
  ret (for_upto 4 (fun i result =>
         for_upto 4 (fun j result =>
           store result (i * 4 + j)%nat
             (data this (i * 4 + 0)%nat * data other (j + 0)%nat +
              data this (i * 4 + 1)%nat * data other (j + 4)%nat +
              data this (i * 4 + 2)%nat * data other (j + 8)%nat +
              data this (i * 4 + 3)%nat * data other (j + 12)%nat))
           result)
         result).

(** [Vec4 operator*(const Vec4 &other)] *)
Definition times_vec4 (other : Vec4.t) : method Vec4.t :=
  this <- self ;;
  let d := data this in
  ret (Vec4.Vec4
         (d 0 * Vec4.x other + d 4 * Vec4.y other + d 8 * Vec4.z other + d 12 * Vec4.w other)
         (d 1 * Vec4.x other + d 5 * Vec4.y other + d 9 * Vec4.z other + d 13 * Vec4.w other)
         (d 2 * Vec4.x other + d 6 * Vec4.y other + d 10 * Vec4.z other + d 14 * Vec4.w other)
         (d 3 * Vec4.x other + d 7 * Vec4.y other + d 11 * Vec4.z other + d 15 * Vec4.w other)).

Section WithTan.
Context {cmath : Cmath.Double}.

(** [static Mat4 perspective(float fov, float aspect, float near, float far)].
    In [float s = 1.0f / tan(fov / 2.0f)] the quotient [fov / 2.0f] is
    one of [float]; [tan] takes it and [1.0f] is divided by its result
    in [double], and [s] is that quotient rounded to [float]. *)
Definition perspective (fov aspect near far : F32.float) : t :=
  let s :=
    F64.to_f32
      (F64.div (F64.of_f32 F32.lit1)
               (Cmath.tan (F64.of_f32 (fov / F32.lit2)))) in
  let result := identity in
  let result := store result 0 (s / aspect) in
  let result := store result 5 s in
  let result := store result 10 (- far / (far - near)) in
  let result := store result 14 (- (far * near) / (far - near)) in
  let result := store result 11 (- F32.lit1) in
  let result := store result 15 F32.lit0 in
  result.

End WithTan.

(** The expression [a * b] on two matrices. *)
Definition product (a b : t) : t := returned (times b) a.

End Mat4.

(** ** Quat

    [Quat]'s members only read their receiver and their arguments, so
    each is a function of them.  [slerp] calls [abs] on a [float]: the
    call converts its argument to [int], and where that conversion is
    undefined so is the call of [slerp], which therefore returns an
    [option]. *)

Module Quat.

Record t : Type :=
  Quat { i : F32.float; j : F32.float; k : F32.float; r : F32.float }.

(** [Quat()] and [static Quat identity()] *)
Definition identity : t := Quat F32.lit0 F32.lit0 F32.lit0 F32.lit1.

(** [Quat normalize() const] *)
Definition normalize (this : t) : t :=
  let length :=
    F32.sqrt (i this * i this + j this * j this + k this * k this + r this * r this) in
  Quat (i this / length) (j this / length) (k this / length) (r this / length).

(** [Quat conjugate() const] *)
Definition conjugate (this : t) : t :=
  Quat (- i this) (- j this) (- k this) (r this).

(** [float dot(const Quat &b)] *)
Definition dot (this b : t) : F32.float :=
  i this * i b + j this * j b + k this * k b + r this * r b.

(** [Quat operator+(const Quat &b)] *)
Definition plus (this b : t) : t :=
  Quat (i this + i b) (j this + j b) (k this + k b) (r this + r b).

(** [Quat operator*(const Quat &b)] *)
Definition times (this b : t) : t :=
  Quat (i this * r b + j this * k b - k this * j b + r this * i b)
       (- i this * k b + j this * r b + k this * i b + r this * j b)
       (i this * j b - j this * i b + k this * r b + r this * k b)
       (- i this * i b - j this * j b - k this * k b + r this * r b).

(** [Quat operator*(float s)] *)
Definition times_scalar (this : t) (s : F32.float) : t :=
  Quat (i this * s) (j this * s) (k this * s) (r this * s).

(** [Quat operator/(float s)] *)
Definition div_scalar (this : t) (s : F32.float) : t :=
  Quat (i this / s) (j this / s) (k this / s) (r this / s).

(** [Quat inverse() const] *)
Definition inverse (this : t) : t :=
  div_scalar (conjugate this)
    (i this * i this + j this * j this + k this * k this + r this * r this).

(** [Vec4 operator*(const Vec4 &v)] *)
Definition times_vec4 (this : t) (v : Vec4.t) : Vec4.t :=
  let q := Quat (Vec4.x v) (Vec4.y v) (Vec4.z v) F32.lit0 in
  let result := times q (conjugate this) in
  let result := times this result in
  Vec4.Vec4 (i result) (j result) (k result) F32.lit1.

(** [Vec3 operator*(const Vec3 &v)] *)
Definition times_vec3 (this : t) (v : Vec3.t) : Vec3.t :=
  let result :=
    times_vec4 this (Vec4.Vec4 (Vec3.x v) (Vec3.y v) (Vec3.z v) F32.lit1) in
  Vec3.Vec3 (Vec4.x result) (Vec4.y result) (Vec4.z result).

(** [Mat4 to_mat4()] *)
Definition to_mat4 (this : t) : Mat4.t :=
  let '(i, j, k, r) := (i this, j this, k this, r this) in
  Mat4.Mat4
    (F32.lit1 - F32.lit2 * j * j - F32.lit2 * k * k)
    (F32.lit2 * i * j - F32.lit2 * k * r)
    (F32.lit2 * i * k + F32.lit2 * j * r)
    F32.lit0
    (F32.lit2 * i * j + F32.lit2 * k * r)
    (F32.lit1 - F32.lit2 * i * i - F32.lit2 * k * k)
    (F32.lit2 * j * k - F32.lit2 * i * r)
    F32.lit0
    (F32.lit2 * i * k - F32.lit2 * j * r)
    (F32.lit2 * j * k + F32.lit2 * i * r)
    (F32.lit1 - F32.lit2 * i * i - F32.lit2 * j * j)
    F32.lit0
    F32.lit0
    F32.lit0
    F32.lit0
    F32.lit1.

(** [Quat operator-(const Quat &b)] *)
Definition minus (this b : t) : t :=
  Quat (i this - i b) (j this - j b) (k this - k b) (r this - r b).

(** [bool operator==(const Quat &other) const] *)
Definition eqb (this other : t) : bool :=
  (i this == i other) && (j this == j other) && (k this == k other)
  && (r this == r other).

(** [bool operator!=(const Quat &other) const]: the negation of [==]. *)
Definition neqb (this other : t) : bool := negb (eqb this other).

(** [static Quat look_at(const Vec3 &from, const Vec3 &to, const Vec3 &up)] *)
Definition look_at (from to up : Vec3.t) : t :=
  let forward := Vec3.normalize (Vec3.sub to from) in
  let right := Vec3.normalize (Vec3.cross forward up) in
  let new_up := Vec3.normalize (Vec3.cross right forward) in
  let w :=
    F32.sqrt (F32.lit1 + Vec3.x right + Vec3.y new_up + Vec3.z forward)
    / F32.lit2 in
  let w4_recip := F32.lit1 / (F32.lit4 * w) in
  Quat ((Vec3.z new_up - Vec3.y forward) * w4_recip)
       ((Vec3.x forward - Vec3.z right) * w4_recip)
       ((Vec3.y right - Vec3.x new_up) * w4_recip)
       w.

Section WithLibm.
Context {libm : Libm}.

(** [static Quat lerp(Quat &a, Quat &b, float t)] *)
Definition lerp (a b : t) (t : F32.float) : Quat.t :=
  normalize (plus (times_scalar a (F32.lit1 - t)) (times_scalar b t)).

(** [static Quat from_axis_angle(const Vec3 &axis, float angle)] *)
Definition from_axis_angle (axis : Vec3.t) (angle : F32.float) : t :=
  let half_angle := angle / F32.lit2 in
  let s := sinf half_angle in
  Quat (Vec3.x axis * s) (Vec3.y axis * s) (Vec3.z axis * s) (cosf half_angle).

Context {cmath : Cmath.Double}.

Notation "x <- c ;; k" := (defined c (fun x => k))
  (at level 61, c at next level, right associativity).

(** [static Quat slerp(Quat &a, const Quat &b, float t)].  The two
    tests compare an [int] with a [float]; [half_theta] and
    [sin_half_theta] are stored in a [float]; each ratio is a division
    in [double] of the [double] that [sin] returns by
    [sin_half_theta], rounded when it is stored. *)
Definition slerp (a b : t) (t : F32.float) : option Quat.t :=
  let cos_half_theta := dot a b in
  abs_cos <- Int.abs_float cos_half_theta ;;
  if Int.to_float abs_cos >= F32.lit1 then Some a
  else
    let half_theta := acosf cos_half_theta in
    let sin_half_theta :=
      F32.sqrt (F32.lit1 - cos_half_theta * cos_half_theta) in
    abs_sin <- Int.abs_float sin_half_theta ;;
    if Int.to_float abs_sin < F32.lit0_001 then
      Some (Quat (i a * F32.lit0_5 + i b * F32.lit0_5)
                 (j a * F32.lit0_5 + j b * F32.lit0_5)
                 (k a * F32.lit0_5 + k b * F32.lit0_5)
                 (r a * F32.lit0_5 + r b * F32.lit0_5))
    else
      let ratio_a :=
        F64.to_f32
          (F64.div (Cmath.sin (F64.of_f32 ((F32.lit1 - t) * half_theta)))
                   (F64.of_f32 sin_half_theta)) in
      let ratio_b :=
        F64.to_f32
          (F64.div (Cmath.sin (F64.of_f32 (t * half_theta)))
                   (F64.of_f32 sin_half_theta)) in
      Some (Quat (i a * ratio_a + i b * ratio_b)
                 (j a * ratio_a + j b * ratio_b)
                 (k a * ratio_a + k b * ratio_b)
                 (r a * ratio_a + r b * ratio_b)).

End WithLibm.

End Quat.

(** The projection the example applications build for each frame,
    [Mat4::ortho(1.0, -1.0, -aspect, aspect, 1.0f, -1.0f)], from the
    aspect ratio [(float)height / (float)width] of their window. *)
Definition example_projection (aspect : F32.float) : Mat4.t :=
  Mat4.ortho F32.lit1 (- F32.lit1) (- aspect) aspect F32.lit1 (- F32.lit1).

(** [void Mat4::rotate(Quat rotation)] *)
Definition Mat4_rotate (rotation : Quat.t) : Mat4.method unit :=
  Mat4.bind Mat4.self (fun this =>
    let rotation_matrix := Quat.to_mat4 rotation in
    Mat4.assign_all (Mat4.product rotation_matrix this)).

(** ** Vocabulary of the statements *)

(** A finite binary32 number: neither infinite nor NaN, and canonical. *)
Definition F32_number (x : F32.float) : bool := F32.is_finite x && F32.valid x.

(** Equal up to the sign of zero: the only way two finite numbers that
    compare equal under [==] can differ. *)
Definition F32_same (x y : F32.float) : Prop :=
  x = y \/ (F32.is_zero x = true /\ F32.is_zero y = true).

(** The sum of four terms in increasing order of the index, as the
    product's inner expression writes it. *)
Definition sum4 (f : nat -> F32.float) : F32.float :=
  f 0%nat + f 1%nat + f 2%nat + f 3%nat.

(** Cell-for-cell comparison of two matrices with the C++ [==]. *)
Definition Mat4_cells_eqb (a b : Mat4.t) : bool :=
  forallb (fun i => Mat4.data a i == Mat4.data b i) (seq 0 16).

(** [-1.0f], [(float)(pi/2)], [(float)(pi/2) / 2.0f], and [0.70710677f],
    the binary32 number nearest to the sine and to the cosine of the
    latter. *)
Definition minus1 : F32.float := Eval cbv in F32.of_bits 0xBF800000.
Definition half_pi : F32.float := Eval cbv in F32.of_bits 0x3FC90FDB.
Definition quarter_pi : F32.float := Eval cbv in F32.of_bits 0x3F490FDB.
Definition sqrt_half : F32.float := Eval cbv in F32.of_bits 0x3F3504F3.

(** The largest binary32 number below one, [1 - 2^-24]. *)
Definition pred_one : F32.float := Eval cbv in F32.of_bits 0x3F7FFFFF.

(** [Mat4::ortho(-1, 1, -1, 1, 1, -1)] *)
Definition ortho_unit_box : Mat4.t :=
  Mat4.ortho minus1 F32.lit1 minus1 F32.lit1 F32.lit1 minus1.

(** The reference matrix the specification gives for that call. *)
Definition ortho_unit_box_spec_reference : Mat4.t :=
  Mat4.Mat4 F32.lit1 F32.lit0 F32.lit0 F32.lit0
            F32.lit0 F32.lit1 F32.lit0 F32.lit0
            F32.lit0 F32.lit0 minus1 F32.lit0
            F32.lit0 F32.lit0 F32.lit0 F32.lit1.

(** [2^-125], twice the least normal binary32 value. *)
Definition twice_flt_min : F32.float := Eval cbv in F32.of_bits 0x01000000.

(** Zero, or of magnitude at least [2^-125]: a number whose half is
    exact. *)
Definition F32_not_tiny (x : F32.float) : bool :=
  F32.is_zero x || (F32.abs x >= twice_flt_min).

(** A quaternion is a unit quaternion when [i*i + j*j + k*k + r*r],
    evaluated as the header evaluates it, is [1.0f]. *)
Definition Quat_is_unit (q : Quat.t) : bool := Quat.dot q q == F32.lit1.

(** [1 - 2^-21], eight binary32 values below [1]. *)
Definition nearly_one : F32.float := Eval cbv in F32.of_bits 0x3F7FFFF8.

(** The eight binary32 values from [nearly_one] up to [pred_one]. *)
Definition below_one_values : list F32.float :=
  map (fun m => S754_finite false m (-24))
      [16777208; 16777209; 16777210; 16777211;
       16777212; 16777213; 16777214; 16777215]%positive.

(** A unit quaternion up to rounding: its components are binary32
    numbers, none of them tiny, and [i*i + j*j + k*k + r*r], evaluated as
    the header evaluates it, is at least [1 - 2^-21]. *)
Definition Quat_is_nearly_unit (q : Quat.t) : bool :=
  F32_number (Quat.i q) && F32_number (Quat.j q) &&
  F32_number (Quat.k q) && F32_number (Quat.r q) &&
  F32_not_tiny (Quat.i q) && F32_not_tiny (Quat.j q) &&
  F32_not_tiny (Quat.k q) && F32_not_tiny (Quat.r q) &&
  (Quat.dot q q >= nearly_one).

(** [2^31]: on a [float] of this magnitude or more, [abs] is
    undefined. *)
Definition two31 : F32.float := Eval cbv in F32.of_bits 0x4F000000.

(** [2^-11]. *)
Definition two_m11 : F32.float := Eval cbv in F32.of_bits 0x3A000000.

(** [2^-149], the least positive binary32 value. *)
Definition least_positive : F32.float := Eval cbv in F32.of_bits 0x00000001.

(** The quaternion that [normalize()] returns on
    [(2^-149, 0, 1, 1)]: a quarter turn with one tiny component. *)
Definition sample_tiny_component : Quat.t :=
  Quat.Quat least_positive F32.lit0 sqrt_half sqrt_half.

(** [(1, 0, 0, 0)] and [(2^32, 0, 0, 0)], whose [dot] is [2^32]. *)
Definition sample_unit_i : Quat.t :=
  Quat.Quat F32.lit1 F32.lit0 F32.lit0 F32.lit0.
Definition sample_far : Quat.t :=
  Eval cbv in Quat.Quat (F32.of_bits 0x4F800000) F32.lit0 F32.lit0 F32.lit0.

(** The average that [slerp] returns from its second test. *)
Definition Quat_average (a b : Quat.t) : Quat.t :=
  Quat.Quat (Quat.i a * F32.lit0_5 + Quat.i b * F32.lit0_5)
            (Quat.j a * F32.lit0_5 + Quat.j b * F32.lit0_5)
            (Quat.k a * F32.lit0_5 + Quat.k b * F32.lit0_5)
            (Quat.r a * F32.lit0_5 + Quat.r b * F32.lit0_5).

(** A libm that is right at [quarter_pi] only; it instantiates the
    statements that are parametric in libm. *)
Definition libm_at_quarter_pi : Libm :=
  {| sinf := fun _ => sqrt_half; cosf := fun _ => sqrt_half;
     acosf := fun _ => S754_nan |}.

(** Sample data: the matrix of the numbers 1..16, which is singular,
    and a matrix with one infinite cell. *)
Definition sample_1_to_16 : Mat4.t :=
  Eval cbv in
  Mat4.Mat4
    (F32.of_bits 0x3F800000) (F32.of_bits 0x40000000)
    (F32.of_bits 0x40400000) (F32.of_bits 0x40800000)
    (F32.of_bits 0x40A00000) (F32.of_bits 0x40C00000)
    (F32.of_bits 0x40E00000) (F32.of_bits 0x41000000)
    (F32.of_bits 0x41100000) (F32.of_bits 0x41200000)
    (F32.of_bits 0x41300000) (F32.of_bits 0x41400000)
    (F32.of_bits 0x41500000) (F32.of_bits 0x41600000)
    (F32.of_bits 0x41700000) (F32.of_bits 0x41800000).

Definition sample_infinite_cell : Mat4.t :=
  Mat4.store Mat4.zero 0 (S754_infinity false).

Definition sample_vec3 : Vec3.t :=
  Vec3.Vec3 F32.lit2 F32.lit0_5 minus1.

(** [5 * FLT_EPSILON], as binary32 evaluates it. *)
Definition five_epsilon : F32.float :=
  Eval cbv in F32.mul (F32.of_bits 0x40A00000) F32.epsilon.

(** The binary32 values within [5 * FLT_EPSILON] of [1]: ten below
    [1], then [1] and five above. *)
Definition about_one_values : list F32.float :=
  map (fun m => S754_finite false m (-24))
      [16777206; 16777207; 16777208; 16777209; 16777210; 16777211;
       16777212; 16777213; 16777214; 16777215]%positive ++
  map (fun m => S754_finite false m (-23))
      [8388608; 8388609; 8388610; 8388611; 8388612; 8388613]%positive.

(** [(2^64, 0, 0)], whose squared length overflows, and an ordinary
    vector, about [(-6.714, -5.988, 0.083)]. *)
Definition sample_overflow : Vec3.t :=
  Eval cbv in Vec3.Vec3 (F32.of_bits 0x5F800000) F32.lit0 F32.lit0.

Definition sample_ordinary : Vec3.t :=
  Eval cbv in
  Vec3.Vec3 (F32.of_bits 0xC0D6DA00) (F32.of_bits 0xC0BF9D57)
            (F32.of_bits 0x3DA9F184).

Definition sample_quat : Quat.t :=
  Quat.Quat F32.lit0_5 F32.lit0_5 F32.lit0_5 F32.lit0_5.

(** The quarter turn about [z] as [from_axis_angle] builds it,
    [(0, 0, 0.70710677, 0.70710677)]; its [dot] with itself is
    [1 - 2^-24]. *)
Definition sample_quarter_turn : Quat.t :=
  Quat.Quat F32.lit0 F32.lit0 sqrt_half sqrt_half.

(** *** Real values

    The statements on accuracy compare a binary32 result with the real
    number it stands for. *)

Local Open Scope R_scope.

Definition pow2 (e : Z) : R := powerRZ 2 e.

(** Sign bit and magnitude of a binary32 value; infinities and NaN have
    magnitude 0 here and are excluded by [F32_number] where it matters. *)
Definition F32_sign (x : F32.float) : bool :=
  match x with
  | S754_zero s | S754_infinity s | S754_finite s _ _ => s
  | S754_nan => false
  end.

Definition F32_magnitude (x : F32.float) : R :=
  match x with
  | S754_finite _ m e => IZR (Z.pos m) * pow2 e
  | _ => 0
  end.

Definition F32_value (x : F32.float) : R :=
  if F32_sign x then - F32_magnitude x else F32_magnitude x.

(** A normal number: finite, not zero, not subnormal; its magnitude is
    at least FLT_MIN, [2^-126]. *)
Definition F32_normal (x : F32.float) : bool :=
  match x with
  | S754_finite _ m _ => (Z.pos (digits2_pos m) =? F32.prec)%Z
  | _ => false
  end.

(** FLT_EPSILON as a real number. *)
Definition FLT_EPSILON : R := pow2 (-23).

(** The unit roundoff of binary32, [2^-24], and half the least
    subnormal, [2^-150]. *)
Definition u32 : R := / 16777216.
Definition eta32 : R := pow2 (-150).

(** One rounding: relative error [u32], absolute error [eta] near zero. *)
Definition near (eta v x : R) : Prop := Rabs (v - x) <= u32 * x + eta.

(** The record of the rounding shifter locates a real number [y]
    between its mantissa and the next integer. *)
Definition located (r : shr_record) (y : R) : Prop :=
  match shr_r r, shr_s r with
  | false, false => y = IZR (shr_m r)
  | false, true => IZR (shr_m r) < y < IZR (shr_m r) + / 2
  | true, false => y = IZR (shr_m r) + / 2
  | true, true => IZR (shr_m r) + / 2 < y < IZR (shr_m r) + 1
  end.

(** What a finite result stands for: sign [s] and magnitude [v]. *)
Definition represents (res : F32.float) (s : bool) (v : R) : Prop :=
  (res = S754_zero s /\ v = 0) \/
  (exists m e, res = S754_finite s m e /\ v = IZR (Z.pos m) * pow2 e /\
               bounded F32.prec F32.emax m e = true).

(** [res] is the rounding of the magnitude [x] with sign [s]: an
    overflow to infinity, or a number within half a unit in the last
    place. *)
Definition rounds_to (res : F32.float) (s : bool) (x : R) : Prop :=
  (res = S754_infinity s /\ pow2 127 <= x) \/
  (exists v, represents res s v /\
             Rabs (v - x) <= pow2 (-24) * x + pow2 (-150) /\
             (pow2 (-126) <= x -> Rabs (v - x) <= pow2 (-24) * x)).

Local Close Scope R_scope.

(** ** Vocabulary of the statements on vectors and quaternions *)

(** Every component is a finite binary32 number. *)
Definition Vec2_numbers (v : Vec2.t) : bool :=
  F32_number (Vec2.x v) && F32_number (Vec2.y v).
Definition Vec3_numbers (v : Vec3.t) : bool :=
  F32_number (Vec3.x v) && F32_number (Vec3.y v) && F32_number (Vec3.z v).
Definition Vec4_numbers (v : Vec4.t) : bool :=
  F32_number (Vec4.x v) && F32_number (Vec4.y v) && F32_number (Vec4.z v)
  && F32_number (Vec4.w v).
Definition Quat_numbers (q : Quat.t) : bool :=
  F32_number (Quat.i q) && F32_number (Quat.j q) && F32_number (Quat.k q)
  && F32_number (Quat.r q).

(** Component by component equal up to the sign of zero. *)
Definition Vec3_same (a b : Vec3.t) : Prop :=
  F32_same (Vec3.x a) (Vec3.x b) /\ F32_same (Vec3.y a) (Vec3.y b) /\
  F32_same (Vec3.z a) (Vec3.z b).
Definition Vec4_same (a b : Vec4.t) : Prop :=
  F32_same (Vec4.x a) (Vec4.x b) /\ F32_same (Vec4.y a) (Vec4.y b) /\
  F32_same (Vec4.z a) (Vec4.z b) /\ F32_same (Vec4.w a) (Vec4.w b).
Definition Quat_same (a b : Quat.t) : Prop :=
  F32_same (Quat.i a) (Quat.i b) /\ F32_same (Quat.j a) (Quat.j b) /\
  F32_same (Quat.k a) (Quat.k b) /\ F32_same (Quat.r a) (Quat.r b).

(** The matrix whose first column is [v] and whose other cells are
    [0]: the vector as the matrix product sees it. *)
Definition Mat4_of_column (v : Vec4.t) : Mat4.t :=
  Mat4.Mat4 (Vec4.x v) F32.lit0 F32.lit0 F32.lit0
            (Vec4.y v) F32.lit0 F32.lit0 F32.lit0
            (Vec4.z v) F32.lit0 F32.lit0 F32.lit0
            (Vec4.w v) F32.lit0 F32.lit0 F32.lit0.

(** The first column of a matrix, cells 0, 4, 8 and 12. *)
Definition Mat4_first_column (m : Mat4.t) : Vec4.t :=
  Vec4.Vec4 (Mat4.data m 0) (Mat4.data m 4) (Mat4.data m 8) (Mat4.data m 12).

(** A libm for the functions on [double] that instantiates the
    statements parametric in it; none of them depends on its values. *)
Definition libm_tan_sample : Cmath.Double :=
  {| Cmath.sin := fun x => x; Cmath.tan := fun _ => F64.of_f32 F32.lit1 |}.

(** A libm that is right at [0] only. *)
Definition libm_at_zero : Libm :=
  {| sinf := fun _ => F32.lit0; cosf := fun _ => F32.lit1;
     acosf := fun _ => S754_nan |}.

Definition sample_vec4 : Vec4.t :=
  Vec4.Vec4 F32.lit2 F32.lit0_5 minus1 F32.lit1.

(** ** Facts about binary32 arithmetic *)

Section Binary32Facts.
Import F32.

Lemma number_finite x : F32_number x = true -> is_finite x = true.
Proof. unfold F32_number. intros H. apply andb_prop in H. tauto. Qed.

Lemma same_refl x : F32_same x x.
Proof. left. reflexivity. Qed.

(** A canonical mantissa is not shifted by the rounding step. *)
Lemma shr_fexp_canonical m e :
  fexp prec emax (Z.pos (digits2_pos m) + e) = e ->
  shr_fexp prec emax (Z.pos m) e loc_Exact
  = (Build_shr_record (Z.pos m) false false, e).
Proof.
  intros Hc. unfold shr_fexp, Zdigits2. rewrite Hc, Z.sub_diag. reflexivity.
Qed.

Lemma mul_one_l_finite s m e :
  valid (S754_finite s m e) = true ->
  mul lit1 (S754_finite s m e) = S754_finite s m e.
Proof.
  unfold valid, valid_binary, bounded, canonical_mantissa, mul, SFmul, lit1.
  intros H. apply andb_prop in H. destruct H as [Hc Hb].
  apply Z.eqb_eq in Hc.
  unfold binary_round_aux.
  cbn [xorb Pos.mul].
  set (m' := (m~0~0~0~0~0~0~0~0~0~0~0~0~0~0~0~0~0~0~0~0~0~0~0)%positive).
  assert (Hs : shr_fexp prec emax (Z.pos m') (-23 + e) loc_Exact
               = (Build_shr_record (Z.pos m) false false, e)).
  { unfold shr_fexp, Zdigits2, m'. cbn [digits2_pos].
    rewrite !Pos2Z.inj_succ.
    replace (_ + (-23 + e))%Z with (Z.pos (digits2_pos m) + e)%Z by lia.
    rewrite Hc. replace (e - (-23 + e))%Z with 23%Z by lia.
    cbv [shr iter_pos shr_1 shr_record_of_loc orb]. f_equal. lia. }
  rewrite Hs. cbn [shr_m loc_of_shr_record round_nearest_even].
  rewrite (shr_fexp_canonical _ _ Hc). cbn [shr_m].
  rewrite Hb. reflexivity.
Qed.

Lemma mul_comm_finite s1 m1 e1 s2 m2 e2 :
  mul (S754_finite s1 m1 e1) (S754_finite s2 m2 e2)
  = mul (S754_finite s2 m2 e2) (S754_finite s1 m1 e1).
Proof.
  unfold mul, SFmul.
  rewrite (Pos.mul_comm m1 m2), (Z.add_comm e1 e2), (xorb_comm s1 s2).
  reflexivity.
Qed.

Lemma mul_one_l x : F32_number x = true -> mul lit1 x = x.
Proof.
  unfold F32_number. intros H. apply andb_prop in H. destruct H as [Hf Hv].
  destruct x as [s | s | | s m e]; try discriminate.
  - reflexivity.
  - apply mul_one_l_finite, Hv.
Qed.

Lemma mul_one_r x : F32_number x = true -> mul x lit1 = x.
Proof.
  unfold F32_number. intros H. apply andb_prop in H. destruct H as [Hf Hv].
  destruct x as [s | s | | s m e]; try discriminate.
  - destruct s; reflexivity.
  - unfold lit1. rewrite mul_comm_finite. apply mul_one_l_finite, Hv.
Qed.

Lemma mul_zero_l x : is_finite x = true -> is_zero (mul lit0 x) = true.
Proof. destruct x; try discriminate; reflexivity. Qed.

Lemma mul_zero_r x : is_finite x = true -> is_zero (mul x lit0) = true.
Proof. destruct x; try discriminate; reflexivity. Qed.

Lemma add_zero_zero x y :
  is_zero x = true -> is_zero y = true -> is_zero (add x y) = true.
Proof.
  destruct x as [[] | | |], y as [[] | | |]; try discriminate; reflexivity.
Qed.

Lemma same_add_zero_r a x z :
  F32_same a x -> is_finite x = true -> is_zero z = true ->
  F32_same (add a z) x.
Proof.
  intros [-> | [Ha Hx]] Hf Hz.
  - destruct x as [sx | | |], z as [sz | | |]; try discriminate.
    + right. split; [ destruct sx, sz | ]; reflexivity.
    + left. reflexivity.
  - right. split; [ apply add_zero_zero | ]; assumption.
Qed.

Lemma same_add_zero_l a x z :
  is_zero z = true -> F32_same a x -> is_finite x = true ->
  F32_same (add z a) x.
Proof.
  intros Hz [-> | [Ha Hx]] Hf.
  - destruct x as [sx | | |], z as [sz | | |]; try discriminate.
    + right. split; [ destruct sx, sz | ]; reflexivity.
    + left. reflexivity.
  - right. split; [ apply add_zero_zero | ]; assumption.
Qed.

Lemma same_mul_one_l x : F32_number x = true -> F32_same (mul lit1 x) x.
Proof. intros H. left. apply mul_one_l, H. Qed.

Lemma same_mul_one_r x : F32_number x = true -> F32_same (mul x lit1) x.
Proof. intros H. left. apply mul_one_r, H. Qed.

Lemma eqb_refl_finite x : is_finite x = true -> eqb x x = true.
Proof.
  destruct x as [s | s | | s m e]; try discriminate; intros _.
  - reflexivity.
  - unfold eqb, SFeqb, SFcompare.
    rewrite Z.compare_refl, Pos.compare_cont_refl. destruct s; reflexivity.
Qed.

Lemma same_eqb a x : F32_same a x -> is_finite x = true -> eqb a x = true.
Proof.
  intros [-> | [Ha Hx]] Hf.
  - apply eqb_refl_finite, Hf.
  - destruct a, x; try discriminate; reflexivity.
Qed.

Lemma same_nonzero a x : F32_same a x -> is_zero x = false -> a = x.
Proof. intros [-> | [_ Hx]] Hz; [ reflexivity | congruence ]. Qed.

End Binary32Facts.

Create HintDb f32 discriminated.
#[global] Hint Resolve number_finite same_add_zero_r same_add_zero_l
  same_mul_one_l same_mul_one_r mul_zero_l mul_zero_r add_zero_zero : f32.

(** ** Rounding: binary32 results against real numbers *)

Local Open Scope R_scope.

Lemma pow2_pos e : 0 < pow2 e.
Proof. apply powerRZ_lt. lra. Qed.

Lemma pow2_add a b : pow2 (a + b) = pow2 a * pow2 b.
Proof. apply powerRZ_add. lra. Qed.

Lemma pow2_0 : pow2 0 = 1.
Proof. reflexivity. Qed.

Lemma pow2_1 : pow2 1 = 2.
Proof. unfold pow2. simpl. lra. Qed.

Lemma pow2_opp a : pow2 (- a) = / pow2 a.
Proof. apply powerRZ_neg'. Qed.

Lemma pow2_sub a b : pow2 (a - b) = pow2 a / pow2 b.
Proof. unfold Z.sub, Rdiv. rewrite pow2_add, pow2_opp. reflexivity. Qed.

Lemma pow2_succ a : pow2 (a + 1) = 2 * pow2 a.
Proof. rewrite pow2_add, pow2_1. lra. Qed.

Lemma pow2_ge_1 k : (0 <= k)%Z -> 1 <= pow2 k.
Proof.
  intros H. pattern k. apply natlike_ind; [ rewrite pow2_0; lra | | exact H ].
  intros x Hx IH. unfold Z.succ. rewrite pow2_succ. lra.
Qed.

Lemma pow2_le a b : (a <= b)%Z -> pow2 a <= pow2 b.
Proof.
  intros H. replace b with (a + (b - a))%Z by lia. rewrite pow2_add.
  pose proof (pow2_ge_1 (b - a) ltac:(lia)). pose proof (pow2_pos a). nra.
Qed.

Lemma pow2_lt a b : (a < b)%Z -> pow2 a < pow2 b.
Proof.
  intros H. replace b with (a + 1 + (b - a - 1))%Z by lia.
  rewrite pow2_add, pow2_succ.
  pose proof (pow2_ge_1 (b - a - 1) ltac:(lia)). pose proof (pow2_pos a). nra.
Qed.

Lemma pow2_IZR k : (0 <= k)%Z -> pow2 k = IZR (2 ^ k).
Proof.
  intros H. pattern k. apply natlike_ind; [ reflexivity | | exact H ].
  intros x Hx IH. unfold Z.succ. rewrite pow2_succ, IH, Z.pow_add_r by lia.
  rewrite mult_IZR. change (2 ^ 1)%Z with 2%Z. lra.
Qed.

Lemma pow2_le_inv a b : pow2 a < pow2 b -> (a < b)%Z.
Proof.
  intros H. destruct (Z_lt_le_dec a b) as [Hlt | Hge]; [ exact Hlt | ].
  apply pow2_le in Hge. lra.
Qed.

(** ** Digits *)

Lemma digits2_size m : digits2_pos m = Pos.size m.
Proof. induction m; simpl; congruence. Qed.

Lemma digits2_bounds m :
  pow2 (Z.pos (digits2_pos m) - 1) <= IZR (Z.pos m) < pow2 (Z.pos (digits2_pos m)).
Proof.
  rewrite digits2_size.
  pose proof (Pos.size_gt m) as Hgt. pose proof (Pos.size_le m) as Hle.
  rewrite !pow2_IZR by lia. split.
  - apply IZR_le.
    assert (2 ^ Z.pos (Pos.size m) <= 2 * Z.pos m)%Z.
    { rewrite <- Pos2Z.inj_pow. change (2 * Z.pos m)%Z with (Z.pos m~0). apply Pos2Z.pos_le_pos, Hle. }
    replace (Z.pos (Pos.size m)) with (Z.pos (Pos.size m) - 1 + 1)%Z in H by lia.
    rewrite Z.pow_add_r in H by lia. lia.
  - apply IZR_lt. rewrite <- Pos2Z.inj_pow. apply Pos2Z.pos_lt_pos, Hgt.
Qed.

(** ** The rounding record *)

Lemma shr_1_inb r y :
  (0 <= shr_m r)%Z -> located r y ->
  (0 <= shr_m (shr_1 r))%Z /\ located (shr_1 r) (y / 2).
Proof.
  destruct r as [m rb sb]. unfold located. cbn [shr_m shr_r shr_s].
  intros Hm H.
  destruct m as [| p | p]; [ | | lia ].
  - destruct rb, sb; cbn; split; try lia; lra.
  - destruct p as [p | p |].
    + rewrite (Pos2Z.inj_xI p), plus_IZR, mult_IZR in H.
      destruct rb, sb; cbn [shr_1 shr_m shr_r shr_s orb]; split; try lia; lra.
    + rewrite (Pos2Z.inj_xO p), mult_IZR in H.
      destruct rb, sb; cbn [shr_1 shr_m shr_r shr_s orb]; split; try lia; lra.
    + destruct rb, sb; cbn [shr_1 shr_m shr_r shr_s orb]; split; try lia; lra.
Qed.

Lemma iter_shr_1_inb p : forall r y,
  (0 <= shr_m r)%Z -> located r y ->
  (0 <= shr_m (iter_pos shr_1 p r))%Z /\
  located (iter_pos shr_1 p r) (y / pow2 (Z.pos p)).
Proof.
  induction p as [p IH | p IH |]; intros r y Hm H; cbn [iter_pos].
  - destruct (shr_1_inb r y Hm H) as [H1 H2].
    destruct (IH _ _ H1 H2) as [H3 H4].
    destruct (IH _ _ H3 H4) as [H5 H6].
    split; [ exact H5 | ].
    replace (y / pow2 (Z.pos p~1)) with (y / 2 / pow2 (Z.pos p) / pow2 (Z.pos p)); [ exact H6 | ].
    rewrite (Pos2Z.inj_xI p). replace (2 * Z.pos p + 1)%Z with (Z.pos p + Z.pos p + 1)%Z by lia.
    rewrite pow2_succ, pow2_add. pose proof (pow2_pos (Z.pos p)). field. lra.
  - destruct (IH _ _ Hm H) as [H3 H4].
    destruct (IH _ _ H3 H4) as [H5 H6].
    split; [ exact H5 | ].
    replace (y / pow2 (Z.pos p~0)) with (y / pow2 (Z.pos p) / pow2 (Z.pos p)); [ exact H6 | ].
    rewrite (Pos2Z.inj_xO p). replace (2 * Z.pos p)%Z with (Z.pos p + Z.pos p)%Z by lia.
    rewrite pow2_add. pose proof (pow2_pos (Z.pos p)). field. lra.
  - rewrite pow2_1. apply shr_1_inb; assumption.
Qed.

(** Shifting by [n >= 0]: the exponent moves by [n] and the record still
    locates the scaled value. *)
Lemma shr_inb r e n x :
  (0 <= shr_m r)%Z -> (0 <= n)%Z -> located r (x / pow2 e) ->
  snd (shr r e n) = (e + n)%Z /\
  (0 <= shr_m (fst (shr r e n)))%Z /\
  located (fst (shr r e n)) (x / pow2 (e + n)).
Proof.
  intros Hm Hn H. unfold shr. destruct n as [| p | p]; [ | | lia ].
  - cbn [fst snd]. rewrite Z.add_0_r. auto.
  - cbn [fst snd]. split; [ reflexivity | ].
    destruct (iter_shr_1_inb p _ _ Hm H) as [H1 H2]. split; [ exact H1 | ].
    replace (x / pow2 (e + Z.pos p)) with (x / pow2 e / pow2 (Z.pos p)); [ exact H2 | ].
    rewrite pow2_add. pose proof (pow2_pos e). pose proof (pow2_pos (Z.pos p)).
    field. lra.
Qed.

Lemma round_inb r y :
  (0 <= shr_m r)%Z -> located r y ->
  let m1 := round_nearest_even (shr_m r) (loc_of_shr_record r) in
  (0 <= m1)%Z /\ Rabs (IZR m1 - y) <= / 2.
Proof.
  destruct r as [m rb sb]. unfold located. cbn [shr_m shr_r shr_s].
  intros Hm H.
  destruct rb, sb; cbn [loc_of_shr_record round_nearest_even].
  - split; [ lia | ]. rewrite plus_IZR. apply Rabs_le. lra.
  - destruct (Z.even m); (split; [ lia | ]); try rewrite plus_IZR; apply Rabs_le; lra.
  - split; [ lia | ]. apply Rabs_le. lra.
  - split; [ lia | ]. apply Rabs_le. lra.
Qed.

Lemma zdigits_bounds m :
  (0 <= m)%Z ->
  (0 <= Zdigits2 m)%Z /\
  IZR m + 1 <= pow2 (Zdigits2 m) /\
  ((0 < m)%Z -> pow2 (Zdigits2 m - 1) <= IZR m).
Proof.
  intros Hm. destruct m as [| p | p]; [ | | lia ].
  - cbn [Zdigits2]. rewrite pow2_0. repeat split; try lia; lra.
  - cbn [Zdigits2]. pose proof (digits2_bounds p) as [Hl Hu].
    repeat split; try lia; [ | intros _; exact Hl ].
    rewrite pow2_IZR in * by lia.
    apply lt_IZR in Hu. rewrite <- plus_IZR. apply IZR_le. lia.
Qed.

Lemma zdigits_le m k :
  (0 <= m)%Z -> (0 <= k)%Z -> IZR m < pow2 k -> (Zdigits2 m <= k)%Z.
Proof.
  intros Hm Hk H. destruct (Z.eq_dec m 0) as [-> | Hn]; [ exact Hk | ].
  destruct (zdigits_bounds m Hm) as (_ & _ & Hl). specialize (Hl ltac:(lia)).
  assert (Hlt : pow2 (Zdigits2 m - 1) < pow2 k) by lra.
  apply pow2_le_inv in Hlt. lia.
Qed.

Lemma zdigits_ge m k :
  (0 <= m)%Z -> pow2 (k - 1) <= IZR m -> (k <= Zdigits2 m)%Z.
Proof.
  intros Hm H. destruct (zdigits_bounds m Hm) as (_ & Hu & _).
  assert (Hlt : pow2 (k - 1) < pow2 (Zdigits2 m)) by lra.
  apply pow2_le_inv in Hlt. lia.
Qed.

Lemma located_of_loc_bounds m l y :
  located (shr_record_of_loc m l) y -> IZR m <= y < IZR m + 1.
Proof.
  destruct l as [| []]; unfold located; cbn; lra.
Qed.

Lemma fexp_eq e : fexp F32.prec F32.emax e = Z.max (e - 24) (-149).
Proof. reflexivity. Qed.

Lemma Rabs_le_inv a b : Rabs a <= b -> - b <= a <= b.
Proof. unfold Rabs. destruct (Rcase_abs a); lra. Qed.

Lemma pow2_23 : pow2 23 = 8388608.
Proof. unfold pow2. simpl. lra. Qed.

Lemma pow2_24 : pow2 24 = 16777216.
Proof. unfold pow2. simpl. lra. Qed.

Lemma pow2_m24 : pow2 (-24) = / 16777216.
Proof. change (-24)%Z with (- (24))%Z. rewrite pow2_opp, pow2_24. reflexivity. Qed.

(** The second shift of [binary_round_aux] only absorbs a carry. *)
Lemma second_shr m1 E :
  (0 <= m1 <= 16777216)%Z -> (-149 <= E)%Z ->
  ((-149 < E)%Z -> (8388608 <= m1)%Z) ->
  exists r'' e'',
    shr (shr_record_of_loc m1 loc_Exact) E (fexp F32.prec F32.emax (Zdigits2 m1 + E) - E)
    = (r'', e'') /\
    IZR (shr_m r'') * pow2 e'' = IZR m1 * pow2 E /\
    (0 <= shr_m r'' < 16777216)%Z /\
    fexp F32.prec F32.emax (Zdigits2 (shr_m r'') + e'') = e'' /\
    (E <= e'' <= E + 1)%Z /\
    ((-149 < e'')%Z -> (8388608 <= shr_m r'')%Z).
Proof.
  intros Hm HE Hn.
  destruct (Z.eq_dec m1 16777216) as [-> | Hne].
  - exists (Build_shr_record 8388608 false false), (E + 1)%Z.
    change (Zdigits2 16777216) with 25%Z. rewrite fexp_eq.
    replace (Z.max (25 + E - 24) (-149) - E)%Z with 1%Z by lia.
    cbn [shr shr_record_of_loc iter_pos shr_1 orb shr_m].
    repeat split; try lia.
    + rewrite pow2_succ. lra.
    + change (Zdigits2 8388608) with 24%Z. rewrite fexp_eq. lia.
  - exists (shr_record_of_loc m1 loc_Exact), E.
    assert (Hd : (Zdigits2 m1 <= 24)%Z).
    { apply zdigits_le; try lia. rewrite pow2_24. apply IZR_lt. lia. }
    assert (Hd' : ((-149 < E)%Z -> (24 <= Zdigits2 m1)%Z)).
    { intros H. apply zdigits_ge; try lia. change (24 - 1)%Z with 23%Z.
      rewrite pow2_23. apply IZR_le. auto. }
    assert (Hf : fexp F32.prec F32.emax (Zdigits2 m1 + E) = E) by (rewrite fexp_eq; lia).
    rewrite Hf, Z.sub_diag. cbn [shr shr_record_of_loc shr_m].
    repeat split; try lia; auto.
Qed.

Lemma binary_round_aux_spec sx mx ex lx x :
  (0 <= mx)%Z ->
  located (shr_record_of_loc mx lx) (x / pow2 ex) ->
  (ex <= fexp F32.prec F32.emax (Zdigits2 mx + ex))%Z ->
  let res := binary_round_aux F32.prec F32.emax sx mx ex lx in
  (res = S754_infinity sx /\ pow2 127 <= x) \/
  (exists v, represents res sx v /\
             Rabs (v - x) <= pow2 (-24) * x + pow2 (-150) /\
             (pow2 (-126) <= x -> Rabs (v - x) <= pow2 (-24) * x)).
Proof.
  intros Hm Hin Hpre res. subst res. unfold binary_round_aux, shr_fexp.
  set (d := Zdigits2 mx) in *. set (E := fexp F32.prec F32.emax (d + ex)) in *.
  destruct (shr_inb (shr_record_of_loc mx lx) ex (E - ex) x) as (He' & Hm' & Hin').
  { destruct lx as [| []]; exact Hm. }
  { lia. }
  { exact Hin. }
  destruct (shr (shr_record_of_loc mx lx) ex (E - ex)) as [mrs' e'].
  cbn [fst snd] in He', Hm', Hin'.
  replace (ex + (E - ex))%Z with E in * by lia. subst e'.
  destruct (round_inb mrs' _ Hm' Hin') as [Hm1 Hr].
  set (m1 := round_nearest_even (shr_m mrs') (loc_of_shr_record mrs')) in *.
  (* bounds on the scaled value *)
  pose proof (located_of_loc_bounds _ _ _ Hin) as [Hyl Hyu].
  destruct (zdigits_bounds mx Hm) as (Hd0 & Hdu & Hdl). fold d in Hd0, Hdu, Hdl.
  pose proof (pow2_pos ex) as Hpex. pose proof (pow2_pos E) as HpE.
  set (y' := x / pow2 E) in *.
  assert (Hx : x = y' * pow2 E) by (unfold y'; field; lra).
  assert (Hxu : x < pow2 (d + ex)).
  { rewrite pow2_add. apply Rmult_lt_reg_r with (/ pow2 ex); [ apply Rinv_0_lt_compat; lra | ].
    replace (pow2 d * pow2 ex * / pow2 ex) with (pow2 d) by (field; lra).
    unfold Rdiv in Hyu. lra. }
  assert (Hx0 : 0 <= x).
  { apply Rmult_le_reg_r with (/ pow2 ex); [ apply Rinv_0_lt_compat; lra | ].
    rewrite Rmult_0_l. unfold Rdiv in Hyl. apply IZR_le in Hm. lra. }
  assert (HE : (-149 <= E)%Z) by (unfold E; rewrite fexp_eq; lia).
  assert (Hy24 : y' < pow2 24).
  { assert (pow2 (d + ex) <= pow2 (E + 24)) by (apply pow2_le; unfold E; rewrite fexp_eq; lia).
    rewrite (pow2_add E 24) in H. apply Rmult_lt_reg_r with (pow2 E); lra. }
  assert (Hy23 : (-149 < E)%Z -> pow2 23 <= y').
  { intros HEn.
    assert (Hmx : (0 < mx)%Z).
    { destruct (Z.eq_dec mx 0) as [Hz | Hz]; [ | lia ].
      exfalso. unfold E, d in HEn, Hpre. rewrite Hz in HEn, Hpre.
      cbn [Zdigits2] in HEn, Hpre. rewrite fexp_eq in HEn, Hpre. lia. }
    specialize (Hdl Hmx).
    assert (Heq : (d - 1 + ex = E + 23)%Z) by (unfold E in *; rewrite fexp_eq in *; lia).
    assert (Hxl : pow2 (E + 23) <= x).
    { rewrite <- Heq, pow2_add.
      apply Rmult_le_reg_r with (/ pow2 ex); [ apply Rinv_0_lt_compat; lra | ].
      replace (pow2 (d - 1) * pow2 ex * / pow2 ex) with (pow2 (d - 1)) by (field; lra).
      unfold Rdiv in Hyl. lra. }
    rewrite (pow2_add E 23) in Hxl. apply Rmult_le_reg_r with (pow2 E); lra. }
  apply Rabs_le_inv in Hr.
  assert (Hm1u : (m1 <= 16777216)%Z).
  { rewrite pow2_24 in Hy24. assert (IZR m1 < IZR (16777216 + 1)) by (rewrite plus_IZR; lra).
    apply lt_IZR in H. lia. }
  assert (Hm1l : (-149 < E)%Z -> (8388608 <= m1)%Z).
  { intros HEn. specialize (Hy23 HEn). rewrite pow2_23 in Hy23.
    assert (IZR (8388608 - 1) < IZR m1) by (rewrite minus_IZR; lra).
    apply lt_IZR in H. lia. }
  destruct (second_shr m1 E (conj Hm1 Hm1u) HE Hm1l)
    as (r'' & e'' & -> & Hval & Hm'' & Hcan & He'' & Hnorm).
  (* the error of the rounded value *)
  set (v := IZR m1 * pow2 E) in *.
  assert (Herr : Rabs (v - x) <= / 2 * pow2 E).
  { unfold v. rewrite Hx. apply Rabs_le. nra. }
  assert (HerrN : pow2 23 <= y' -> Rabs (v - x) <= pow2 (-24) * x).
  { intros Hy. rewrite pow2_23 in Hy. rewrite pow2_m24.
    eapply Rle_trans; [ exact Herr | ]. rewrite Hx at 1. nra. }
  assert (HerrA : Rabs (v - x) <= pow2 (-24) * x + pow2 (-150)).
  { destruct (Z.eq_dec E (-149)) as [HEs | HEs].
    - eapply Rle_trans; [ exact Herr | ]. rewrite HEs.
      change (-149)%Z with (-150 + 1)%Z. rewrite pow2_succ.
      pose proof (pow2_pos (-150)). rewrite pow2_m24. nra.
    - specialize (HerrN (Hy23 ltac:(lia))). pose proof (pow2_pos (-150)). lra. }
  assert (HerrB : pow2 (-126) <= x -> Rabs (v - x) <= pow2 (-24) * x).
  { intros Hxn. apply HerrN.
    destruct (Z.eq_dec E (-149)) as [HEs | HEs]; [ | apply Hy23; lia ].
    apply Rmult_le_reg_r with (pow2 E); [ lra | ]. rewrite <- Hx, <- pow2_add, HEs.
    exact Hxn. }
  destruct (shr_m r'') as [| p | p] eqn:Hp; [ | | lia ].
  - right. exists v. split; [ left; split; [ reflexivity | ] | split; assumption ].
    rewrite <- Hval. lra.
  - destruct (e'' <=? F32.emax - F32.prec)%Z eqn:Hov.
    + right. exists v. split; [ right | split; assumption ].
      exists p, e''. split; [ reflexivity | ]. split; [ symmetry; exact Hval | ].
      unfold bounded, canonical_mantissa. rewrite Hov, andb_true_r.
      apply Z.eqb_eq. exact Hcan.
    + left. split; [ reflexivity | ].
      apply Z.leb_gt in Hov. change (F32.emax - F32.prec)%Z with 104%Z in Hov.
      specialize (Hnorm ltac:(lia)). specialize (Hm1l ltac:(lia)).
      assert (Hv : pow2 128 <= v).
      { rewrite <- Hval.
        replace 128%Z with (23 + 105)%Z by reflexivity. rewrite pow2_add, pow2_23.
        assert (pow2 105 <= pow2 e'') by (apply pow2_le; lia).
        apply IZR_le in Hnorm. pose proof (pow2_pos 105). nra. }
      apply Rabs_le_inv in Herr.
      assert (H127 : pow2 128 = 2 * pow2 127) by (change 128%Z with (127 + 1)%Z; apply pow2_succ).
      apply IZR_le in Hm1l. unfold v in *. nra.
Qed.

(** ** Values *)

Lemma represents_facts res s v :
  represents res s v ->
  F32_number res = true /\ F32_sign res = s /\ F32_magnitude res = v /\ 0 <= v.
Proof.
  intros [[-> ->] | (m & e & -> & -> & Hb)].
  - cbn. repeat split; lra.
  - unfold F32_number, F32.valid. cbn. rewrite Hb. repeat split.
    pose proof (pow2_pos e). assert (0 < IZR (Z.pos m)) by (apply IZR_lt; lia). nra.
Qed.

Lemma rounds_to_finite res s x :
  rounds_to res s x -> x < pow2 127 ->
  F32_number res = true /\ F32_sign res = s /\
  Rabs (F32_magnitude res - x) <= pow2 (-24) * x + pow2 (-150) /\
  (pow2 (-126) <= x -> Rabs (F32_magnitude res - x) <= pow2 (-24) * x).
Proof.
  intros [[_ H] | (v & Hr & H1 & H2)] Hx; [ lra | ].
  destruct (represents_facts _ _ _ Hr) as (Hn & Hs & Hv & _). subst v. auto.
Qed.

Lemma rounds_to_number res s x :
  rounds_to res s x -> F32.is_finite res = true ->
  F32_number res = true /\ F32_sign res = s /\
  Rabs (F32_magnitude res - x) <= pow2 (-24) * x + pow2 (-150) /\
  (pow2 (-126) <= x -> Rabs (F32_magnitude res - x) <= pow2 (-24) * x).
Proof.
  intros [[-> _] | (v & Hr & H1 & H2)] Hf; [ discriminate | ].
  destruct (represents_facts _ _ _ Hr) as (Hn & Hs & Hv & _). subst v. auto.
Qed.

Lemma rounds_to_exact res s :
  represents res s (F32_magnitude res) -> rounds_to res s (F32_magnitude res).
Proof.
  intros H. right. exists (F32_magnitude res). split; [ exact H | ].
  destruct (represents_facts _ _ _ H) as (_ & _ & _ & H0).
  rewrite Rminus_diag, Rabs_R0. pose proof (pow2_pos (-24)). pose proof (pow2_pos (-150)).
  split; [ | intros _ ]; nra.
Qed.

Lemma number_represents x :
  F32_number x = true -> represents x (F32_sign x) (F32_magnitude x).
Proof.
  unfold F32_number, F32.valid. destruct x as [s | s | | s m e]; cbn; try discriminate; intros H.
  - left. auto.
  - right. exists m, e. auto.
Qed.

Lemma canonical_cases m e :
  bounded F32.prec F32.emax m e = true ->
  ((Z.pos (digits2_pos m) = 24 /\ -149 <= e) \/ (e = -149 /\ Z.pos (digits2_pos m) <= 24))%Z
  /\ (e <= 104)%Z.
Proof.
  unfold bounded, canonical_mantissa. intros H. apply andb_prop in H.
  destruct H as [Hc Hb]. apply Z.eqb_eq in Hc. apply Z.leb_le in Hb.
  rewrite fexp_eq in Hc. change (F32.emax - F32.prec)%Z with 104%Z in Hb. lia.
Qed.

(** *** Multiplication *)

Lemma mul_rounds a b :
  F32_number a = true -> F32_number b = true ->
  rounds_to (SFmul F32.prec F32.emax a b) (xorb (F32_sign a) (F32_sign b)) (F32_magnitude a * F32_magnitude b).
Proof.
  unfold F32_number, F32.valid. intros Ha Hb.
  apply andb_prop in Ha. destruct Ha as [Hfa Hva].
  apply andb_prop in Hb. destruct Hb as [Hfb Hvb].
  destruct a as [sa | sa | | sa ma ea], b as [sb | sb | | sb mb eb]; try discriminate;
    cbn [SFmul F32_sign F32_magnitude].
  1-3: (replace (_ * _) with (F32_magnitude (S754_zero (xorb sa sb))) by (cbn; lra);
        apply rounds_to_exact; left; split; reflexivity).
  cbn [valid_binary] in Hva, Hvb.
  destruct (canonical_cases _ _ Hva) as [Hca _].
  destruct (canonical_cases _ _ Hvb) as [Hcb _].
  pose proof (digits2_bounds ma) as [Hla Hua]. pose proof (digits2_bounds mb) as [Hlb Hub].
  apply binary_round_aux_spec.
  - lia.
  - cbn. rewrite Pos2Z.inj_mul, mult_IZR, pow2_add.
    pose proof (pow2_pos ea). pose proof (pow2_pos eb). field. lra.
  - assert (Hd : (Z.pos (digits2_pos ma) + Z.pos (digits2_pos mb) - 1
                  <= Zdigits2 (Z.pos (ma * mb)))%Z).
    { apply zdigits_ge; [ lia | ].
      replace (Z.pos (digits2_pos ma) + Z.pos (digits2_pos mb) - 1 - 1)%Z
        with ((Z.pos (digits2_pos ma) - 1) + (Z.pos (digits2_pos mb) - 1))%Z by lia.
      rewrite pow2_add, Pos2Z.inj_mul, mult_IZR.
      pose proof (pow2_pos (Z.pos (digits2_pos ma) - 1)).
      pose proof (pow2_pos (Z.pos (digits2_pos mb) - 1)). nra. }
    rewrite fexp_eq. lia.
Qed.

(** *** Addition of non-negative numbers *)

Lemma zdigits_unique m k :
  (0 < m)%Z -> pow2 (k - 1) <= IZR m < pow2 k -> Zdigits2 m = k.
Proof.
  intros Hm [Hl Hu].
  assert (k <= Zdigits2 m)%Z by (apply zdigits_ge; [ lia | exact Hl ]).
  destruct (zdigits_bounds m ltac:(lia)) as (_ & _ & Hl'). specialize (Hl' Hm).
  assert (pow2 (Zdigits2 m - 1) < pow2 k) by lra.
  apply pow2_le_inv in H0. lia.
Qed.

Lemma shl_align_spec m e e' :
  IZR (Z.pos (fst (shl_align m e e'))) * pow2 (snd (shl_align m e e'))
  = IZR (Z.pos m) * pow2 e /\
  snd (shl_align m e e') = Z.min e e' /\
  (Z.pos (digits2_pos (fst (shl_align m e e'))) + snd (shl_align m e e')
   = Z.pos (digits2_pos m) + e)%Z.
Proof.
  unfold shl_align. destruct (e' - e)%Z as [| d | d] eqn:Hd; cbn [fst snd].
  1-2: repeat split; lia.
  assert (He : e = (e' + Z.pos d)%Z) by lia.
  assert (Hv : Z.pos (Pos.iter xO m d) = (2 ^ Z.pos d * Z.pos m)%Z).
  { change (Pos.iter xO m d) with (shift_pos d m). rewrite shift_pos_correct.
    reflexivity. }
  assert (Hval : IZR (Z.pos (Pos.iter xO m d)) = IZR (Z.pos m) * pow2 (Z.pos d)).
  { rewrite Hv, mult_IZR, pow2_IZR by lia. lra. }
  repeat split.
  - rewrite Hval, He, (pow2_add e'). lra.
  - lia.
  - pose proof (digits2_bounds m) as [Hl Hu].
    assert (Hdg : Zdigits2 (Z.pos (Pos.iter xO m d)) = (Z.pos (digits2_pos m) + Z.pos d)%Z).
    { apply zdigits_unique; [ lia | ]. rewrite Hval.
      replace (Z.pos (digits2_pos m) + Z.pos d - 1)%Z
        with (Z.pos (digits2_pos m) - 1 + Z.pos d)%Z by lia.
      rewrite !pow2_add. pose proof (pow2_pos (Z.pos d)). nra. }
    cbn [Zdigits2] in Hdg. lia.
Qed.

Lemma binary_round_rounds s m e :
  rounds_to (binary_round F32.prec F32.emax s m e) s (IZR (Z.pos m) * pow2 e).
Proof.
  unfold binary_round.
  pose proof (shl_align_spec m e (fexp F32.prec F32.emax (Z.pos (digits2_pos m) + e)))
    as (Hv & He & Hd).
  destruct (shl_align m e (fexp F32.prec F32.emax (Z.pos (digits2_pos m) + e))) as [mz ez].
  cbn [fst snd] in Hv, He, Hd.
  apply binary_round_aux_spec.
  - lia.
  - cbn. rewrite <- Hv. pose proof (pow2_pos ez). field. lra.
  - cbn [Zdigits2]. rewrite Hd. lia.
Qed.

Lemma add_rounds a b :
  F32_number a = true -> F32_number b = true -> F32_sign a = false -> F32_sign b = false ->
  rounds_to (SFadd F32.prec F32.emax a b) false (F32_magnitude a + F32_magnitude b).
Proof.
  intros Ha Hb Hsa Hsb.
  pose proof (number_represents _ Ha) as Hra.
  pose proof (number_represents _ Hb) as Hrb.
  rewrite Hsa in Hra. rewrite Hsb in Hrb.
  destruct a as [sa | sa | | sa ma ea], b as [sb | sb | | sb mb eb]; try discriminate;
    cbn [F32_sign] in Hsa, Hsb; subst; cbn [SFadd].
  - replace (_ + _) with (F32_magnitude (S754_zero false)) by (cbn; lra).
    apply rounds_to_exact. exact Hra.
  - replace (_ + _) with (F32_magnitude (S754_finite false mb eb)) by (cbn; lra).
    apply rounds_to_exact. exact Hrb.
  - replace (_ + _) with (F32_magnitude (S754_finite false ma ea)) by (cbn; lra).
    apply rounds_to_exact. exact Hra.
  - cbn [cond_Zopp F32_magnitude].
    pose proof (shl_align_spec ma ea (Z.min ea eb)) as (Hva & Hea & _).
    pose proof (shl_align_spec mb eb (Z.min ea eb)) as (Hvb & Heb & _).
    destruct (shl_align ma ea (Z.min ea eb)) as [ma' ea'].
    destruct (shl_align mb eb (Z.min ea eb)) as [mb' eb'].
    cbn [fst snd] in *.
    replace ea' with (Z.min ea eb) in Hva by lia.
    replace eb' with (Z.min ea eb) in Hvb by lia.
    rewrite <- Hva, <- Hvb.
    change (Z.pos ma' + Z.pos mb')%Z with (Z.pos (ma' + mb')). cbn [binary_normalize].
    replace (_ + _) with (IZR (Z.pos (ma' + mb')) * pow2 (Z.min ea eb))
      by (rewrite Pos2Z.inj_add, plus_IZR; lra).
    apply binary_round_rounds.
Qed.

(** *** Square root *)

Lemma div2_bounds n : (2 * Z.div2 n <= n <= 2 * Z.div2 n + 1)%Z.
Proof. pose proof (Zdiv2_odd_eqn n) as H. destruct (Z.odd n); lia. Qed.

Lemma sqrt_core_spec m e :
  bounded F32.prec F32.emax m e = true ->
  let '(q, e', l) := SFsqrt_core_binary F32.prec F32.emax (Z.pos m) e in
  (0 <= q)%Z /\
  located (shr_record_of_loc q l) (sqrt (IZR (Z.pos m) * pow2 e) / pow2 e') /\
  (e' <= fexp F32.prec F32.emax (Zdigits2 q + e'))%Z.
Proof.
  intros Hb. destruct (canonical_cases _ _ Hb) as [Hc _].
  unfold SFsqrt_core_binary. cbn [Zdigits2].
  set (d := Z.pos (digits2_pos m)) in *.
  set (D := Z.div2 (d + e + 1)).
  set (e' := Z.min (fexp F32.prec F32.emax D) (Z.div2 e)).
  set (s := (e - 2 * e')%Z).
  assert (HD : (2 * D - 1 <= d + e <= 2 * D)%Z) by (pose proof (div2_bounds (d + e + 1)); fold D in H; lia).
  assert (He2 : (2 * e' <= e)%Z) by (pose proof (div2_bounds e); unfold e'; lia).
  assert (Hd1 : (0 < d)%Z) by (unfold d; lia).
  assert (HeD : (e' <= D - 24)%Z) by (unfold e'; rewrite fexp_eq; lia).
  assert (Hs : (0 <= s)%Z) by (unfold s; lia).
  set (m' := match s with Z.pos _ => Z.shiftl (Z.pos m) s | 0%Z => Z.pos m | Z.neg _ => 0%Z end).
  assert (Hm' : m' = (Z.pos m * 2 ^ s)%Z).
  { unfold m'. destruct s as [| p | p] eqn:Hsp; [ lia | | lia ].
    rewrite Z.shiftl_mul_pow2 by lia. reflexivity. }
  assert (Hm'0 : (0 < m')%Z) by (rewrite Hm'; apply Z.mul_pos_pos; [ lia | apply Z.pow_pos_nonneg; lia ]).
  pose proof (Z.sqrtrem_spec m' ltac:(lia)) as Hsq.
  destruct (Z.sqrtrem m') as [q r]. destruct Hsq as [Hqr Hr].
  set (V := IZR (Z.pos m) * pow2 e).
  set (x := sqrt V). set (y := x / pow2 e').
  pose proof (pow2_pos e) as Hpe. pose proof (pow2_pos e') as Hpe'.
  assert (HV0 : 0 < V) by (unfold V; assert (0 < IZR (Z.pos m)) by (apply IZR_lt; lia); nra).
  assert (Hx0 : 0 <= x) by apply sqrt_pos.
  assert (Hxx : x * x = V) by (apply sqrt_sqrt; lra).
  assert (HVm : V = IZR m' * (pow2 e' * pow2 e')).
  { unfold V. rewrite Hm', mult_IZR, <- pow2_IZR by lia. rewrite <- !pow2_add.
    rewrite Rmult_assoc, <- pow2_add. f_equal. f_equal. unfold s. lia. }
  assert (Hy0 : 0 <= y) by (unfold y; apply Rmult_le_pos; [ lra | apply Rlt_le, Rinv_0_lt_compat; lra ]).
  assert (Hyy : y * y = IZR m').
  { unfold y. replace (x / pow2 e' * (x / pow2 e')) with (x * x / (pow2 e' * pow2 e'))
      by (field; lra). rewrite Hxx, HVm. field. lra. }
  assert (Hq0 : (0 <= q)%Z) by lia.
  rewrite Hqr, plus_IZR, mult_IZR in Hyy.
  pose proof (IZR_le _ _ Hq0) as Hq0R. cbn [IZR] in Hq0R.
  assert (HrR : 0 <= IZR r <= 2 * IZR q).
  { destruct Hr as [Hr1 Hr2]. apply IZR_le in Hr1, Hr2. rewrite mult_IZR in Hr2. lra. }
  split; [ exact Hq0 | ]. split.
  - destruct (r =? 0)%Z eqn:Hr0.
    + apply Z.eqb_eq in Hr0. subst r. unfold located. cbn. nra.
    + apply Z.eqb_neq in Hr0. assert (Hr1 : (1 <= r)%Z) by lia.
      apply IZR_le in Hr1.
      destruct (r <=? q)%Z eqn:Hrq.
      * apply Z.leb_le in Hrq. apply IZR_le in Hrq. unfold located. cbn. split; nra.
      * apply Z.leb_gt in Hrq. assert (Hrq1 : (q + 1 <= r)%Z) by lia.
        apply IZR_le in Hrq1. rewrite plus_IZR in Hrq1.
        unfold located. cbn. split; nra.
  - assert (Hdq : (D - e' <= Zdigits2 q)%Z).
    { apply zdigits_ge; [ exact Hq0 | ].
      (* q + 1 > y >= 2^(D - e' - 1), an integer *)
      pose proof (digits2_bounds m) as [Hl _]. fold d in Hl.
      assert (HVl : pow2 (2 * (D - 1)) <= V).
      { unfold V. apply Rle_trans with (pow2 (d - 1 + e)); [ apply pow2_le; lia | ].
        rewrite pow2_add. nra. }
      assert (Hyl : pow2 (D - e' - 1) <= y).
      { assert (Hsq : pow2 (D - e' - 1) * pow2 (D - e' - 1) <= y * y).
        { rewrite <- pow2_add. unfold y.
          replace (x / pow2 e' * (x / pow2 e')) with (x * x / (pow2 e' * pow2 e')) by (field; lra).
          rewrite Hxx. apply Rmult_le_reg_r with (pow2 e' * pow2 e'); [ nra | ].
          replace (V / (pow2 e' * pow2 e') * (pow2 e' * pow2 e')) with V by (field; lra).
          rewrite <- !pow2_add.
          replace (D - e' - 1 + (D - e' - 1) + (e' + e'))%Z with (2 * (D - 1))%Z by lia.
          exact HVl. }
        pose proof (pow2_pos (D - e' - 1)). nra. }
      rewrite pow2_IZR in Hyl |- * by lia.
      assert (Hlt : IZR (2 ^ (D - e' - 1)) < IZR (q + 1)).
      { rewrite plus_IZR. assert (y < IZR q + 1) by nra. lra. }
      apply lt_IZR in Hlt. apply IZR_le. lia. }
    rewrite fexp_eq in *. lia.
Qed.

Lemma sqrt_rounds a :
  F32_number a = true -> F32_sign a = false ->
  rounds_to (SFsqrt F32.prec F32.emax a) false (sqrt (F32_magnitude a)).
Proof.
  intros Ha Hs. pose proof (number_represents _ Ha) as Hr. rewrite Hs in Hr.
  unfold F32_number, F32.valid in Ha. apply andb_prop in Ha. destruct Ha as [Hf Hv].
  destruct a as [sa | sa | | sa m e]; try discriminate; cbn [F32_sign] in Hs; subst sa.
  - cbn [SFsqrt F32_magnitude]. rewrite sqrt_0.
    change 0 with (F32_magnitude (S754_zero false)). apply rounds_to_exact. exact Hr.
  - cbn [SFsqrt F32_magnitude]. cbn [valid_binary] in Hv.
    pose proof (sqrt_core_spec m e Hv) as H.
    destruct (SFsqrt_core_binary F32.prec F32.emax (Z.pos m) e) as [[q e'] l].
    destruct H as (Hq & Hin & Hpre).
    apply binary_round_aux_spec; assumption.
Qed.

(** *** Division *)

Lemma new_location_spec m2 r :
  (0 < m2)%Z -> (0 <= r < m2)%Z ->
  match new_location m2 r with
  | loc_Exact => r = 0%Z
  | loc_Inexact Lt => (0 < 2 * r < m2)%Z
  | loc_Inexact Eq => (2 * r = m2)%Z
  | loc_Inexact Gt => (m2 < 2 * r)%Z
  end.
Proof.
  intros Hm Hr. unfold new_location.
  destruct (Z.even m2) eqn:Hev.
  - unfold new_location_even.
    destruct (r =? 0)%Z eqn:Hr0; [ apply Z.eqb_eq in Hr0; exact Hr0 | ].
    apply Z.eqb_neq in Hr0.
    destruct (2 * r ?= m2)%Z eqn:Hc; cbv beta iota.
    + apply Z.compare_eq in Hc. exact Hc.
    + change (2 * r < m2)%Z in Hc. lia.
    + change (2 * r > m2)%Z in Hc. lia.
  - unfold new_location_odd.
    assert (Hodd : Z.odd m2 = true) by (rewrite <- Z.negb_even, Hev; reflexivity).
    apply Z.odd_spec in Hodd. destruct Hodd as [k Hk].
    destruct (r =? 0)%Z eqn:Hr0; [ apply Z.eqb_eq in Hr0; exact Hr0 | ].
    apply Z.eqb_neq in Hr0.
    destruct (2 * r + 1 ?= m2)%Z eqn:Hc; cbv beta iota.
    + apply Z.compare_eq in Hc. lia.
    + change (2 * r + 1 < m2)%Z in Hc. lia.
    + change (2 * r + 1 > m2)%Z in Hc. lia.
Qed.

Lemma div_core_spec m1 e1 m2 e2 :
  let '(q, e', l) := SFdiv_core_binary F32.prec F32.emax (Z.pos m1) e1 (Z.pos m2) e2 in
  (0 <= q)%Z /\
  located (shr_record_of_loc q l)
         (IZR (Z.pos m1) * pow2 e1 / (IZR (Z.pos m2) * pow2 e2) / pow2 e') /\
  (e' <= fexp F32.prec F32.emax (Zdigits2 q + e'))%Z.
Proof.
  unfold SFdiv_core_binary. cbn [Zdigits2].
  set (d1 := Z.pos (digits2_pos m1)). set (d2 := Z.pos (digits2_pos m2)).
  set (D := (d1 + e1 - (d2 + e2))%Z).
  set (e' := Z.min (fexp F32.prec F32.emax D) (e1 - e2)).
  set (s := (e1 - e2 - e')%Z).
  assert (Hs : (0 <= s)%Z) by (unfold s, e'; lia).
  set (m' := match s with Z.pos _ => Z.shiftl (Z.pos m1) s | 0%Z => Z.pos m1 | Z.neg _ => 0%Z end).
  assert (Hm' : m' = (Z.pos m1 * 2 ^ s)%Z).
  { unfold m'. destruct s as [| p | p] eqn:Hsp; [ lia | | lia ].
    rewrite Z.shiftl_mul_pow2 by lia. reflexivity. }
  assert (Hm'0 : (0 < m')%Z) by (rewrite Hm'; apply Z.mul_pos_pos; [ lia | apply Z.pow_pos_nonneg; lia ]).
  pose proof (Z_div_mod m' (Z.pos m2) ltac:(lia)) as Hdm.
  destruct (Z.div_eucl m' (Z.pos m2)) as [q r]. destruct Hdm as [Hqr Hr].
  assert (Hq0 : (0 <= q)%Z) by nia.
  pose proof (pow2_pos e1) as Hp1. pose proof (pow2_pos e2) as Hp2.
  pose proof (pow2_pos e') as Hpe'.
  assert (Hm2R : 0 < IZR (Z.pos m2)) by (apply IZR_lt; lia).
  assert (Hm1R : 0 < IZR (Z.pos m1)) by (apply IZR_lt; lia).
  set (y := IZR (Z.pos m1) * pow2 e1 / (IZR (Z.pos m2) * pow2 e2) / pow2 e').
  assert (Hy : y * IZR (Z.pos m2) = IZR q * IZR (Z.pos m2) + IZR r).
  { rewrite <- mult_IZR, <- plus_IZR. rewrite (Z.mul_comm q), <- Hqr, Hm', mult_IZR.
    rewrite <- pow2_IZR by lia. unfold y, s.
    replace (e1 - e2 - e')%Z with (e1 + (- e2) + (- e'))%Z by lia.
    rewrite !pow2_add, !pow2_opp. field. lra. }
  pose proof (IZR_le _ _ Hq0) as Hq0R. cbn [IZR] in Hq0R.
  assert (HrR : 0 <= IZR r < IZR (Z.pos m2)).
  { destruct Hr as [Hr1 Hr2]. apply IZR_le in Hr1. apply IZR_lt in Hr2. lra. }
  split; [ exact Hq0 | ]. split.
  - pose proof (new_location_spec (Z.pos m2) r ltac:(lia) Hr) as Hloc.
    destruct (new_location (Z.pos m2) r) as [| []]; cbv beta iota in Hloc; unfold located; cbn.
    + subst r. nra.
    + apply (f_equal IZR) in Hloc. rewrite mult_IZR in Hloc. nra.
    + destruct Hloc as [Hl1 Hl2]. apply IZR_lt in Hl1, Hl2.
      rewrite mult_IZR in Hl1, Hl2. split; nra.
    + apply IZR_lt in Hloc. rewrite mult_IZR in Hloc. split; nra.
  - destruct (Z_le_gt_dec e' (-149)) as [Hle | Hgt]; [ rewrite fexp_eq; lia | ].
    assert (HeD : (e' <= D - 24)%Z) by (unfold e' in *; rewrite fexp_eq in *; lia).
    assert (Hdq : (D - e' <= Zdigits2 q)%Z).
    { apply zdigits_ge; [ exact Hq0 | ].
      pose proof (digits2_bounds m1) as [Hl1 _]. pose proof (digits2_bounds m2) as [_ Hu2].
      fold d1 in Hl1. fold d2 in Hu2.
      assert (Hyl : pow2 (D - e' - 1) * IZR (Z.pos m2) < y * IZR (Z.pos m2)).
      { unfold y.
        replace (IZR (Z.pos m1) * pow2 e1 / (IZR (Z.pos m2) * pow2 e2) / pow2 e' * IZR (Z.pos m2))
          with (IZR (Z.pos m1) * (pow2 e1 * / pow2 e2 * / pow2 e')) by (field; lra).
        rewrite <- !pow2_opp, <- !pow2_add.
        replace (D - e' - 1)%Z with ((d1 - 1) + (e1 + - e2 + - e') + (- d2))%Z by (unfold D; lia).
        rewrite (pow2_add (d1 - 1 + _)), (pow2_add (d1 - 1)), (pow2_opp d2).
        pose proof (pow2_pos (e1 + - e2 + - e')). pose proof (pow2_pos d2).
        pose proof (pow2_pos (d1 - 1)).
        apply Rlt_le_trans with (pow2 (d1 - 1) * pow2 (e1 + - e2 + - e') * / pow2 d2 * pow2 d2).
        - apply Rmult_lt_compat_l; [ | lra ].
          apply Rmult_lt_0_compat; [ nra | apply Rinv_0_lt_compat; lra ].
        - replace (pow2 (d1 - 1) * pow2 (e1 + - e2 + - e') * / pow2 d2 * pow2 d2)
            with (pow2 (d1 - 1) * pow2 (e1 + - e2 + - e')) by (field; lra).
          nra. }
      rewrite pow2_IZR in Hyl |- * by lia.
      assert (Hlt : IZR (2 ^ (D - e' - 1)) < IZR (q + 1)).
      { rewrite plus_IZR. nra. }
      apply lt_IZR in Hlt. apply IZR_le. lia. }
    rewrite fexp_eq. lia.
Qed.

Lemma div_rounds a b :
  F32_number a = true -> F32_number b = true -> 0 < F32_magnitude b ->
  rounds_to (SFdiv F32.prec F32.emax a b) (xorb (F32_sign a) (F32_sign b)) (F32_magnitude a / F32_magnitude b).
Proof.
  unfold F32_number, F32.valid. intros Ha Hb Hpos.
  apply andb_prop in Ha. destruct Ha as [Hfa _].
  apply andb_prop in Hb. destruct Hb as [Hfb _].
  destruct a as [sa | sa | | sa ma ea], b as [sb | sb | | sb mb eb]; try discriminate;
    cbn [F32_magnitude] in Hpos; try lra; cbn [SFdiv F32_sign F32_magnitude].
  - replace (0 / _) with (F32_magnitude (S754_zero (xorb sa sb))) by (cbn; unfold Rdiv; lra).
    apply rounds_to_exact. left. split; reflexivity.
  - pose proof (div_core_spec ma ea mb eb) as H.
    destruct (SFdiv_core_binary F32.prec F32.emax (Z.pos ma) ea (Z.pos mb) eb) as [[q e'] l].
    destruct H as (Hq & Hin & Hpre).
    apply binary_round_aux_spec; assumption.
Qed.

(** ** Error analysis of a three-term dot product and of normalize *)

Lemma dot3_bounds eta p1 p2 p3 X Y Z A d :
  0 <= eta ->
  0 <= p1 -> 0 <= p2 -> 0 <= p3 ->
  0 <= X -> 0 <= Y -> 0 <= Z -> 0 <= A ->
  near eta X p1 -> near eta Y p2 -> near eta Z p3 ->
  near eta A (X + Y) -> near eta d (A + Z) ->
  (p1 + p2 + p3) * (1 - 3 * u32) - 6 * eta <= d
    <= (p1 + p2 + p3) * (1 + 3001 / 1000 * u32) + 6 * eta.
Proof.
  unfold near, u32. intros He H1 H2 H3 HX0 HY0 HZ0 HA0 HX HY HZ HA Hd.
  apply Rabs_le_inv in HX, HY, HZ, HA, Hd.
  split; lra.
Qed.

Lemma sq_mono a b : 0 <= a <= b -> a * a <= b * b.
Proof. intros [H1 H2]. apply Rmult_le_compat; lra. Qed.

Lemma sq_le_inv a b : 0 <= a -> 0 <= b -> a * a <= b * b -> a <= b.
Proof. intros Ha Hb H. destruct (Rle_lt_dec a b) as [Hle | Hlt]; [ exact Hle | nra ]. Qed.

(** The computed squared length against the exact one. *)
Lemma dot3_relative eta T S d :
  0 <= eta <= u32 * T -> T <= d -> 0 <= S ->
  S * (1 - 3 * u32) - 6 * eta <= d <= S * (1 + 3001 / 1000 * u32) + 6 * eta ->
  d * (1 - 901 / 100 * u32) <= S <= d * (1 + 901 / 100 * u32).
Proof. unfold u32. intros He HT HS Hd. split; lra. Qed.

(** A rounded square root, squared. *)
Lemma sqrt_rounded_sq d r L :
  0 <= r -> r * r = d -> 0 <= L -> Rabs (L - r) <= u32 * r ->
  d * (1 - 2 * u32) <= L * L <= d * (1 + 2001 / 1000 * u32).
Proof.
  unfold u32. intros Hr Hrr HL H. apply Rabs_le_inv in H.
  assert (Hlo : (r * (1 - / 16777216)) * (r * (1 - / 16777216)) <= L * L)
    by (apply sq_mono; split; [ apply Rmult_le_pos | ]; lra).
  assert (Hhi : L * L <= (r * (1 + / 16777216)) * (r * (1 + / 16777216)))
    by (apply sq_mono; lra).
  assert (Hd0 : 0 <= d) by nra.
  split; nra.
Qed.

Lemma ratio_bounds S d Q :
  0 <= d ->
  d * (1 - 901 / 100 * u32) <= S <= d * (1 + 901 / 100 * u32) ->
  d * (1 - 2 * u32) <= Q <= d * (1 + 2001 / 1000 * u32) ->
  Q * (1 - 1102 / 100 * u32) <= S <= Q * (1 + 1102 / 100 * u32).
Proof. unfold u32. intros Hd HS HQ. split; lra. Qed.

(** The square of a rounded quotient. *)
Lemma quotient_rounded_sq eta t N :
  0 <= eta <= u32 * u32 -> 0 <= t <= 101 / 100 -> 0 <= N ->
  Rabs (N - t) <= u32 * t + eta ->
  t * t * (1 - 2 * u32) - 3 * eta <= N * N <= t * t * (1 + 2001 / 1000 * u32) + 3 * eta.
Proof.
  unfold u32. intros He Ht HN H. apply Rabs_le_inv in H.
  assert (Hhi : N * N <= (t * (1 + / 16777216) + eta) * (t * (1 + / 16777216) + eta))
    by (apply sq_mono; lra).
  split.
  - destruct (Rle_lt_dec eta (t * (1 - / 16777216))) as [Hc | Hc].
    + assert (Hlo : (t * (1 - / 16777216) - eta) * (t * (1 - / 16777216) - eta) <= N * N)
        by (apply sq_mono; lra).
      nra.
    + assert (0 <= N * N) by nra. nra.
  - nra.
Qed.

Lemma component_le_one Q S p t :
  0 < Q -> S <= Q * (1 + 1102 / 100 * u32) -> 0 <= p <= S ->
  0 <= t -> t * t * Q = p -> t <= 101 / 100.
Proof.
  unfold u32. intros HQ HS Hp Ht Htt.
  apply sq_le_inv; [ exact Ht | lra | ].
  assert (t * t * Q <= (101 / 100 * (101 / 100)) * Q) by lra.
  apply Rmult_le_reg_r with Q; [ exact HQ | exact H ].
Qed.

Lemma sum_sq_bounds Q S T2 :
  0 < Q -> T2 * Q = S ->
  Q * (1 - 1102 / 100 * u32) <= S <= Q * (1 + 1102 / 100 * u32) ->
  1 - 1102 / 100 * u32 <= T2 <= 1 + 1102 / 100 * u32.
Proof.
  intros HQ HT [Hl Hh]. rewrite <- HT in Hl, Hh. split.
  - apply Rmult_le_reg_r with Q; [ exact HQ | lra ].
  - apply Rmult_le_reg_r with Q; [ exact HQ | lra ].
Qed.

Lemma second_dot_bounds eta T2 N2 d' :
  0 <= eta <= u32 * u32 ->
  1 - 1102 / 100 * u32 <= T2 <= 1 + 1102 / 100 * u32 ->
  T2 * (1 - 2 * u32) - 9 * eta <= N2 <= T2 * (1 + 2001 / 1000 * u32) + 9 * eta ->
  N2 * (1 - 3 * u32) - 6 * eta <= d' <= N2 * (1 + 3001 / 1000 * u32) + 6 * eta ->
  1 - 162 / 10 * u32 <= d' <= 1 + 162 / 10 * u32.
Proof. unfold u32. intros He HT HN Hd. split; nra. Qed.

Lemma final_bound d' r' L' :
  1 - 162 / 10 * u32 <= d' <= 1 + 162 / 10 * u32 ->
  0 <= r' -> r' * r' = d' -> Rabs (L' - r') <= u32 * r' ->
  Rabs (L' - 1) <= 10 * u32.
Proof.
  unfold u32. intros Hd' Hr Hrr HL. apply Rabs_le_inv in HL.
  assert (Hrh : r' <= 1 + 81 / 10 * / 16777216).
  { apply sq_le_inv; [ exact Hr | lra | ]. rewrite Hrr. lra. }
  assert (Hrl : 1 - 82 / 10 * / 16777216 <= r').
  { apply sq_le_inv; [ lra | exact Hr | ]. rewrite Hrr. lra. }
  apply Rabs_le. lra.
Qed.

(** ** The float-level chain *)

Local Abbreviation dot3 a b c :=
  (Vec3.dot (Vec3.Vec3 a b c) (Vec3.Vec3 a b c)) (only parsing).
Local Abbreviation length3 a b c := (Vec3.length (Vec3.Vec3 a b c)) (only parsing).

Lemma eta32_bounds : 0 < eta32 /\ eta32 = u32 * pow2 (-126) /\ eta32 <= u32 * u32.
Proof.
  unfold eta32, u32. rewrite <- pow2_m24.
  split; [ apply pow2_pos | ]. split.
  - rewrite <- pow2_add. reflexivity.
  - rewrite <- pow2_add. apply pow2_le. lia.
Qed.

Lemma magnitude_nonneg x : 0 <= F32_magnitude x.
Proof.
  destruct x as [| | | s m e]; cbn; try lra.
  pose proof (pow2_pos e). assert (0 < IZR (Z.pos m)) by (apply IZR_lt; lia). nra.
Qed.

Lemma number_lt_max x : F32_number x = true -> F32_magnitude x < pow2 128.
Proof.
  unfold F32_number, F32.valid. intros H. apply andb_prop in H. destruct H as [_ Hv].
  destruct x as [| | | s m e]; cbn [F32_magnitude]; try apply pow2_pos.
  cbn [valid_binary] in Hv. destruct (canonical_cases _ _ Hv) as [Hc He].
  pose proof (digits2_bounds m) as [_ Hu].
  assert (pow2 (Z.pos (digits2_pos m)) <= pow2 24) by (apply pow2_le; lia).
  assert (pow2 e <= pow2 104) by (apply pow2_le; lia).
  replace 128%Z with (24 + 104)%Z by reflexivity. rewrite pow2_add.
  pose proof (pow2_pos e). pose proof (pow2_pos 24).
  assert (0 < IZR (Z.pos m)) by (apply IZR_lt; lia). nra.
Qed.

Lemma add_finite_inv a b :
  F32.is_finite (SFadd F32.prec F32.emax a b) = true -> F32.is_finite a = true /\ F32.is_finite b = true.
Proof.
  destruct a as [sa | [] | | sa ma ea], b as [sb | [] | | sb mb eb];
    intros H; try (split; reflexivity); cbn in H; discriminate H.
Qed.

Lemma near_of_rounds res s x :
  rounds_to res s x -> F32.is_finite res = true ->
  F32_number res = true /\ F32_sign res = s /\ near eta32 (F32_magnitude res) x.
Proof.
  intros Hr Hf. destruct (rounds_to_number _ _ _ Hr Hf) as (Hn & Hs & H1 & _).
  unfold near, u32, eta32. rewrite <- pow2_m24. auto.
Qed.

Lemma dot3_finite_bounds a b c :
  F32_number a = true -> F32_number b = true -> F32_number c = true ->
  F32.is_finite (dot3 a b c) = true ->
  F32_number (dot3 a b c) = true /\ F32_sign (dot3 a b c) = false /\
  let S := F32_magnitude a * F32_magnitude a + F32_magnitude b * F32_magnitude b + F32_magnitude c * F32_magnitude c in
  S * (1 - 3 * u32) - 6 * eta32 <= F32_magnitude (dot3 a b c)
    <= S * (1 + 3001 / 1000 * u32) + 6 * eta32.
Proof.
  intros Ha Hb Hc Hf. unfold Vec3.dot, F32.add, F32.mul in *.
  cbn [Vec3.x Vec3.y Vec3.z] in *.
  destruct (add_finite_inv _ _ Hf) as [HfA HfZ].
  destruct (add_finite_inv _ _ HfA) as [HfX HfY].
  destruct (near_of_rounds _ _ _ (mul_rounds a a Ha Ha) HfX) as (HnX & HsX & HX).
  destruct (near_of_rounds _ _ _ (mul_rounds b b Hb Hb) HfY) as (HnY & HsY & HY).
  destruct (near_of_rounds _ _ _ (mul_rounds c c Hc Hc) HfZ) as (HnZ & HsZ & HZ).
  rewrite xorb_nilpotent in HsX, HsY, HsZ.
  destruct (near_of_rounds _ _ _ (add_rounds _ _ HnX HnY HsX HsY) HfA) as (HnA & HsA & HA).
  destruct (near_of_rounds _ _ _ (add_rounds _ _ HnA HnZ HsA HsZ) Hf) as (Hnd & Hsd & Hd).
  split; [ exact Hnd | ]. split; [ exact Hsd | ].
  cbv zeta.
  pose proof (magnitude_nonneg a). pose proof (magnitude_nonneg b). pose proof (magnitude_nonneg c).
  destruct eta32_bounds as (He & _ & _).
  eapply dot3_bounds; [ lra | nra | nra | nra | .. | exact HX | exact HY | exact HZ | exact HA | exact Hd ];
    apply magnitude_nonneg.
Qed.

Lemma pow2_127_big : 4 <= pow2 127.
Proof.
  apply Rle_trans with (pow2 2); [ unfold pow2; simpl; lra | apply pow2_le; lia ].
Qed.

Lemma near_upper eta v x : near eta v x -> v <= x * (1 + u32) + eta.
Proof. unfold near. intros H. apply Rabs_le_inv in H. lra. Qed.

Lemma dot3_small_finite a b c :
  F32_number a = true -> F32_number b = true -> F32_number c = true ->
  F32_magnitude a <= 102 / 100 -> F32_magnitude b <= 102 / 100 -> F32_magnitude c <= 102 / 100 ->
  F32.is_finite (dot3 a b c) = true.
Proof.
  intros Ha Hb Hc Hxa Hxb Hxc. unfold Vec3.dot, F32.add, F32.mul.
  cbn [Vec3.x Vec3.y Vec3.z].
  pose proof (magnitude_nonneg a). pose proof (magnitude_nonneg b). pose proof (magnitude_nonneg c).
  pose proof pow2_127_big as Hbig.
  destruct eta32_bounds as (He0 & _ & He1). unfold u32 in He1.
  assert (HfX : F32.is_finite (SFmul F32.prec F32.emax a a) = true).
  { destruct (rounds_to_finite _ _ _ (mul_rounds a a Ha Ha) ltac:(nra)) as (Hn & _).
    unfold F32_number, F32.valid in Hn. apply andb_prop in Hn. tauto. }
  assert (HfY : F32.is_finite (SFmul F32.prec F32.emax b b) = true).
  { destruct (rounds_to_finite _ _ _ (mul_rounds b b Hb Hb) ltac:(nra)) as (Hn & _).
    unfold F32_number, F32.valid in Hn. apply andb_prop in Hn. tauto. }
  assert (HfZ : F32.is_finite (SFmul F32.prec F32.emax c c) = true).
  { destruct (rounds_to_finite _ _ _ (mul_rounds c c Hc Hc) ltac:(nra)) as (Hn & _).
    unfold F32_number, F32.valid in Hn. apply andb_prop in Hn. tauto. }
  destruct (near_of_rounds _ _ _ (mul_rounds a a Ha Ha) HfX) as (HnX & HsX & HX).
  destruct (near_of_rounds _ _ _ (mul_rounds b b Hb Hb) HfY) as (HnY & HsY & HY).
  destruct (near_of_rounds _ _ _ (mul_rounds c c Hc Hc) HfZ) as (HnZ & HsZ & HZ).
  rewrite xorb_nilpotent in HsX, HsY, HsZ.
  apply near_upper in HX, HY, HZ. unfold u32 in HX, HY, HZ.
  pose proof (magnitude_nonneg (SFmul F32.prec F32.emax a a)).
  pose proof (magnitude_nonneg (SFmul F32.prec F32.emax b b)).
  pose proof (magnitude_nonneg (SFmul F32.prec F32.emax c c)).
  assert (HfA : F32.is_finite (SFadd F32.prec F32.emax (SFmul F32.prec F32.emax a a) (SFmul F32.prec F32.emax b b)) = true).
  { destruct (rounds_to_finite _ _ _ (add_rounds _ _ HnX HnY HsX HsY) ltac:(nra)) as (Hn & _).
    unfold F32_number, F32.valid in Hn. apply andb_prop in Hn. tauto. }
  destruct (near_of_rounds _ _ _ (add_rounds _ _ HnX HnY HsX HsY) HfA) as (HnA & HsA & HA).
  apply near_upper in HA. unfold u32 in HA.
  destruct (rounds_to_finite _ _ _ (add_rounds _ _ HnA HnZ HsA HsZ) ltac:(nra)) as (Hn & _).
  unfold F32_number, F32.valid in Hn. apply andb_prop in Hn. tauto.
Qed.

Lemma normal_ge_min x :
  F32_number x = true -> F32_normal x = true -> pow2 (-126) <= F32_magnitude x.
Proof.
  unfold F32_number, F32.valid. intros H Hn. apply andb_prop in H. destruct H as [_ Hv].
  destruct x as [| | | s m e]; try discriminate. cbn [F32_normal] in Hn.
  apply Z.eqb_eq in Hn. cbn [valid_binary] in Hv.
  destruct (canonical_cases _ _ Hv) as [Hc _].
  pose proof (digits2_bounds m) as [Hl _]. rewrite Hn in Hl.
  change (F32.prec - 1)%Z with 23%Z in Hl. cbn [F32_magnitude].
  assert (pow2 (-149) <= pow2 e) by (apply pow2_le; lia).
  replace (-126)%Z with (23 + -149)%Z by reflexivity. rewrite pow2_add.
  pose proof (pow2_pos (-149)). pose proof (pow2_pos 23). nra.
Qed.

Lemma normal_finite x : F32_normal x = true -> F32.is_finite x = true.
Proof. destruct x; try discriminate; reflexivity. Qed.

Lemma quotient_component a L S :
  F32_number a = true -> F32_number L = true -> 0 < F32_magnitude L ->
  S <= F32_magnitude L * F32_magnitude L * (1 + 1102 / 100 * u32) ->
  F32_magnitude a * F32_magnitude a <= S ->
  let n := SFdiv F32.prec F32.emax a L in
  let t := F32_magnitude a / F32_magnitude L in
  F32_number n = true /\ F32_magnitude n <= 102 / 100 /\
  t * t * (F32_magnitude L * F32_magnitude L) = F32_magnitude a * F32_magnitude a /\
  t * t * (1 - 2 * u32) - 3 * eta32 <= F32_magnitude n * F32_magnitude n
    <= t * t * (1 + 2001 / 1000 * u32) + 3 * eta32.
Proof.
  intros Ha HL HLpos HS HaS n t.
  pose proof (magnitude_nonneg a) as Hxa.
  destruct eta32_bounds as (He0 & _ & He1).
  pose proof pow2_127_big as Hbig.
  assert (Ht0 : 0 <= t).
  { unfold t. apply Rmult_le_pos; [ exact Hxa | apply Rlt_le, Rinv_0_lt_compat, HLpos ]. }
  assert (Htt : t * t * (F32_magnitude L * F32_magnitude L) = F32_magnitude a * F32_magnitude a) by (unfold t; field; lra).
  assert (Ht1 : t <= 101 / 100).
  { apply (component_le_one (F32_magnitude L * F32_magnitude L) S (F32_magnitude a * F32_magnitude a) t); try assumption; nra. }
  destruct (rounds_to_finite _ _ _ (div_rounds a L Ha HL HLpos) ltac:(fold t; lra))
    as (Hn & _ & Hnear & _).
  fold n t in Hn, Hnear. rewrite pow2_m24 in Hnear. fold u32 eta32 in Hnear.
  pose proof (magnitude_nonneg n) as Hn0.
  split; [ exact Hn | ]. split.
  - apply Rabs_le_inv in Hnear. unfold u32 in *. lra.
  - split; [ exact Htt | ].
    apply quotient_rounded_sq; try assumption; lra.
Qed.

Theorem normalize3_length a b c :
  F32_number a = true -> F32_number b = true -> F32_number c = true ->
  F32_normal (dot3 a b c) = true ->
  let L := length3 a b c in
  let L' := length3 (SFdiv F32.prec F32.emax a L) (SFdiv F32.prec F32.emax b L) (SFdiv F32.prec F32.emax c L) in
  F32_number L' = true /\ F32_sign L' = false /\ Rabs (F32_magnitude L' - 1) <= 10 * u32.
Proof.
  intros Ha Hb Hc Hnorm L L'.
  pose proof (magnitude_nonneg a) as Hxa. pose proof (magnitude_nonneg b) as Hxb.
  pose proof (magnitude_nonneg c) as Hxc.
  destruct eta32_bounds as (He0 & HeT & He1).
  pose proof pow2_127_big as Hbig.
  (* the squared length *)
  destruct (dot3_finite_bounds a b c Ha Hb Hc (normal_finite _ Hnorm)) as (Hnd & Hsd & Hd).
  cbv zeta in Hd.
  set (d := dot3 a b c) in *. set (dv := F32_magnitude d) in *.
  set (S := F32_magnitude a * F32_magnitude a + F32_magnitude b * F32_magnitude b + F32_magnitude c * F32_magnitude c) in *.
  pose proof (normal_ge_min d Hnd Hnorm) as HT. fold dv in HT.
  assert (HS0 : 0 <= S) by (unfold S; nra).
  pose proof (dot3_relative eta32 (pow2 (-126)) S dv ltac:(lra) HT HS0 Hd) as HSd.
  pose proof (pow2_pos (-126)) as HTpos.
  (* its square root *)
  set (r := sqrt dv).
  assert (Hr0 : 0 <= r) by apply sqrt_pos.
  assert (Hrr : r * r = dv) by (apply sqrt_sqrt; lra).
  assert (Hrlo : pow2 (-63) <= r).
  { apply sq_le_inv; [ apply Rlt_le, pow2_pos | exact Hr0 | ].
    rewrite Hrr, <- pow2_add. exact HT. }
  assert (Hrhi : r <= pow2 64).
  { apply sq_le_inv; [ exact Hr0 | apply Rlt_le, pow2_pos | ].
    rewrite Hrr, <- pow2_add. apply Rlt_le. apply (number_lt_max d Hnd). }
  assert (H63 : pow2 (-126) <= pow2 (-63)) by (apply pow2_le; lia).
  assert (H64 : pow2 64 < pow2 127) by (apply pow2_lt; lia).
  destruct (rounds_to_finite _ _ _ (sqrt_rounds d Hnd Hsd) ltac:(fold dv r; lra))
    as (HnL & HsL & _ & HLr).
  fold dv r in HLr. specialize (HLr ltac:(lra)).
  change (SFsqrt F32.prec F32.emax d) with L in HnL, HsL, HLr.
  set (Lv := F32_magnitude L) in *.
  pose proof (magnitude_nonneg L) as HLv0. fold Lv in HLv0.
  rewrite pow2_m24 in HLr. fold u32 in HLr.
  pose proof (sqrt_rounded_sq dv r Lv Hr0 Hrr HLv0 HLr) as HQ.
  assert (HLpos : 0 < Lv).
  { apply Rabs_le_inv in HLr. unfold u32 in HLr. pose proof (pow2_pos (-63)). lra. }
  set (Q := Lv * Lv) in *.
  assert (HQpos : 0 < Q) by (unfold Q; nra).
  pose proof (ratio_bounds S dv Q ltac:(lra) HSd HQ) as HSQ.
  assert (HaS : F32_magnitude a * F32_magnitude a <= S) by (unfold S; nra).
  assert (HbS : F32_magnitude b * F32_magnitude b <= S) by (unfold S; nra).
  assert (HcS : F32_magnitude c * F32_magnitude c <= S) by (unfold S; nra).
  destruct HSQ as [HSQl HSQh].
  destruct (quotient_component a L S Ha HnL HLpos HSQh HaS) as (Hna & Hna1 & Hta & HNa).
  destruct (quotient_component b L S Hb HnL HLpos HSQh HbS) as (Hnb & Hnb1 & Htb & HNb).
  destruct (quotient_component c L S Hc HnL HLpos HSQh HcS) as (Hnc & Hnc1 & Htc & HNc).
  cbv zeta in *. fold Lv in Hta, Htb, Htc, HNa, HNb, HNc. fold Q in Hta, Htb, Htc.
  set (na := SFdiv F32.prec F32.emax a L) in *. set (nb := SFdiv F32.prec F32.emax b L) in *.
  set (nc := SFdiv F32.prec F32.emax c L) in *.
  set (ta := F32_magnitude a / Lv) in *. set (tb := F32_magnitude b / Lv) in *. set (tc := F32_magnitude c / Lv) in *.
  set (T2 := ta * ta + tb * tb + tc * tc).
  assert (HT2Q : T2 * Q = S) by (unfold T2, S; lra).
  pose proof (sum_sq_bounds Q S T2 HQpos HT2Q (conj HSQl HSQh)) as HT2.
  (* the squared length of the result *)
  pose proof (dot3_small_finite na nb nc Hna Hnb Hnc Hna1 Hnb1 Hnc1) as Hfd'.
  destruct (dot3_finite_bounds na nb nc Hna Hnb Hnc Hfd') as (Hnd' & Hsd' & Hd').
  cbv zeta in Hd'.
  set (d' := dot3 na nb nc) in *. set (dv' := F32_magnitude d') in *.
  set (N2 := F32_magnitude na * F32_magnitude na + F32_magnitude nb * F32_magnitude nb + F32_magnitude nc * F32_magnitude nc) in *.
  assert (HN2 : T2 * (1 - 2 * u32) - 9 * eta32 <= N2
                <= T2 * (1 + 2001 / 1000 * u32) + 9 * eta32)
    by (unfold N2, T2; lra).
  pose proof (second_dot_bounds eta32 T2 N2 dv' ltac:(lra) HT2 HN2 Hd') as Hdv'.
  (* and its square root *)
  set (r' := sqrt dv').
  assert (Hr0' : 0 <= r') by apply sqrt_pos.
  assert (Hrr' : r' * r' = dv') by (apply sqrt_sqrt; unfold u32 in Hdv'; lra).
  assert (Hr'1 : / 2 <= r' <= 2).
  { unfold u32 in Hdv'. split; apply sq_le_inv; try lra; rewrite Hrr'; lra. }
  assert (Hmin1 : pow2 (-126) <= / 2).
  { apply Rle_trans with (pow2 (-1)); [ apply pow2_le; lia | ].
    change (-1)%Z with (- (1))%Z. rewrite pow2_opp, pow2_1. lra. }
  destruct (rounds_to_finite _ _ _ (sqrt_rounds d' Hnd' Hsd') ltac:(fold dv' r'; lra))
    as (HnL' & HsL' & _ & HLr').
  fold dv' r' in HLr'. specialize (HLr' ltac:(lra)).
  rewrite pow2_m24 in HLr'. fold u32 in HLr'.
  split; [ exact HnL' | ]. split; [ exact HsL' | ].
  exact (final_bound dv' r' _ Hdv' Hr0' Hrr' HLr').
Qed.


Local Close Scope R_scope.

(** ** Mat4: the product *)

Section Mat4Product.

(** C4: every cell [i*4+j] of the product [a * b] is the sum over
    [k = 0..3], taken in increasing order of [k], of
    [a.data[i*4+k] * b.data[k*4+j]]. *)
Theorem product_cell_formula (a b : Mat4.t) (i j : nat) :
  (i < 4)%nat -> (j < 4)%nat ->
  Mat4.data (Mat4.product a b) (i * 4 + j) =
  sum4 (fun k => Mat4.data a (i * 4 + k) * Mat4.data b (k * 4 + j)).
Proof.
  intros Hi Hj. destruct a, b.
  do 4 (destruct i as [| i];
        [ do 4 (destruct j as [| j]; [ reflexivity | ]); lia | ]).
  lia.
Qed.

Lemma product_cell_formula_witness :
  Mat4.data (Mat4.product sample_1_to_16 Mat4.identity) (2 * 4 + 3) =
  sum4 (fun k => Mat4.data sample_1_to_16 (2 * 4 + k)
                 * Mat4.data Mat4.identity (k * 4 + 3)).
Proof. apply (product_cell_formula sample_1_to_16 Mat4.identity 2 3); lia. Defined.

(** The receiver of a product is left as it was. *)
Lemma times_receiver (a b : Mat4.t) : Mat4.receiver (Mat4.times b) a = a.
Proof. reflexivity. Qed.

(** The sixteen cell facts of a hypothesis on every cell. *)
Ltac cell_facts H :=
  let go k :=
    let Hk := fresh "Hcell" in
    pose proof (H k ltac:(lia)) as Hk; cbn in Hk in
  go 0%nat; go 1%nat; go 2%nat; go 3%nat; go 4%nat; go 5%nat; go 6%nat;
  go 7%nat; go 8%nat; go 9%nat; go 10%nat; go 11%nat; go 12%nat;
  go 13%nat; go 14%nat; go 15%nat.

Ltac each_below n tac :=
  first [ lia | destruct n as [| n]; [ tac | each_below n tac ] ].

Lemma identity_times_same (m : Mat4.t) (n : nat) :
  (forall i, (i < 16)%nat -> F32_number (Mat4.data m i) = true) ->
  (n < 16)%nat ->
  F32_same (Mat4.data (Mat4.product Mat4.identity m) n) (Mat4.data m n).
Proof.
  intros H Hn.
  destruct m as [a0 a1 a2 a3 a4 a5 a6 a7 a8 a9 a10 a11 a12 a13 a14 a15].
  cell_facts H. clear H.
  each_below n ltac:(cbn; auto 8 with f32).
Qed.

Lemma times_identity_same (m : Mat4.t) (n : nat) :
  (forall i, (i < 16)%nat -> F32_number (Mat4.data m i) = true) ->
  (n < 16)%nat ->
  F32_same (Mat4.data (Mat4.product m Mat4.identity) n) (Mat4.data m n).
Proof.
  intros H Hn.
  destruct m as [a0 a1 a2 a3 a4 a5 a6 a7 a8 a9 a10 a11 a12 a13 a14 a15].
  cell_facts H. clear H.
  each_below n ltac:(cbn; auto 8 with f32).
Qed.

(** C7, as the code has it: for every matrix [m] whose sixteen cells
    are finite numbers, each cell of [identity * m] and of
    [m * identity] compares equal ([==]) to the same cell of [m], and
    is the very same value wherever that cell of [m] is not a zero. *)
Theorem identity_product_finite (m : Mat4.t) (n : nat) :
  (forall i, (i < 16)%nat -> F32_number (Mat4.data m i) = true) ->
  (n < 16)%nat ->
  (Mat4.data (Mat4.product Mat4.identity m) n == Mat4.data m n) = true /\
  (Mat4.data (Mat4.product m Mat4.identity) n == Mat4.data m n) = true /\
  (F32.is_zero (Mat4.data m n) = false ->
   Mat4.data (Mat4.product Mat4.identity m) n = Mat4.data m n /\
   Mat4.data (Mat4.product m Mat4.identity) n = Mat4.data m n).
Proof.
  intros H Hn.
  pose proof (identity_times_same m n H Hn) as Hl.
  pose proof (times_identity_same m n H Hn) as Hr.
  pose proof (number_finite _ (H n Hn)) as Hf.
  repeat split; auto using same_eqb, same_nonzero.
Qed.

Lemma sample_cells_numbers (i : nat) :
  (i < 16)%nat -> F32_number (Mat4.data sample_1_to_16 i) = true.
Proof. intros Hi. each_below i ltac:(reflexivity). Qed.

Lemma identity_product_finite_witness :
  (Mat4.data (Mat4.product Mat4.identity sample_1_to_16) 7
     == Mat4.data sample_1_to_16 7) = true /\
  (Mat4.data (Mat4.product sample_1_to_16 Mat4.identity) 7
     == Mat4.data sample_1_to_16 7) = true /\
  (F32.is_zero (Mat4.data sample_1_to_16 7) = false ->
   Mat4.data (Mat4.product Mat4.identity sample_1_to_16) 7
     = Mat4.data sample_1_to_16 7 /\
   Mat4.data (Mat4.product sample_1_to_16 Mat4.identity) 7
     = Mat4.data sample_1_to_16 7).
Proof.
  apply (identity_product_finite sample_1_to_16 7 sample_cells_numbers).
  lia.
Defined.

(** C7 as stated fails: with an infinite cell in [m], the product
    [identity * m] has a NaN where [m] has a zero. *)
Lemma identity_product_infinite_cell :
  ~ (forall n, (n < 16)%nat ->
     (Mat4.data (Mat4.product Mat4.identity sample_infinite_cell) n
        == Mat4.data sample_infinite_cell n) = true).
Proof.
  intros H. specialize (H 4%nat ltac:(lia)). vm_compute in H. discriminate H.
Qed.

End Mat4Product.

(** ** Mat4: projections, mutators and queries *)

Section Mat4Members.

(** C1 as stated fails: cell 10 of [ortho(-1,1,-1,1,1,-1)] is not the
    [-1] of the specification's reference matrix. *)
Lemma ortho_unit_box_differs_from_spec_reference :
  Mat4_cells_eqb ortho_unit_box ortho_unit_box_spec_reference = false /\
  (Mat4.data ortho_unit_box 10 == minus1) = false.
Proof. split; vm_compute; reflexivity. Qed.

(** C1, as the code has it: [ortho(-1,1,-1,1,1,-1)] has
    [data[0] = data[5] = data[10] = data[15] = 1], the translation
    cells 12, 13, 14 are zeros (negative, negative, positive) and every
    other cell is [0]; cell for cell it compares equal to
    [identity()]. *)
Theorem ortho_unit_box_is_identity :
  ortho_unit_box =
    Mat4.Cells F32.lit1 F32.lit0 F32.lit0 F32.lit0
               F32.lit0 F32.lit1 F32.lit0 F32.lit0
               F32.lit0 F32.lit0 F32.lit1 F32.lit0
               (- F32.lit0) (- F32.lit0) F32.lit0 F32.lit1 /\
  Mat4_cells_eqb ortho_unit_box Mat4.identity = true.
Proof. split; vm_compute; reflexivity. Qed.

(** C2: when [determinant()] compares equal to [0.0f], [inverse()]
    returns the receiver's sixteen cells as they are and leaves the
    receiver as it was. *)
Theorem inverse_singular_returns_copy (m : Mat4.t) :
  (Mat4.returned Mat4.determinant m == F32.lit0) = true ->
  Mat4.returned Mat4.inverse m = m /\ Mat4.receiver Mat4.inverse m = m.
Proof.
  intros Hdet. unfold Mat4.returned, Mat4.receiver, Mat4.inverse, Mat4.bind.
  unfold Mat4.returned in Hdet.
  cbn [Mat4.self]. destruct (Mat4.determinant m) as [det this'] eqn:E.
  assert (this' = m) as -> by (unfold Mat4.determinant, Mat4.bind, Mat4.self, Mat4.ret in E; congruence).
  cbn [fst] in Hdet. rewrite Hdet. split; reflexivity.
Qed.

Lemma inverse_singular_returns_copy_witness :
  Mat4.returned Mat4.inverse sample_1_to_16 = sample_1_to_16 /\
  Mat4.receiver Mat4.inverse sample_1_to_16 = sample_1_to_16.
Proof. apply (inverse_singular_returns_copy sample_1_to_16). vm_compute. reflexivity. Defined.

(** C8: [translate(t)] adds [t.x], [t.y], [t.z] onto cells 12, 13, 14
    and [scale(s)] multiplies cells 0, 5, 10 by [s.x], [s.y], [s.z];
    either leaves every other cell as it was. *)
Theorem translate_scale_cells (m : Mat4.t) (t s : Vec3.t) (i : nat) :
  Mat4.data (Mat4.receiver (Mat4.translate t) m) i =
    match i with
    | 12%nat => Mat4.data m 12 + Vec3.x t
    | 13%nat => Mat4.data m 13 + Vec3.y t
    | 14%nat => Mat4.data m 14 + Vec3.z t
    | _ => Mat4.data m i
    end /\
  Mat4.data (Mat4.receiver (Mat4.scale s) m) i =
    match i with
    | 0%nat => Mat4.data m 0 * Vec3.x s
    | 5%nat => Mat4.data m 5 * Vec3.y s
    | 10%nat => Mat4.data m 10 * Vec3.z s
    | _ => Mat4.data m i
    end.
Proof.
  destruct m. do 16 (destruct i as [| i]; [ split; reflexivity | ]).
  split; reflexivity.
Qed.

(** C9: [determinant()], [transpose()], [cofactor()] and [inverse()]
    leave the receiver's sixteen cells as they were. *)
Theorem queries_leave_receiver (m : Mat4.t) :
  Mat4.receiver Mat4.determinant m = m /\
  Mat4.receiver Mat4.transpose m = m /\
  Mat4.receiver Mat4.cofactor m = m /\
  Mat4.receiver Mat4.inverse m = m.
Proof.
  repeat split; try reflexivity.
  unfold Mat4.receiver, Mat4.inverse, Mat4.bind. cbn [Mat4.self].
  destruct (Mat4.determinant m) as [det this'] eqn:E.
  assert (this' = m) as -> by (unfold Mat4.determinant, Mat4.bind, Mat4.self, Mat4.ret in E; congruence).
  destruct (det == F32.lit0); reflexivity.
Qed.

End Mat4Members.

(** ** Quat *)

Section QuatMembers.
Context {libm : Libm}.

(** C10: the [w] of [q * v] is [1.0f], and [q * v] does not depend on
    [v.w]. *)
Theorem times_vec4_ignores_w (q : Quat.t) (v : Vec4.t) (w' : F32.float) :
  Vec4.w (Quat.times_vec4 q v) = F32.lit1 /\
  Quat.times_vec4 q (Vec4.Vec4 (Vec4.x v) (Vec4.y v) (Vec4.z v) w')
  = Quat.times_vec4 q v.
Proof. split; reflexivity. Qed.

(** The quarter turn about [z] of [(1,0,0)], given the values libm
    returns for the sine and the cosine of [quarter_pi]. *)
Lemma quarter_turn_with_libm_values :
  sinf quarter_pi = sqrt_half -> cosf quarter_pi = sqrt_half ->
  let q := Quat.from_axis_angle (Vec3.Vec3 F32.lit0 F32.lit0 F32.lit1) half_pi in
  let v := Quat.times_vec3 q (Vec3.Vec3 F32.lit1 F32.lit0 F32.lit0) in
  v = Vec3.Vec3 F32.lit0 pred_one F32.lit0 /\
  F32.close F32.epsilon (Vec3.x v) F32.lit0 = true /\
  F32.close F32.epsilon (Vec3.y v) F32.lit1 = true /\
  F32.close F32.epsilon (Vec3.z v) F32.lit0 = true.
Proof.
  intros Hs Hc q v. subst q v. unfold Quat.from_axis_angle.
  change (half_pi / F32.lit2) with quarter_pi.
  rewrite Hs, Hc. vm_compute. repeat split; reflexivity.
Qed.

End QuatMembers.

(** ** libm at [(float)(pi/2) / 2]

    [quarter_turn_about_z] takes the values of [sin] and [cos] at
    [quarter_pi] as hypotheses.  They are the values of a correctly
    rounded libm: [sqrt_half] lies within half a unit in the last place
    of the true sine and of the true cosine, and it is the only binary32
    value that does. *)

Section LibmAtQuarterPi.

Local Open Scope R_scope.

Lemma fact_R n : INR (fact (S n)) = INR (S n) * INR (fact n).
Proof. rewrite fact_simpl, mult_INR. reflexivity. Qed.

(** Turns the factorials of a partial sum into numerals. *)
Ltac numeric_facts H :=
  repeat rewrite fact_R in H; change (fact 0) with 1%nat in H;
  repeat rewrite INR_IZR_INZ in H; cbn [Z.of_nat Pos.of_succ_nat Pos.succ] in H.

Lemma value_quarter_pi : F32_value quarter_pi = 13176795 / 16777216.
Proof.
  unfold F32_value, quarter_pi. cbn [F32_sign F32_magnitude].
  rewrite pow2_m24. lra.
Qed.

Lemma value_sqrt_half : F32_value sqrt_half = 11863283 / 16777216.
Proof.
  unfold F32_value, sqrt_half. cbn [F32_sign F32_magnitude].
  rewrite pow2_m24. lra.
Qed.

Lemma sqrt_half_nearest_sine :
  Rabs (sin (F32_value quarter_pi) - F32_value sqrt_half) < / 33554432.
Proof.
  rewrite value_quarter_pi, value_sqrt_half.
  set (h := 13176795 / 16777216).
  assert (H0 : 0 <= h) by (unfold h; lra).
  assert (H4 : h <= 4) by (unfold h; lra).
  pose proof (pre_sin_bound h 2 H0 H4) as [Hl Hu].
  change (2 * 2 + 1)%nat with 5%nat in Hl. change (2 * (2 + 1))%nat with 6%nat in Hu.
  unfold sin_approx in Hl, Hu. cbn [sum_f_R0] in Hl, Hu.
  unfold sin_term in Hl, Hu. cbn [Nat.mul Nat.add] in Hl, Hu.
  numeric_facts Hl. numeric_facts Hu.
  apply Rabs_def1; unfold h in *; lra.
Qed.

Lemma sqrt_half_nearest_cosine :
  Rabs (cos (F32_value quarter_pi) - F32_value sqrt_half) < / 33554432.
Proof.
  rewrite value_quarter_pi, value_sqrt_half.
  set (h := 13176795 / 16777216).
  assert (H0 : - 2 <= h) by (unfold h; lra).
  assert (H4 : h <= 2) by (unfold h; lra).
  pose proof (pre_cos_bound h 2 H0 H4) as [Hl Hu].
  change (2 * 2 + 1)%nat with 5%nat in Hl. change (2 * (2 + 1))%nat with 6%nat in Hu.
  unfold cos_approx in Hl, Hu. cbn [sum_f_R0] in Hl, Hu.
  unfold cos_term in Hl, Hu. cbn [Nat.mul Nat.add] in Hl, Hu.
  numeric_facts Hl. numeric_facts Hu.
  apply Rabs_def1; unfold h in *; lra.
Qed.

(** A binary32 value within half a unit in the last place of a real
    number that [sqrt_half] is strictly within half a unit of, is
    [sqrt_half]. *)
Lemma nearest_is_sqrt_half (y : F32.float) (r : R) :
  F32.valid y = true ->
  Rabs (r - F32_value sqrt_half) < / 33554432 ->
  Rabs (F32_value y - r) <= / 33554432 ->
  y = sqrt_half.
Proof.
  intros Hv Hr Hy. rewrite value_sqrt_half in Hr.
  apply Rabs_def2 in Hr. apply Rabs_le_inv in Hy.
  assert (Hval : 11863282 / 16777216 < F32_value y < 11863284 / 16777216) by lra.
  clear Hr Hy r.
  destruct y as [s | s | | s m e]; unfold F32_value in Hval;
    cbn [F32_sign F32_magnitude] in Hval;
    try lra; try (destruct s; lra).
  pose proof (pow2_pos e) as Hpe.
  assert (Hm0 : 0 < IZR (Z.pos m)) by (apply IZR_lt; lia).
  destruct s; [ nra | ].
  unfold F32.valid in Hv. cbn [valid_binary] in Hv.
  destruct (canonical_cases _ _ Hv) as [Hc _].
  pose proof (digits2_bounds m) as [Hl Hu].
  set (d := Z.pos (digits2_pos m)) in *.
  assert (Hde : (d + e = 0)%Z).
  { assert (H1 : pow2 (d - 1 + e) < pow2 0).
    { rewrite pow2_add, pow2_0. nra. }
    assert (H2 : pow2 (-1) < pow2 (d + e)).
    { rewrite (pow2_add d e). change (-1)%Z with (- (1))%Z.
      rewrite pow2_opp, pow2_1. nra. }
    apply pow2_le_inv in H1, H2. lia. }
  assert (He : e = (-24)%Z) by lia. subst e.
  rewrite pow2_m24 in Hval.
  assert (Hm : m = 11863283%positive).
  { assert (H1 : IZR 11863282 < IZR (Z.pos m)) by lra.
    assert (H2 : IZR (Z.pos m) < IZR 11863284) by lra.
    apply lt_IZR in H1, H2. lia. }
  subst m. reflexivity.
Qed.

End LibmAtQuarterPi.

Section QuarterTurn.
Context {libm : Libm}.

(** C6: with a libm whose [sin] and [cos] are rounded to the nearest
    binary32 value at [(float)(pi/2) / 2], the quarter turn about [z]
    takes [(1,0,0)] to [(0, 1 - 2^-24, 0)], which is within
    [FLT_EPSILON] of [(0,1,0)] in every component. *)
Theorem quarter_turn_about_z :
  F32.valid (sinf quarter_pi) = true ->
  (Rabs (F32_value (sinf quarter_pi) - sin (F32_value quarter_pi)) <= / 33554432)%R ->
  F32.valid (cosf quarter_pi) = true ->
  (Rabs (F32_value (cosf quarter_pi) - cos (F32_value quarter_pi)) <= / 33554432)%R ->
  let q := Quat.from_axis_angle (Vec3.Vec3 F32.lit0 F32.lit0 F32.lit1) half_pi in
  let v := Quat.times_vec3 q (Vec3.Vec3 F32.lit1 F32.lit0 F32.lit0) in
  v = Vec3.Vec3 F32.lit0 pred_one F32.lit0 /\
  F32.close F32.epsilon (Vec3.x v) F32.lit0 = true /\
  F32.close F32.epsilon (Vec3.y v) F32.lit1 = true /\
  F32.close F32.epsilon (Vec3.z v) F32.lit0 = true.
Proof.
  intros Hvs Hs Hvc Hc.
  apply quarter_turn_with_libm_values.
  - exact (nearest_is_sqrt_half _ _ Hvs sqrt_half_nearest_sine Hs).
  - exact (nearest_is_sqrt_half _ _ Hvc sqrt_half_nearest_cosine Hc).
Qed.

End QuarterTurn.

Lemma quarter_turn_about_z_witness :
  let q := @Quat.from_axis_angle libm_at_quarter_pi
             (Vec3.Vec3 F32.lit0 F32.lit0 F32.lit1) half_pi in
  let v := Quat.times_vec3 q (Vec3.Vec3 F32.lit1 F32.lit0 F32.lit0) in
  v = Vec3.Vec3 F32.lit0 pred_one F32.lit0 /\
  F32.close F32.epsilon (Vec3.x v) F32.lit0 = true /\
  F32.close F32.epsilon (Vec3.y v) F32.lit1 = true /\
  F32.close F32.epsilon (Vec3.z v) F32.lit0 = true.
Proof.
  apply (@quarter_turn_about_z libm_at_quarter_pi).
  - reflexivity.
  - cbn [sinf libm_at_quarter_pi]. rewrite Rabs_minus_sym.
    apply Rlt_le, sqrt_half_nearest_sine.
  - reflexivity.
  - cbn [cosf libm_at_quarter_pi]. rewrite Rabs_minus_sym.
    apply Rlt_le, sqrt_half_nearest_cosine.
Defined.

(** ** slerp on coincident, nearly unit quaternions *)

Section HalfSum.
Import F32.

Lemma valid_normal_exponent s m e :
  valid (S754_finite s m e) = true -> (-149 < e)%Z ->
  Z.pos (digits2_pos m) = 24%Z /\ (e <= 104)%Z.
Proof.
  unfold valid. cbn [valid_binary]. intros Hv He.
  destruct (canonical_cases _ _ Hv) as [[Hc | Hc] Hb]; lia.
Qed.

(** Halving a number above the least exponent only lowers its
    exponent. *)
Lemma mul_half_finite s m e :
  valid (S754_finite s m e) = true -> (-149 < e)%Z ->
  mul (S754_finite s m e) lit0_5 = S754_finite s m (e - 1).
Proof.
  intros Hv He. destruct (valid_normal_exponent s m e Hv He) as [Hd Hb].
  unfold lit0_5. rewrite mul_comm_finite. unfold mul, SFmul.
  unfold binary_round_aux. cbn [xorb Pos.mul].
  set (m' := (m~0~0~0~0~0~0~0~0~0~0~0~0~0~0~0~0~0~0~0~0~0~0~0)%positive).
  assert (Hs : shr_fexp prec emax (Z.pos m') (-24 + e) loc_Exact
               = (Build_shr_record (Z.pos m) false false, (e - 1)%Z)).
  { unfold shr_fexp, Zdigits2, m'. cbn [digits2_pos].
    rewrite !Pos2Z.inj_succ, Hd, fexp_eq.
    replace (Z.max _ _ - (-24 + e))%Z with 23%Z by lia.
    cbv [shr iter_pos shr_1 shr_record_of_loc orb]. f_equal. lia. }
  rewrite Hs. cbn [shr_m loc_of_shr_record round_nearest_even].
  rewrite shr_fexp_canonical by (rewrite Hd, fexp_eq; lia).
  cbn [shr_m].
  replace (e - 1 <=? emax - prec)%Z with true
    by (symmetry; apply Z.leb_le; change (emax - prec)%Z with 104%Z; lia).
  reflexivity.
Qed.

(** Adding a normal number to itself only raises its exponent. *)
Lemma add_self_finite s m e :
  Z.pos (digits2_pos m) = 24%Z -> (-149 <= e)%Z -> (e + 1 <= 104)%Z ->
  add (S754_finite s m e) (S754_finite s m e) = S754_finite s m (e + 1).
Proof.
  intros Hd He Hb. unfold add, SFadd. rewrite Z.min_id.
  assert (Hal : shl_align m e e = (m, e)) by (unfold shl_align; rewrite Z.sub_diag; reflexivity).
  rewrite Hal. cbn [fst].
  assert (Hsum : (cond_Zopp s (Z.pos m) + cond_Zopp s (Z.pos m))%Z
                 = cond_Zopp s (Z.pos m~0)) by (destruct s; cbn; rewrite Pos.add_diag; reflexivity).
  rewrite Hsum.
  assert (Hr : binary_round prec emax s m~0 e = S754_finite s m (e + 1)).
  { unfold binary_round. cbn [digits2_pos]. rewrite Pos2Z.inj_succ, Hd, fexp_eq.
    replace (Z.max (Z.succ 24 + e - 24) (-149)) with (e + 1)%Z by lia.
    assert (Hal' : shl_align m~0 e (e + 1) = (m~0, e)%positive).
    { unfold shl_align. replace (e + 1 - e)%Z with 1%Z by lia. reflexivity. }
    rewrite Hal'. unfold binary_round_aux.
    assert (Hs : shr_fexp prec emax (Z.pos m~0) e loc_Exact
                 = (Build_shr_record (Z.pos m) false false, (e + 1)%Z)).
    { unfold shr_fexp, Zdigits2. cbn [digits2_pos].
      rewrite Pos2Z.inj_succ, Hd, fexp_eq.
      replace (Z.max _ _ - e)%Z with 1%Z by lia.
      cbv [shr iter_pos shr_1 shr_record_of_loc orb]. reflexivity. }
    rewrite Hs. cbn [shr_m loc_of_shr_record round_nearest_even].
    rewrite shr_fexp_canonical by (rewrite Hd, fexp_eq; lia).
    cbn [shr_m].
    replace (e + 1 <=? emax - prec)%Z with true
      by (symmetry; apply Z.leb_le; change (emax - prec)%Z with 104%Z; lia).
    reflexivity. }
  destruct s; cbn [cond_Zopp Z.opp binary_normalize]; exact Hr.
Qed.

Lemma not_tiny_cases x :
  F32_not_tiny x = true -> F32_number x = true ->
  is_zero x = true \/
  exists s m e, x = S754_finite s m e /\ (-149 < e)%Z /\ valid x = true.
Proof.
  unfold F32_not_tiny, F32_number. intros H Hn.
  apply andb_prop in Hn. destruct Hn as [Hf Hv].
  apply orb_prop in H. destruct H as [H | H]; [ left; exact H | ].
  destruct x as [s | s | | s m e]; try discriminate Hf; [ left; reflexivity | ].
  right. exists s, m, e. split; [ reflexivity | ]. split; [ | exact Hv ].
  unfold leb, SFleb, abs, SFabs, SFcompare, twice_flt_min in H.
  destruct (-148 ?= e)%Z eqn:Hc; try discriminate H.
  - apply Z.compare_eq in Hc. lia.
  - change (-148 < e)%Z in Hc. lia.
Qed.

(** The two halves of a number that is not tiny add up to it. *)
Lemma half_sum x :
  F32_number x = true -> F32_not_tiny x = true ->
  add (mul x lit0_5) (mul x lit0_5) = x.
Proof.
  intros Hn Ht. destruct (not_tiny_cases x Ht Hn) as [Hz | (s & m & e & -> & He & Hv)].
  - destruct x as [[] | | |]; try discriminate Hz; reflexivity.
  - rewrite (mul_half_finite s m e Hv He).
    destruct (valid_normal_exponent s m e Hv He) as [Hd Hb].
    rewrite add_self_finite by lia. f_equal. lia.
Qed.

End HalfSum.

Section IntOfFloat.

Lemma compare_cont_Z p q : Pos.compare_cont Eq p q = (Z.pos p ?= Z.pos q)%Z.
Proof. reflexivity. Qed.

Lemma number_mantissa_lt s m e :
  F32.valid (S754_finite s m e) = true -> (Z.pos m < 16777216)%Z.
Proof.
  unfold F32.valid. cbn [valid_binary]. intros Hv.
  destruct (canonical_cases _ _ Hv) as [Hc _].
  pose proof (digits2_bounds m) as [_ Hu].
  assert (Hd : (Z.pos (digits2_pos m) <= 24)%Z) by lia.
  apply pow2_le in Hd. rewrite pow2_24 in Hd. apply lt_IZR. lra.
Qed.

Lemma normal_mantissa_ge s m e :
  F32.valid (S754_finite s m e) = true -> (-149 < e)%Z ->
  (8388608 <= Z.pos m)%Z.
Proof.
  unfold F32.valid. cbn [valid_binary]. intros Hv He.
  destruct (canonical_cases _ _ Hv) as [Hc _].
  pose proof (digits2_bounds m) as [Hl _].
  assert (Hd : Z.pos (digits2_pos m) = 24%Z) by lia.
  rewrite Hd in Hl. change (24 - 1)%Z with 23%Z in Hl. rewrite pow2_23 in Hl.
  apply le_IZR. exact Hl.
Qed.

(** A number of magnitude below [1] is converted to the [int] [0]. *)
Lemma abs_float_below_one x :
  F32_number x = true -> (F32.abs x < F32.lit1) = true ->
  Int.abs_float x = Some 0%Z.
Proof.
  unfold F32_number. intros Hn Hlt.
  apply andb_prop in Hn. destruct Hn as [Hf Hv].
  destruct x as [s | s | | s m e]; try discriminate Hf; [ reflexivity | ].
  pose proof (number_mantissa_lt s m e Hv) as Hm.
  assert (He : (e < -23)%Z).
  { unfold F32.ltb, SFltb, F32.abs, SFabs, SFcompare, F32.lit1 in Hlt.
    destruct (e ?= -23)%Z eqn:Hc; try discriminate Hlt.
    - apply Z.compare_eq in Hc. subst e.
      pose proof (normal_mantissa_ge s m (-23) Hv ltac:(lia)) as Hge.
      rewrite compare_cont_Z in Hlt.
      destruct (Z.compare_spec (Z.pos m) 8388608); try discriminate Hlt. lia.
    - exact Hc. }
  unfold Int.abs_float, Int.of_float.
  assert (Hz : Z.shiftl (Z.pos m) e = 0%Z).
  { rewrite Z.shiftl_div_pow2 by lia. apply Z.div_small. split; [ lia | ].
    assert (2 ^ 24 <= 2 ^ (- e))%Z by (apply Z.pow_le_mono_r; lia).
    change (2 ^ 24)%Z with 16777216%Z in H. lia. }
  rewrite Hz. destruct s; reflexivity.
Qed.

(** A number of magnitude at least [1] and below [2^31] is converted
    to an [int] whose absolute value is at least [1]. *)
Lemma abs_float_in_range x :
  F32_number x = true -> (F32.abs x >= F32.lit1) = true ->
  (F32.abs x < two31) = true ->
  exists n, Int.abs_float x = Some n /\ (1 <= n < 2147483648)%Z.
Proof.
  unfold F32_number. intros Hn Hge Hlt.
  apply andb_prop in Hn. destruct Hn as [Hf Hv].
  destruct x as [s | s | | s m e]; try discriminate Hf; [ discriminate Hge | ].
  pose proof (number_mantissa_lt s m e Hv) as Hm.
  assert (He1 : (-23 <= e)%Z).
  { unfold F32.leb, SFleb, F32.abs, SFabs, SFcompare, F32.lit1 in Hge.
    destruct (-23 ?= e)%Z eqn:Hc; try discriminate Hge.
    - apply Z.compare_eq in Hc. lia.
    - change (-23 < e)%Z in Hc. lia. }
  pose proof (normal_mantissa_ge s m e Hv ltac:(lia)) as Hm'.
  assert (He2 : (e <= 7)%Z).
  { unfold F32.ltb, SFltb, F32.abs, SFabs, SFcompare, two31 in Hlt.
    destruct (e ?= 8)%Z eqn:Hc; try discriminate Hlt.
    - rewrite compare_cont_Z in Hlt.
      destruct (Z.compare_spec (Z.pos m) 8388608); try discriminate Hlt. lia.
    - change (e < 8)%Z in Hc. lia. }
  set (n := Z.shiftl (Z.pos m) e).
  assert (Hr : (1 <= n < 2147483648)%Z).
  { unfold n. destruct (Z_lt_le_dec e 0) as [Hneg | Hpos].
    - rewrite Z.shiftl_div_pow2 by lia.
      assert (Hp : (0 < 2 ^ (- e))%Z) by (apply Z.pow_pos_nonneg; lia).
      assert (Hq : (2 ^ (- e) <= 2 ^ 23)%Z) by (apply Z.pow_le_mono_r; lia).
      change (2 ^ 23)%Z with 8388608%Z in Hq. split.
      + apply Z.div_le_lower_bound; lia.
      + apply Z.div_lt_upper_bound; nia.
    - rewrite Z.shiftl_mul_pow2 by lia.
      assert (Hp : (0 < 2 ^ e)%Z) by (apply Z.pow_pos_nonneg; lia).
      assert (Hq : (2 ^ e <= 2 ^ 7)%Z) by (apply Z.pow_le_mono_r; lia).
      change (2 ^ 7)%Z with 128%Z in Hq. nia. }
  exists n. split; [ | exact Hr ].
  unfold Int.abs_float, Int.of_float. fold n. unfold Int.min, Int.max, defined, Int.abs.
  destruct s; cbn [cond_Zopp].
  - replace ((-2147483648 <=? - n) && (- n <=? 2147483647))%Z with true
      by (symmetry; apply andb_true_intro; split; apply Z.leb_le; lia).
    replace (- n =? Int.min)%Z with false
      by (symmetry; apply Z.eqb_neq; unfold Int.min; lia).
    f_equal. lia.
  - replace ((-2147483648 <=? n) && (n <=? 2147483647))%Z with true
      by (symmetry; apply andb_true_intro; split; apply Z.leb_le; lia).
    replace (n =? Int.min)%Z with false
      by (symmetry; apply Z.eqb_neq; unfold Int.min; lia).
    f_equal. lia.
Qed.

(** A non-negative number of magnitude at least [1] compares so. *)
Lemma number_ge_one x :
  F32_number x = true -> F32_sign x = false -> (1 <= F32_magnitude x)%R ->
  (x >= F32.lit1) = true.
Proof.
  unfold F32_number. intros Hn Hs Hx.
  apply andb_prop in Hn. destruct Hn as [Hf Hv].
  destruct x as [s | s | | s m e]; try discriminate Hf; cbn [F32_sign] in Hs; subst s;
    cbn [F32_magnitude] in Hx; [ lra | ].
  pose proof (number_mantissa_lt false m e Hv) as Hm.
  unfold F32.leb, SFleb, SFcompare, F32.lit1.
  destruct (-23 ?= e)%Z eqn:Hc; [ | reflexivity | ].
  - apply Z.compare_eq in Hc. subst e.
    pose proof (normal_mantissa_ge false m (-23) Hv ltac:(lia)) as Hge.
    rewrite compare_cont_Z.
    destruct (Z.compare_spec 8388608 (Z.pos m)); try reflexivity. lia.
  - exfalso. assert (He : (e <= -24)%Z) by (apply Z.compare_gt_iff in Hc; lia).
    apply IZR_lt in Hm. apply pow2_le in He. rewrite pow2_m24 in He.
    pose proof (pow2_pos e).
    assert (IZR (Z.pos m) * pow2 e < 16777216 * / 16777216)%R by nra.
    lra.
Qed.

(** Converted back to [float], an [int] from [1] on is at least
    [1.0f]. *)
Lemma to_float_ge_one n :
  (1 <= n < 2147483648)%Z -> (Int.to_float n >= F32.lit1) = true.
Proof.
  intros Hn. destruct n as [| p | p]; try lia.
  destruct (Pos.eq_dec p 1) as [-> | Hp]; [ reflexivity | ].
  unfold Int.to_float. cbn [binary_normalize].
  pose proof (binary_round_rounds false p 0) as Hr.
  rewrite pow2_0, Rmult_1_r in Hr.
  assert (H2 : (2 <= IZR (Z.pos p))%R) by (apply IZR_le; lia).
  assert (Hu : (IZR (Z.pos p) < pow2 127)%R).
  { apply Rlt_le_trans with (pow2 31).
    - rewrite pow2_IZR by lia. apply IZR_lt. change (2 ^ 31)%Z with 2147483648%Z. lia.
    - apply pow2_le. lia. }
  destruct (rounds_to_finite _ _ _ Hr Hu) as (Hnum & Hs & Hb & _).
  apply number_ge_one; [ exact Hnum | exact Hs | ].
  apply Rabs_le_inv in Hb. rewrite pow2_m24 in Hb.
  pose proof (pow2_lt (-150) (-24) ltac:(lia)) as Hlt. rewrite pow2_m24 in Hlt.
  lra.
Qed.

End IntOfFloat.

Section SlerpNearlyUnit.
Context {libm : Libm} {cmath : Cmath.Double}.

(** The first test of [slerp]. *)
Lemma slerp_early_return (a b : Quat.t) (t : F32.float) (n : Z) :
  Int.abs_float (Quat.dot a b) = Some n ->
  (Int.to_float n >= F32.lit1) = true ->
  Quat.slerp a b t = Some a.
Proof.
  intros H1 H2. unfold Quat.slerp. cbv zeta. rewrite H1. cbn [defined].
  rewrite H2. reflexivity.
Qed.

(** The second test of [slerp], where both conversions give [0]. *)
Lemma slerp_average (a b : Quat.t) (t : F32.float) :
  Int.abs_float (Quat.dot a b) = Some 0%Z ->
  Int.abs_float
    (F32.sqrt (F32.lit1 - Quat.dot a b * Quat.dot a b)) = Some 0%Z ->
  Quat.slerp a b t = Some (Quat_average a b).
Proof.
  intros H1 H2. unfold Quat.slerp. cbv zeta. rewrite H1. cbn [defined].
  change (Int.to_float 0 >= F32.lit1) with false. cbv iota.
  rewrite H2. cbn [defined].
  change (Int.to_float 0 < F32.lit0_001) with true. reflexivity.
Qed.

Lemma abs_nonneg (x : F32.float) : F32_sign x = false -> F32.abs x = x.
Proof. destruct x as [s | s | | s m e]; cbn; intros; subst; reflexivity. Qed.

Lemma is_one_of_eq (c : F32.float) : (c == F32.lit1) = true -> c = F32.lit1.
Proof.
  unfold F32.eqb, SFeqb, SFcompare, F32.lit1.
  destruct c as [[] | [] | | [] m e]; try discriminate.
  destruct (e ?= -23)%Z eqn:He; try discriminate.
  destruct (Pos.compare_cont Eq m 8388608) eqn:Hm; try discriminate.
  apply Z.compare_eq in He. apply Pos.compare_eq in Hm. subst e m.
  reflexivity.
Qed.

(** Sums and products of numbers are numbers unless they overflow. *)
Lemma mul_number (x y : F32.float) :
  F32_number x = true -> F32_number y = true ->
  F32.is_finite (x * y) = true -> F32_number (x * y) = true.
Proof.
  intros Hx Hy Hf.
  destruct (rounds_to_number _ _ _ (mul_rounds x y Hx Hy) Hf) as [H _]. exact H.
Qed.

Lemma add_number (x y : F32.float) :
  F32_number x = true -> F32_number y = true ->
  F32.is_finite (x + y) = true -> F32_number (x + y) = true.
Proof.
  intros Hx Hy. unfold F32.add.
  destruct x as [sx | sx | | sx mx ex], y as [sy | sy | | sy my ey];
    try discriminate Hx; try discriminate Hy; cbn [SFadd]; intros Hf;
    try assumption.
  - destruct sx, sy; reflexivity.
  - revert Hf.
    destruct (cond_Zopp sx (Z.pos (fst (shl_align mx ex (Z.min ex ey)))) +
              cond_Zopp sy (Z.pos (fst (shl_align my ey (Z.min ex ey)))))%Z
      as [| p | p]; cbn [binary_normalize]; intros Hf.
    + reflexivity.
    + destruct (rounds_to_number _ _ _ (binary_round_rounds false p _) Hf) as [H _].
      exact H.
    + destruct (rounds_to_number _ _ _ (binary_round_rounds true p _) Hf) as [H _].
      exact H.
Qed.

Lemma quat_dot_numbers (a b : Quat.t) :
  Quat_numbers a = true -> Quat_numbers b = true ->
  F32.is_finite (Quat.dot a b) = true -> F32_number (Quat.dot a b) = true.
Proof.
  destruct a as [i j k r], b as [i' j' k' r']. unfold Quat_numbers, Quat.dot.
  cbn [Quat.i Quat.j Quat.k Quat.r]. intros Ha Hb Hf.
  apply andb_prop in Ha. destruct Ha as [Ha Hr].
  apply andb_prop in Ha. destruct Ha as [Ha Hk].
  apply andb_prop in Ha. destruct Ha as [Hi Hj].
  apply andb_prop in Hb. destruct Hb as [Hb Hr'].
  apply andb_prop in Hb. destruct Hb as [Hb Hk'].
  apply andb_prop in Hb. destruct Hb as [Hi' Hj'].
  destruct (add_finite_inv _ _ Hf) as [HfB HfW].
  destruct (add_finite_inv _ _ HfB) as [HfA HfZ].
  destruct (add_finite_inv _ _ HfA) as [HfX HfY].
  apply add_number; [ | apply mul_number; assumption | exact Hf ].
  apply add_number; [ | apply mul_number; assumption | exact HfB ].
  apply add_number; [ | apply mul_number; assumption | exact HfA ].
  apply mul_number; assumption.
Qed.

(** The squared norm of a quaternion of numbers is a non-negative
    number unless it overflows. *)
Lemma quat_dot_number (a : Quat.t) :
  F32_number (Quat.i a) = true -> F32_number (Quat.j a) = true ->
  F32_number (Quat.k a) = true -> F32_number (Quat.r a) = true ->
  F32.is_finite (Quat.dot a a) = true ->
  F32_number (Quat.dot a a) = true /\ F32_sign (Quat.dot a a) = false.
Proof.
  destruct a as [i j k r]. unfold Quat.dot, F32.add, F32.mul.
  cbn [Quat.i Quat.j Quat.k Quat.r]. intros Hi Hj Hk Hr Hf.
  destruct (add_finite_inv _ _ Hf) as [HfB HfW].
  destruct (add_finite_inv _ _ HfB) as [HfA HfZ].
  destruct (add_finite_inv _ _ HfA) as [HfX HfY].
  destruct (near_of_rounds _ _ _ (mul_rounds i i Hi Hi) HfX) as (HnX & HsX & _).
  destruct (near_of_rounds _ _ _ (mul_rounds j j Hj Hj) HfY) as (HnY & HsY & _).
  destruct (near_of_rounds _ _ _ (mul_rounds k k Hk Hk) HfZ) as (HnZ & HsZ & _).
  destruct (near_of_rounds _ _ _ (mul_rounds r r Hr Hr) HfW) as (HnW & HsW & _).
  rewrite xorb_nilpotent in HsX, HsY, HsZ, HsW.
  destruct (near_of_rounds _ _ _ (add_rounds _ _ HnX HnY HsX HsY) HfA) as (HnA & HsA & _).
  destruct (near_of_rounds _ _ _ (add_rounds _ _ HnA HnZ HsA HsZ) HfB) as (HnB & HsB & _).
  destruct (near_of_rounds _ _ _ (add_rounds _ _ HnB HnW HsB HsW) Hf) as (Hn & Hs & _).
  auto.
Qed.

(** A non-negative number that is at least [nearly_one] is at least
    [1.0f] or one of the eight values in between. *)
Lemma nearly_one_cases (c : F32.float) :
  F32_number c = true -> F32_sign c = false -> (c >= nearly_one) = true ->
  (F32.abs c >= F32.lit1) = true \/ In c below_one_values.
Proof.
  unfold F32_number. intros Hn Hs Hge.
  apply andb_prop in Hn. destruct Hn as [Hf Hv].
  destruct c as [s | s | | s m e]; try discriminate Hf; cbn [F32_sign] in Hs; subst s.
  - discriminate Hge.
  - unfold F32.valid in Hv. cbn [valid_binary] in Hv.
    destruct (canonical_cases _ _ Hv) as [Hc Hb].
    pose proof (digits2_bounds m) as [Hl Hu].
    unfold F32.leb, SFleb, SFcompare, nearly_one in Hge.
    unfold F32.leb, SFleb, F32.abs, SFabs, SFcompare, F32.lit1.
    destruct (-24 ?= e)%Z eqn:He; try discriminate Hge.
    + apply Z.compare_eq in He. subst e. right.
      assert (Hd : Z.pos (digits2_pos m) = 24%Z) by lia.
      rewrite Hd, pow2_24 in Hu. apply lt_IZR in Hu.
      assert (Hm : (16777208 <= m)%positive).
      { unfold Pos.le, Pos.compare. intros Hgt. rewrite Hgt in Hge. discriminate Hge. }
      unfold below_one_values. cbn [map In].
      assert (Hcases : m = 16777208%positive \/ m = 16777209%positive \/
                       m = 16777210%positive \/ m = 16777211%positive \/
                       m = 16777212%positive \/ m = 16777213%positive \/
                       m = 16777214%positive \/ m = 16777215%positive) by lia.
      repeat (destruct Hcases as [-> | Hcases]; [ tauto | ]). subst m. tauto.
    + change (-24 < e)%Z in He. left.
      assert (Hd : Z.pos (digits2_pos m) = 24%Z) by lia.
      rewrite Hd in Hl. change (24 - 1)%Z with 23%Z in Hl. rewrite pow2_23 in Hl.
      apply le_IZR in Hl.
      destruct (-23 ?= e)%Z eqn:He'.
      * assert (Hm : (8388608 <= m)%positive) by lia.
        unfold Pos.le, Pos.compare in Hm.
        destruct (Pos.compare_cont Eq 8388608 m); [ reflexivity | reflexivity | congruence ].
      * reflexivity.
      * change (-23 > e)%Z in He'. lia.
Qed.

Lemma below_one_fallback (c : F32.float) :
  In c below_one_values ->
  Int.abs_float c = Some 0%Z /\
  Int.abs_float (F32.sqrt (F32.lit1 - c * c)) = Some 0%Z.
Proof.
  unfold below_one_values. cbn [map In].
  intros H. repeat (destruct H as [<- | H]; [ split; vm_compute; reflexivity | ]).
  destruct H.
Qed.

(** On a quaternion that is a unit quaternion up to rounding,
    [slerp(a, a, t)] is [a]: by the first test, or else by the average
    of the second, whose two halves are exact. *)
Lemma slerp_nearly_unit (a : Quat.t) (t : F32.float) :
  Quat_is_nearly_unit a = true -> (Quat.dot a a < two31) = true ->
  Quat.slerp a a t = Some a.
Proof.
  unfold Quat_is_nearly_unit. intros H Hlt.
  apply andb_prop in H. destruct H as [H Hge].
  apply andb_prop in H. destruct H as [H Htr].
  apply andb_prop in H. destruct H as [H Htk].
  apply andb_prop in H. destruct H as [H Htj].
  apply andb_prop in H. destruct H as [H Hti].
  apply andb_prop in H. destruct H as [H Hr].
  apply andb_prop in H. destruct H as [H Hk].
  apply andb_prop in H. destruct H as [Hi Hj].
  assert (Hf : F32.is_finite (Quat.dot a a) = true).
  { destruct (Quat.dot a a) as [s | [] | | s m e]; try discriminate Hlt;
      try discriminate Hge; reflexivity. }
  destruct (quat_dot_number a Hi Hj Hk Hr Hf) as [Hn Hs].
  destruct (nearly_one_cases _ Hn Hs Hge) as [H1 | Hin].
  - rewrite <- (abs_nonneg _ Hs) in Hlt.
    destruct (abs_float_in_range _ Hn H1 Hlt) as (n & Hc & Hr').
    apply (slerp_early_return a a t n Hc). apply to_float_ge_one, Hr'.
  - destruct (below_one_fallback _ Hin) as [H1 H2].
    rewrite (slerp_average a a t H1 H2). unfold Quat_average.
    destruct a as [i j k r]. cbn [Quat.i Quat.j Quat.k Quat.r] in *.
    f_equal. f_equal; apply half_sum; assumption.
Qed.

(** C5: [slerp(a, a, t)] is [a], whatever [t], for a quaternion [a]
    whose [a.dot(a)] is exactly [1.0f], and for one whose components are
    numbers, none of them tiny, and whose [a.dot(a)] is at least
    [1 - 2^-21] and below [2^31]; [slerp(a, b, t)] is [a] as soon as
    [1.0f <= |a.dot(b)| < 2^31], on components that are numbers. *)
Theorem slerp_coincident_returns_first (a b : Quat.t) (t : F32.float) :
  (Quat_is_unit a = true -> Quat.slerp a a t = Some a) /\
  (Quat_is_nearly_unit a = true -> (Quat.dot a a < two31) = true ->
   Quat.slerp a a t = Some a) /\
  (Quat_numbers a = true -> Quat_numbers b = true ->
   (F32.abs (Quat.dot a b) >= F32.lit1) = true ->
   (F32.abs (Quat.dot a b) < two31) = true ->
   Quat.slerp a b t = Some a).
Proof.
  split; [ | split ].
  - intros Hu. unfold Quat_is_unit in Hu. apply is_one_of_eq in Hu.
    apply (slerp_early_return a a t 1); [ rewrite Hu | ]; reflexivity.
  - apply slerp_nearly_unit.
  - intros Ha Hb Hge Hlt.
    assert (Hf : F32.is_finite (Quat.dot a b) = true).
    { destruct (Quat.dot a b) as [s | [] | | s m e]; try discriminate Hlt;
        reflexivity. }
    pose proof (quat_dot_numbers a b Ha Hb Hf) as Hn.
    destruct (abs_float_in_range _ Hn Hge Hlt) as (n & Hc & Hr).
    apply (slerp_early_return a b t n Hc). apply to_float_ge_one, Hr.
Qed.

End SlerpNearlyUnit.

Lemma slerp_coincident_returns_first_witness :
  @Quat.slerp libm_at_quarter_pi libm_tan_sample sample_quat sample_quat F32.lit0_5
  = Some sample_quat /\
  @Quat.slerp libm_at_quarter_pi libm_tan_sample
     sample_quarter_turn sample_quarter_turn F32.lit0_5
  = Some sample_quarter_turn /\
  @Quat.slerp libm_at_quarter_pi libm_tan_sample
     sample_quat (Quat.times_scalar sample_quat F32.lit2) F32.lit0_5
  = Some sample_quat.
Proof.
  split; [ | split ].
  - destruct (@slerp_coincident_returns_first libm_at_quarter_pi libm_tan_sample
                sample_quat sample_quat F32.lit0_5) as (H & _ & _).
    apply H. reflexivity.
  - destruct (@slerp_coincident_returns_first libm_at_quarter_pi libm_tan_sample
                sample_quarter_turn sample_quarter_turn F32.lit0_5) as (_ & H & _).
    apply H; reflexivity.
  - destruct (@slerp_coincident_returns_first libm_at_quarter_pi libm_tan_sample
                sample_quat (Quat.times_scalar sample_quat F32.lit2) F32.lit0_5)
      as (_ & _ & H).
    apply H; reflexivity.
Defined.

(** C5, where it fails.  [normalize()] returns a quaternion with a
    component [2^-149]; its [dot] with itself is below [1.0f], the
    second test of [slerp] holds, and the half of [2^-149] is rounded
    to [0]: [slerp(a, a, t)] has lost the component.  And with
    [a.dot(b) = 2^32] the conversion of the first test is undefined. *)
Lemma slerp_coincident_not_returned :
  Quat.normalize (Quat.Quat least_positive F32.lit0 F32.lit1 F32.lit1)
  = sample_tiny_component /\
  @Quat.slerp libm_at_quarter_pi libm_tan_sample
     sample_tiny_component sample_tiny_component F32.lit0_5
  = Some sample_quarter_turn /\
  sample_quarter_turn <> sample_tiny_component /\
  (F32.abs (Quat.dot sample_unit_i sample_far) >= F32.lit1) = true /\
  @Quat.slerp libm_at_quarter_pi libm_tan_sample sample_unit_i sample_far F32.lit0_5
  = None.
Proof.
  split; [ vm_compute; reflexivity | ].
  split; [ vm_compute; reflexivity | ].
  split; [ discriminate | ].
  split; vm_compute; reflexivity.
Qed.

(** ** Vec3: normalize *)

Section Vec3Normalize.

Local Open Scope R_scope.

(** [normalize()] of a zero vector, whatever the signs of its zeros:
    the length is [0] and every component of the result is NaN. *)
Lemma normalize_zero_vector (sx sy sz : bool) :
  Vec3.normalize (Vec3.Vec3 (S754_zero sx) (S754_zero sy) (S754_zero sz))
  = Vec3.Vec3 S754_nan S754_nan S754_nan.
Proof. destruct sx, sy, sz; vm_compute; reflexivity. Qed.

Lemma mul_finite_inv a : F32.is_finite (F32.mul a a) = true -> F32.is_finite a = true.
Proof. destruct a as [| | |]; intros H; try reflexivity; discriminate H. Qed.

Lemma dot_finite_components (v : Vec3.t) :
  F32.is_finite (Vec3.dot v v) = true ->
  F32.is_finite (Vec3.x v) = true /\ F32.is_finite (Vec3.y v) = true /\
  F32.is_finite (Vec3.z v) = true.
Proof.
  destruct v as [a b c]. unfold Vec3.dot. cbn [Vec3.x Vec3.y Vec3.z]. intros H.
  destruct (add_finite_inv _ _ H) as [HA HZ].
  destruct (add_finite_inv _ _ HA) as [HX HY].
  auto using mul_finite_inv.
Qed.

Lemma value_of_nonneg x : F32_sign x = false -> F32_value x = F32_magnitude x.
Proof. unfold F32_value. intros ->. reflexivity. Qed.

(** The numbers within [10 * u32] of [1]. *)
Lemma about_one_cases (y : F32.float) :
  F32_number y = true -> F32_sign y = false ->
  Rabs (F32_magnitude y - 1) <= 10 * u32 ->
  In y about_one_values.
Proof.
  unfold F32_number, u32. intros Hn Hs Hy.
  apply andb_prop in Hn. destruct Hn as [Hf Hv].
  apply Rabs_le_inv in Hy.
  destruct y as [s | s | | s m e]; try discriminate Hf; cbn [F32_sign] in Hs; subst s;
    cbn [F32_magnitude] in Hy; [ lra | ].
  unfold F32.valid in Hv. cbn [valid_binary] in Hv.
  destruct (canonical_cases _ _ Hv) as [Hc _].
  pose proof (digits2_bounds m) as [Hl Hu].
  pose proof (pow2_pos e) as Hpe.
  set (d := Z.pos (digits2_pos m)) in *.
  assert (Hde : (d + e = 0 \/ d + e = 1)%Z).
  { assert (H1 : pow2 (d - 1 + e) < pow2 1).
    { rewrite pow2_add, pow2_1. nra. }
    assert (H2 : pow2 (-1) < pow2 (d + e)).
    { rewrite (pow2_add d e). change (-1)%Z with (- (1))%Z.
      rewrite pow2_opp, pow2_1. nra. }
    apply pow2_le_inv in H1, H2. lia. }
  assert (Hd : d = 24%Z) by lia.
  unfold about_one_values. cbn [map app In].
  destruct Hde as [Hde | Hde].
  - assert (He : e = (-24)%Z) by lia. subst e.
    rewrite Hd, pow2_24 in Hu. rewrite pow2_m24 in Hy.
    assert (H1 : IZR (16777206 - 1) < IZR (Z.pos m)) by (rewrite minus_IZR; lra).
    apply lt_IZR in H1, Hu.
    assert (Hcases : m = 16777206%positive \/ m = 16777207%positive \/
                     m = 16777208%positive \/ m = 16777209%positive \/
                     m = 16777210%positive \/ m = 16777211%positive \/
                     m = 16777212%positive \/ m = 16777213%positive \/
                     m = 16777214%positive \/ m = 16777215%positive) by lia.
    repeat (destruct Hcases as [-> | Hcases]; [ tauto | ]). subst m. tauto.
  - assert (He : e = (-23)%Z) by lia. subst e.
    rewrite Hd in Hl. change (24 - 1)%Z with 23%Z in Hl. rewrite pow2_23 in Hl.
    assert (Hp : pow2 (-23) = / 8388608).
    { change (-23)%Z with (- (23))%Z. rewrite pow2_opp, pow2_23. reflexivity. }
    rewrite Hp in Hy.
    assert (H1 : IZR (Z.pos m) < IZR (8388613 + 1)) by (rewrite plus_IZR; lra).
    apply lt_IZR in H1. apply le_IZR in Hl.
    assert (Hcases : m = 8388608%positive \/ m = 8388609%positive \/
                     m = 8388610%positive \/ m = 8388611%positive \/
                     m = 8388612%positive \/ m = 8388613%positive) by lia.
    repeat (destruct Hcases as [-> | Hcases]; [ tauto | ]). subst m. tauto.
Qed.

Lemma about_one_close (y : F32.float) :
  In y about_one_values -> F32.close five_epsilon y F32.lit1 = true.
Proof.
  unfold about_one_values. cbn [map app In].
  intros H. repeat (destruct H as [<- | H]; [ vm_compute; reflexivity | ]).
  destruct H.
Qed.

(** The accuracy of [normalize()] on a vector whose squared length is a
    normal number. *)
Lemma normalize_length_accuracy (v : Vec3.t) :
  F32.valid (Vec3.x v) = true -> F32.valid (Vec3.y v) = true ->
  F32.valid (Vec3.z v) = true ->
  F32_normal (Vec3.length_squared v) = true ->
  F32_number (Vec3.length (Vec3.normalize v)) = true /\
  Rabs (F32_value (Vec3.length (Vec3.normalize v)) - 1) <= 5 * FLT_EPSILON /\
  F32.close five_epsilon (Vec3.length (Vec3.normalize v)) F32.lit1 = true.
Proof.
  intros Hvx Hvy Hvz Hn. unfold Vec3.length_squared in Hn.
  destruct (dot_finite_components v (normal_finite _ Hn)) as (Hfx & Hfy & Hfz).
  destruct v as [a b c]. cbn [Vec3.x Vec3.y Vec3.z] in *.
  assert (Ha : F32_number a = true) by (unfold F32_number; rewrite Hfx, Hvx; reflexivity).
  assert (Hb : F32_number b = true) by (unfold F32_number; rewrite Hfy, Hvy; reflexivity).
  assert (Hc : F32_number c = true) by (unfold F32_number; rewrite Hfz, Hvz; reflexivity).
  destruct (normalize3_length a b c Ha Hb Hc Hn) as (HnL & HsL & Hb10).
  unfold Vec3.normalize, Vec3.div_scalar, F32.div. cbn [Vec3.x Vec3.y Vec3.z].
  split; [ exact HnL | ]. split.
  - rewrite (value_of_nonneg _ HsL).
    replace (5 * FLT_EPSILON) with (10 * u32); [ exact Hb10 | ].
    unfold FLT_EPSILON, u32. rewrite <- pow2_m24.
    change (-23)%Z with (-24 + 1)%Z. rewrite pow2_succ. lra.
  - apply about_one_close, about_one_cases; assumption.
Qed.

(** C3 as stated fails: the squared length of [(2^64, 0, 0)] overflows,
    so [length()] is infinite (not zero), [normalize()] returns the zero
    vector, and the length of the result is [0], not about [1]; and on an
    ordinary vector the length of the result is [1 - 3 * 2^-24], further
    from [1] than [FLT_EPSILON]. *)
Lemma normalize_length_not_near_one :
  (Vec3.length sample_overflow == F32.lit0)%f32 = false /\
  Vec3.length (Vec3.normalize sample_overflow) = F32.lit0 /\
  F32.close F32.epsilon (Vec3.length (Vec3.normalize sample_overflow)) F32.lit1 = false /\
  (Vec3.length sample_ordinary == F32.lit0)%f32 = false /\
  F32.close F32.epsilon (Vec3.length (Vec3.normalize sample_ordinary)) F32.lit1 = false.
Proof. repeat split; vm_compute; reflexivity. Qed.

(** C3, as the code has it: [normalize()] divides by [length()] with no
    guard.  When the components are binary32 values and the squared
    length is a normal number, the length of the result is a finite
    number within [5 * FLT_EPSILON] of [1], as a real number and as
    [|length - 1.0f| <= 5 * FLT_EPSILON] evaluates in binary32; for a
    zero vector every component of the result is NaN. *)
Theorem normalize_length_near_one (v : Vec3.t) :
  (F32.valid (Vec3.x v) = true -> F32.valid (Vec3.y v) = true ->
   F32.valid (Vec3.z v) = true ->
   F32_normal (Vec3.length_squared v) = true ->
   F32_number (Vec3.length (Vec3.normalize v)) = true /\
   Rabs (F32_value (Vec3.length (Vec3.normalize v)) - 1) <= 5 * FLT_EPSILON /\
   F32.close five_epsilon (Vec3.length (Vec3.normalize v)) F32.lit1 = true) /\
  (F32.is_zero (Vec3.x v) = true -> F32.is_zero (Vec3.y v) = true ->
   F32.is_zero (Vec3.z v) = true ->
   Vec3.normalize v = Vec3.Vec3 S754_nan S754_nan S754_nan).
Proof.
  split.
  - apply normalize_length_accuracy.
  - destruct v as [[sx | | |] [sy | | |] [sz | | |]]; cbn [Vec3.x Vec3.y Vec3.z F32.is_zero];
      try discriminate.
    intros _ _ _. apply normalize_zero_vector.
Qed.

Lemma normalize_length_near_one_witness :
  (F32_number (Vec3.length (Vec3.normalize sample_vec3)) = true /\
   Rabs (F32_value (Vec3.length (Vec3.normalize sample_vec3)) - 1) <= 5 * FLT_EPSILON /\
   F32.close five_epsilon (Vec3.length (Vec3.normalize sample_vec3)) F32.lit1 = true) /\
  Vec3.normalize (Vec3.Vec3 F32.lit0 (- F32.lit0)%f32 F32.lit0)
  = Vec3.Vec3 S754_nan S754_nan S754_nan.
Proof.
  split.
  - apply (normalize_length_near_one sample_vec3); reflexivity.
  - apply (normalize_length_near_one (Vec3.Vec3 F32.lit0 (- F32.lit0)%f32 F32.lit0));
      reflexivity.
Defined.

Local Close Scope R_scope.

End Vec3Normalize.

(** ** Exact identities of binary32 arithmetic *)

Section Binary32Algebra.
Import F32.

Lemma F32_mul_comm x y : mul x y = mul y x.
Proof.
  destruct x as [sx | sx | | sx mx ex], y as [sy | sy | | sy my ey];
    try reflexivity; try (unfold mul, SFmul; rewrite xorb_comm; reflexivity).
  apply mul_comm_finite.
Qed.

Lemma F32_add_comm x y : add x y = add y x.
Proof.
  destruct x as [[] | [] | | sx mx ex], y as [[] | [] | | sy my ey];
    try reflexivity.
  unfold add, SFadd. rewrite (Z.min_comm ex ey), Z.add_comm. reflexivity.
Qed.

Lemma F32_neg_involutive x : neg (neg x) = x.
Proof. destruct x as [[] | [] | | [] m e]; reflexivity. Qed.

(** The sign of a rounding is the sign it is given. *)
Lemma binary_round_aux_opp s m e l :
  SFopp (binary_round_aux prec emax s m e l)
  = binary_round_aux prec emax (negb s) m e l.
Proof.
  unfold binary_round_aux.
  destruct (shr_fexp prec emax m e l) as [mrs' e'].
  destruct (shr_fexp prec emax _ e' loc_Exact) as [mrs'' e''].
  destruct (shr_m mrs'') as [| p | p]; try reflexivity.
  destruct (e'' <=? emax - prec)%Z; reflexivity.
Qed.

Lemma binary_round_opp s m e :
  SFopp (binary_round prec emax s m e) = binary_round prec emax (negb s) m e.
Proof.
  unfold binary_round.
  destruct (shl_align m e _) as [mz ez]. apply binary_round_aux_opp.
Qed.

Lemma binary_normalize_opp m e :
  m <> 0%Z ->
  SFopp (binary_normalize prec emax m e false)
  = binary_normalize prec emax (- m) e false.
Proof.
  destruct m as [| p | p]; intros H; [ congruence | | ]; cbn [binary_normalize Z.opp];
    apply binary_round_opp.
Qed.

Lemma F32_mul_neg_l x y : mul (neg x) y = neg (mul x y).
Proof.
  destruct x as [sx | sx | | sx mx ex], y as [sy | sy | | sy my ey];
    try reflexivity;
    try (destruct sx, sy; reflexivity).
  unfold mul, neg, SFmul. cbn [SFopp]. rewrite binary_round_aux_opp.
  destruct sx, sy; reflexivity.
Qed.

Lemma F32_mul_neg_r x y : mul x (neg y) = neg (mul x y).
Proof. rewrite F32_mul_comm, F32_mul_neg_l, F32_mul_comm. reflexivity. Qed.

Lemma shl_align_same m e : shl_align m e e = (m, e).
Proof. unfold shl_align. rewrite Z.sub_diag. reflexivity. Qed.

(** [x - x] is [+0] for every finite [x]. *)
Lemma F32_sub_self x : is_finite x = true -> sub x x = S754_zero false.
Proof.
  destruct x as [[] | | | s m e]; try discriminate; try reflexivity.
  intros _. unfold sub, SFsub. rewrite Z.min_id, shl_align_same. cbn [fst].
  rewrite Z.sub_diag. reflexivity.
Qed.

(** [x + -x] is [+0] for every finite [x]. *)
Lemma F32_add_neg_self x : is_finite x = true -> add x (neg x) = S754_zero false.
Proof.
  destruct x as [[] | | | s m e]; try discriminate; try reflexivity.
  intros _. unfold add, neg, SFadd. cbn [SFopp]. rewrite Z.min_id, shl_align_same. cbn [fst].
  destruct s; cbn [cond_Zopp negb]; rewrite ?Z.add_opp_diag_r, ?Z.add_opp_diag_l; reflexivity.
Qed.

(** NaN is absorbing. *)
Lemma F32_nan_absorbs x :
  add S754_nan x = S754_nan /\ add x S754_nan = S754_nan /\
  sub S754_nan x = S754_nan /\ sub x S754_nan = S754_nan /\
  mul S754_nan x = S754_nan /\ mul x S754_nan = S754_nan /\
  div S754_nan x = S754_nan /\ div x S754_nan = S754_nan.
Proof. destruct x as [[] | [] | | [] m e]; repeat split; reflexivity. Qed.

End Binary32Algebra.

(** ** Symmetries of the component-wise operations *)

Section Symmetries.






End Symmetries.

(** ** Comparisons and degenerate inputs *)

Section EdgeCases.

Lemma F32_eqb_refl x : (x == x) = negb (F32.is_nan x).
Proof.
  destruct x as [s | [] | | s m e]; try reflexivity.
  apply eqb_refl_finite. reflexivity.
Qed.

(** X4: [v == v] holds exactly when no component of [v] is NaN, for
    [Vec2], [Vec3], [Vec4] and [Quat]; [!=] is the negation of [==],
    also for [Vec2], which spells it out component by component. *)
Theorem equality_reflexive_unless_nan :
  (forall v, Vec2.eqb v v
             = negb (F32.is_nan (Vec2.x v) || F32.is_nan (Vec2.y v))) /\
  (forall v, Vec3.eqb v v
             = negb (F32.is_nan (Vec3.x v) || F32.is_nan (Vec3.y v)
                     || F32.is_nan (Vec3.z v))) /\
  (forall v, Vec4.eqb v v
             = negb (F32.is_nan (Vec4.x v) || F32.is_nan (Vec4.y v)
                     || F32.is_nan (Vec4.z v) || F32.is_nan (Vec4.w v))) /\
  (forall q, Quat.eqb q q
             = negb (F32.is_nan (Quat.i q) || F32.is_nan (Quat.j q)
                     || F32.is_nan (Quat.k q) || F32.is_nan (Quat.r q))) /\
  (forall a b, Vec2.neqb a b = negb (Vec2.eqb a b)).
Proof.
  repeat split.
  - intros v. unfold Vec2.eqb. rewrite !F32_eqb_refl.
    destruct (F32.is_nan (Vec2.x v)), (F32.is_nan (Vec2.y v)); reflexivity.
  - intros v. unfold Vec3.eqb. rewrite !F32_eqb_refl.
    destruct (F32.is_nan (Vec3.x v)), (F32.is_nan (Vec3.y v)),
      (F32.is_nan (Vec3.z v)); reflexivity.
  - intros v. unfold Vec4.eqb. rewrite !F32_eqb_refl.
    destruct (F32.is_nan (Vec4.x v)), (F32.is_nan (Vec4.y v)),
      (F32.is_nan (Vec4.z v)), (F32.is_nan (Vec4.w v)); reflexivity.
  - intros q. unfold Quat.eqb. rewrite !F32_eqb_refl.
    destruct (F32.is_nan (Quat.i q)), (F32.is_nan (Quat.j q)),
      (F32.is_nan (Quat.k q)), (F32.is_nan (Quat.r q)); reflexivity.
  - intros a b. unfold Vec2.neqb, Vec2.eqb.
    destruct (Vec2.x a == Vec2.x b), (Vec2.y a == Vec2.y b); reflexivity.
Qed.

(** X5: [normalize()] is unguarded on [Vec2], [Vec4] and [Quat] as
    well, and so is [Quat::inverse()]: on a zero vector or quaternion,
    whatever the signs of its zeros, every component of the result is
    NaN. *)
Theorem zero_normalizes_to_nan :
  (forall v, F32.is_zero (Vec2.x v) = true -> F32.is_zero (Vec2.y v) = true ->
     Vec2.normalize v = Vec2.Vec2 S754_nan S754_nan) /\
  (forall v, F32.is_zero (Vec4.x v) = true -> F32.is_zero (Vec4.y v) = true ->
     F32.is_zero (Vec4.z v) = true -> F32.is_zero (Vec4.w v) = true ->
     Vec4.normalize v = Vec4.Vec4 S754_nan S754_nan S754_nan S754_nan) /\
  (forall q, F32.is_zero (Quat.i q) = true -> F32.is_zero (Quat.j q) = true ->
     F32.is_zero (Quat.k q) = true -> F32.is_zero (Quat.r q) = true ->
     Quat.normalize q = Quat.Quat S754_nan S754_nan S754_nan S754_nan /\
     Quat.inverse q = Quat.Quat S754_nan S754_nan S754_nan S754_nan).
Proof.
  repeat split.
  - intros [[[] | | |] [[] | | |]]; cbn [Vec2.x Vec2.y]; intros; try discriminate;
      vm_compute; reflexivity.
  - intros [[[] | | |] [[] | | |] [[] | | |] [[] | | |]];
      cbn [Vec4.x Vec4.y Vec4.z Vec4.w]; intros; try discriminate;
      vm_compute; reflexivity.
  - destruct q as [[[] | | |] [[] | | |] [[] | | |] [[] | | |]];
      cbn [Quat.i Quat.j Quat.k Quat.r] in *; try discriminate;
      vm_compute; reflexivity.
  - destruct q as [[[] | | |] [[] | | |] [[] | | |] [[] | | |]];
      cbn [Quat.i Quat.j Quat.k Quat.r] in *; try discriminate;
      vm_compute; reflexivity.
Qed.

Lemma zero_normalizes_to_nan_witness :
  Vec2.normalize Vec2.zero = Vec2.Vec2 S754_nan S754_nan /\
  Quat.normalize (Quat.Quat F32.lit0 F32.lit0 F32.lit0 F32.lit0)
  = Quat.Quat S754_nan S754_nan S754_nan S754_nan.
Proof.
  destruct zero_normalizes_to_nan as (H2 & _ & Hq). split.
  - apply H2; reflexivity.
  - apply (Hq (Quat.Quat F32.lit0 F32.lit0 F32.lit0 F32.lit0)); reflexivity.
Defined.

(** X6: [look_at(from, to, up)] with [to] equal to [from], a point of
    finite coordinates: the forward vector is the normalized zero
    vector, and every component of the quaternion returned is NaN,
    whatever [up] is. *)
Theorem look_at_coincident_points_is_nan (p up : Vec3.t) :
  F32.is_finite (Vec3.x p) = true -> F32.is_finite (Vec3.y p) = true ->
  F32.is_finite (Vec3.z p) = true ->
  Quat.look_at p p up = Quat.Quat S754_nan S754_nan S754_nan S754_nan.
Proof.
  intros Hx Hy Hz. unfold Quat.look_at, Vec3.sub.
  rewrite !F32_sub_self by assumption.
  rewrite (normalize_zero_vector false false false).
  destruct up as [ux uy uz]. reflexivity.
Qed.

Lemma look_at_coincident_points_is_nan_witness :
  Quat.look_at sample_vec3 sample_vec3 (Vec3.Vec3 F32.lit0 F32.lit1 F32.lit0)
  = Quat.Quat S754_nan S754_nan S754_nan S754_nan.
Proof. apply look_at_coincident_points_is_nan; reflexivity. Defined.


End EdgeCases.

(** ** Quat: slerp between its two tests *)

Section SlerpAverage.
Context {libm : Libm} {cmath : Cmath.Double}.

Local Open Scope R_scope.

(** What the comparisons with [2^-11] and [1.0f] say of the
    magnitude. *)
Lemma magnitude_of_below_one x :
  F32_number x = true -> (F32.abs x < F32.lit1)%f32 = true ->
  (F32_magnitude x <= 1 - u32)%R.
Proof.
  unfold F32_number, u32. intros Hn Hlt.
  apply andb_prop in Hn. destruct Hn as [Hf Hv].
  destruct x as [s | s | | s m e]; try discriminate Hf; cbn [F32_magnitude]; [ lra | ].
  pose proof (number_mantissa_lt s m e Hv) as Hm.
  assert (He : (e <= -24)%Z).
  { unfold F32.ltb, SFltb, F32.abs, SFabs, SFcompare, F32.lit1 in Hlt.
    destruct (e ?= -23)%Z eqn:Hc; try discriminate Hlt.
    - apply Z.compare_eq in Hc. subst e.
      pose proof (normal_mantissa_ge s m (-23) Hv ltac:(lia)) as Hge.
      rewrite compare_cont_Z in Hlt.
      destruct (Z.compare_spec (Z.pos m) 8388608); try discriminate Hlt. lia.
    - change (e < -23)%Z in Hc. lia. }
  assert (Hm' : (IZR (Z.pos m) <= 16777215)%R) by (apply IZR_le; lia).
  apply pow2_le in He. rewrite pow2_m24 in He. pose proof (pow2_pos e).
  assert (0 < IZR (Z.pos m))%R by (apply IZR_lt; lia).
  apply Rle_trans with (16777215 * / 16777216)%R; [ | lra ].
  apply Rmult_le_compat; lra.
Qed.

Lemma magnitude_of_above x :
  F32_number x = true -> (F32.abs x >= two_m11)%f32 = true ->
  (pow2 (-11) <= F32_magnitude x)%R.
Proof.
  unfold F32_number. intros Hn Hge.
  apply andb_prop in Hn. destruct Hn as [Hf Hv].
  destruct x as [s | s | | s m e]; try discriminate Hf; [ discriminate Hge | ].
  cbn [F32_magnitude].
  assert (He : (-34 <= e)%Z /\ (8388608 <= Z.pos m)%Z).
  { unfold F32.leb, SFleb, F32.abs, SFabs, SFcompare, two_m11 in Hge.
    destruct (-34 ?= e)%Z eqn:Hc; try discriminate Hge.
    - apply Z.compare_eq in Hc. subst e. split; [ lia | ].
      apply (normal_mantissa_ge s m (-34) Hv). lia.
    - change (-34 < e)%Z in Hc. split; [ lia | ].
      apply (normal_mantissa_ge s m e Hv). lia. }
  destruct He as [He Hm]. apply IZR_le in Hm. rewrite <- pow2_23 in Hm.
  apply Rle_trans with (pow2 23 * pow2 (-34))%R.
  - rewrite <- pow2_add. apply pow2_le. lia.
  - pose proof (pow2_pos 23). pose proof (pow2_pos (-34)).
    apply pow2_le in He. apply Rmult_le_compat; lra.
Qed.

(** A number of magnitude below [1] is converted to the [int] [0]. *)
Lemma abs_float_of_magnitude x :
  F32.is_finite x = true -> (F32_magnitude x < 1)%R ->
  Int.abs_float x = Some 0%Z.
Proof.
  intros Hf Hx.
  destruct x as [s | s | | s m e]; try discriminate Hf; [ reflexivity | ].
  cbn [F32_magnitude] in Hx.
  assert (H1 : (1 <= IZR (Z.pos m))%R) by (apply IZR_le; lia).
  assert (He : (e < 0)%Z).
  { destruct (Z_lt_le_dec e 0) as [Hlt | Hge]; [ exact Hlt | ].
    pose proof (pow2_ge_1 e Hge). nra. }
  assert (Hm : (Z.pos m < 2 ^ (- e))%Z).
  { apply lt_IZR. rewrite <- pow2_IZR by lia. rewrite pow2_opp.
    pose proof (pow2_pos e) as Hp.
    apply Rmult_lt_reg_r with (pow2 e); [ exact Hp | ].
    rewrite Rinv_l by lra. exact Hx. }
  unfold Int.abs_float, Int.of_float.
  assert (Hz : Z.shiftl (Z.pos m) e = 0%Z).
  { rewrite Z.shiftl_div_pow2 by lia. apply Z.div_small. lia. }
  rewrite Hz. destruct s; reflexivity.
Qed.

(** [1.0f - p] for a number [p] between [0] and [1]. *)
Lemma one_minus_rounds p :
  F32_number p = true -> F32_sign p = false -> (F32_magnitude p < 1)%R ->
  rounds_to (F32.lit1 - p)%f32 false (1 - F32_magnitude p).
Proof.
  intros Hn Hs Hlt. unfold F32_number in Hn.
  apply andb_prop in Hn. destruct Hn as [Hf Hv].
  destruct p as [s | s | | s m e]; try discriminate Hf; cbn [F32_sign] in Hs; subst s.
  - cbn [F32_magnitude]. rewrite Rminus_0_r.
    change (F32.lit1 - S754_zero false)%f32 with F32.lit1.
    replace 1%R with (F32_magnitude F32.lit1)
      by (unfold F32.lit1; cbn [F32_magnitude]; rewrite <- pow2_23, <- pow2_add; apply pow2_0).
    apply rounds_to_exact. apply (number_represents F32.lit1). reflexivity.
  - cbn [F32_magnitude] in *. unfold F32.sub, F32.lit1. cbn [SFsub cond_Zopp].
    pose proof (shl_align_spec 8388608 (-23) (Z.min (-23) e)) as (Hva & Hea & _).
    pose proof (shl_align_spec m e (Z.min (-23) e)) as (Hvb & Heb & _).
    destruct (shl_align 8388608 (-23) (Z.min (-23) e)) as [ma' ea'].
    destruct (shl_align m e (Z.min (-23) e)) as [mb' eb'].
    cbn [fst snd] in *.
    replace ea' with (Z.min (-23) e) in Hva by lia.
    replace eb' with (Z.min (-23) e) in Hvb by lia.
    assert (H1 : (IZR (Z.pos 8388608) * pow2 (-23) = 1)%R).
    { rewrite <- pow2_23, <- pow2_add. apply pow2_0. }
    rewrite H1 in Hva.
    pose proof (pow2_pos (Z.min (-23) e)) as Hp.
    assert (Hd : (Z.pos mb' < Z.pos ma')%Z).
    { apply lt_IZR. apply Rmult_lt_reg_r with (pow2 (Z.min (-23) e)); [ exact Hp | ]. lra. }
    destruct (Z.pos ma' - Z.pos mb')%Z as [| q | q] eqn:Hq; try lia.
    cbn [binary_normalize].
    replace (1 - IZR (Z.pos m) * pow2 e)%R
      with (IZR (Z.pos q) * pow2 (Z.min (-23) e))%R
      by (rewrite <- Hq, minus_IZR; lra).
    apply binary_round_rounds.
Qed.

(** Between its two tests [slerp] computes [sqrt(1 - c * c)]; for
    [2^-11 <= |c| < 1] this is a number below [1]. *)
Lemma sine_below_one c :
  F32_number c = true ->
  (F32.abs c >= two_m11)%f32 = true -> (F32.abs c < F32.lit1)%f32 = true ->
  F32.is_finite (F32.sqrt (F32.lit1 - c * c)%f32) = true /\
  (F32_magnitude (F32.sqrt (F32.lit1 - c * c)%f32) < 1)%R.
Proof.
  intros Hn Hge Hlt.
  pose proof (magnitude_of_below_one c Hn Hlt) as Hu.
  pose proof (magnitude_of_above c Hn Hge) as Hl.
  pose proof (magnitude_nonneg c) as H0.
  assert (Hu32 : 0 < u32 <= / 16) by (unfold u32; lra).
  assert (He : 0 < eta32 < u32 * u32).
  { destruct eta32_bounds as (He0 & He1 & _). split; [ exact He0 | ].
    rewrite He1. pose proof (pow2_lt (-126) (-24) ltac:(lia)) as Hlt'.
    rewrite pow2_m24 in Hlt'. fold u32 in Hlt'. nra. }
  assert (H11 : pow2 (-11) * pow2 (-11) = 4 * u32).
  { rewrite <- pow2_add. change (-11 + -11)%Z with (-24 + 2)%Z.
    rewrite pow2_add, pow2_m24. change 2%Z with (1 + 1)%Z.
    rewrite pow2_succ, pow2_1. unfold u32. lra. }
  assert (H127 : 4 <= pow2 127) by apply pow2_127_big.
  set (M := F32_magnitude c) in *.
  (* the product *)
  pose proof (mul_rounds c c Hn Hn) as Hp. rewrite xorb_nilpotent in Hp. fold M in Hp.
  assert (HM2 : 4 * u32 <= M * M <= (1 - u32) * (1 - u32)).
  { rewrite <- H11. pose proof (pow2_pos (-11)). split; apply sq_mono; lra. }
  destruct (rounds_to_finite _ _ _ Hp ltac:(nra)) as (Hnp & Hsp & Hbp & _).
  rewrite pow2_m24 in Hbp. fold u32 eta32 in Hbp. apply Rabs_le_inv in Hbp.
  change (SFmul F32.prec F32.emax c c) with (c * c)%f32 in *.
  set (P := F32_magnitude (c * c)%f32) in *.
  assert (HP : 4 * u32 * (1 - u32) - u32 * u32 <= P < 1).
  { split; [ nra | ].
    apply Rle_lt_trans with ((1 - u32) * (1 - u32) * (1 + u32) + eta32); nra. }
  (* the difference *)
  pose proof (magnitude_nonneg (c * c)%f32) as H0P. fold P in H0P.
  pose proof (one_minus_rounds _ Hnp Hsp (proj2 HP)) as Hd. fold P in Hd.
  destruct (rounds_to_finite _ _ _ Hd ltac:(lra)) as (Hnd & Hsd & Hbd & _).
  rewrite pow2_m24 in Hbd. fold u32 eta32 in Hbd. apply Rabs_le_inv in Hbd.
  set (D := F32_magnitude (F32.lit1 - c * c)%f32) in *.
  assert (HD : 0 <= D <= (1 - u32) * (1 - u32)).
  { split; [ apply magnitude_nonneg | ].
    apply Rle_trans with ((1 - (4 * u32 * (1 - u32) - u32 * u32)) * (1 + u32) + u32 * u32);
      nra. }
  (* the root *)
  pose proof (sqrt_rounds _ Hnd Hsd) as Hr. fold D in Hr.
  assert (Hsq : 0 <= R_sqrt.sqrt D <= 1 - u32).
  { split; [ apply sqrt_pos | ].
    apply sq_le_inv; [ apply sqrt_pos | lra | ].
    rewrite sqrt_sqrt by lra. lra. }
  destruct (rounds_to_finite _ _ _ Hr ltac:(lra)) as (Hnr & _ & Hbr & _).
  rewrite pow2_m24 in Hbr. fold u32 eta32 in Hbr. apply Rabs_le_inv in Hbr.
  change (SFsqrt F32.prec F32.emax (F32.lit1 - c * c)%f32)
    with (F32.sqrt (F32.lit1 - c * c)%f32) in *.
  split; [ apply number_finite, Hnr | ].
  apply Rle_lt_trans with ((1 - u32) * (1 + u32) + eta32); nra.
Qed.

Local Close Scope R_scope.

(** X8: [slerp] does not interpolate.  Its second test compares an
    [int], so it holds whenever [sin_half_theta] is below [1]: for
    quaternions [a] and [b] of finite numbers with
    [2^-11 <= |a.dot(b)| < 1], [slerp(a, b, t)] is the average
    [(a + b) / 2] of the two, component by component, whatever [t] is
    and whatever libm returns. *)
Theorem slerp_below_one_is_average (a b : Quat.t) (t : F32.float) :
  Quat_numbers a = true -> Quat_numbers b = true ->
  (F32.abs (Quat.dot a b) >= two_m11) = true ->
  (F32.abs (Quat.dot a b) < F32.lit1) = true ->
  Quat.slerp a b t = Some (Quat_average a b).
Proof.
  intros Ha Hb Hge Hlt.
  assert (Hf : F32.is_finite (Quat.dot a b) = true).
  { destruct (Quat.dot a b) as [s | [] | | s m e]; try discriminate Hlt;
      reflexivity. }
  pose proof (quat_dot_numbers a b Ha Hb Hf) as Hn.
  destruct (sine_below_one _ Hn Hge Hlt) as [Hfs Hs].
  apply slerp_average.
  - apply abs_float_below_one; assumption.
  - apply abs_float_of_magnitude; assumption.
Qed.

End SlerpAverage.

Lemma slerp_below_one_is_average_witness :
  @Quat.slerp libm_at_quarter_pi libm_tan_sample sample_unit_i sample_quat F32.lit0
  = Some (Quat_average sample_unit_i sample_quat).
Proof.
  apply (@slerp_below_one_is_average libm_at_quarter_pi libm_tan_sample
           sample_unit_i sample_quat F32.lit0); reflexivity.
Defined.

(** ** Equality up to the sign of zero *)

Section SameUpToZeroSign.
Import F32.

Lemma same_sym a b : F32_same a b -> F32_same b a.
Proof. intros [-> | [Ha Hb]]; [ left | right ]; auto. Qed.

Lemma same_zeros a b : is_zero a = true -> is_zero b = true -> F32_same a b.
Proof. right. auto. Qed.

Lemma zero_finite a : is_zero a = true -> is_finite a = true.
Proof. destruct a; try discriminate; reflexivity. Qed.

Lemma same_finite a x : F32_same a x -> is_finite x = true -> is_finite a = true.
Proof. intros [-> | [Ha _]] H; [ exact H | apply zero_finite, Ha ]. Qed.

Lemma zero_neg a : is_zero a = true -> is_zero (neg a) = true.
Proof. destruct a as [[] | | |]; try discriminate; reflexivity. Qed.

Lemma finite_neg a : is_finite a = true -> is_finite (neg a) = true.
Proof. destruct a as [[] | | | [] m e]; try discriminate; reflexivity. Qed.

Lemma number_neg a : F32_number a = true -> F32_number (neg a) = true.
Proof. destruct a as [[] | | | [] m e]; try discriminate; intros H; exact H. Qed.

Lemma zero_times_l a b :
  is_zero a = true -> is_finite b = true -> is_zero (mul a b) = true.
Proof. destruct a, b; try discriminate; reflexivity. Qed.

Lemma zero_times_r a b :
  is_finite a = true -> is_zero b = true -> is_zero (mul a b) = true.
Proof. destruct a, b; try discriminate; reflexivity. Qed.

Lemma zero_minus a b :
  is_zero a = true -> is_zero b = true -> is_zero (sub a b) = true.
Proof.
  destruct a as [[] | | |], b as [[] | | |]; try discriminate; reflexivity.
Qed.

Lemma same_plus_zero_r a x z :
  F32_same a x -> is_zero z = true -> F32_same (add a z) x.
Proof.
  intros [-> | [Ha Hx]] Hz.
  - destruct x as [[] | | |], z as [[] | | |]; try discriminate;
      try (left; reflexivity); right; split; reflexivity.
  - right. split; [ apply add_zero_zero | ]; assumption.
Qed.

Lemma same_plus_zero_l a x z :
  is_zero z = true -> F32_same a x -> F32_same (add z a) x.
Proof. intros Hz H. rewrite F32_add_comm. apply same_plus_zero_r; assumption. Qed.

Lemma same_minus_zero_r a x z :
  F32_same a x -> is_zero z = true -> F32_same (sub a z) x.
Proof.
  intros [-> | [Ha Hx]] Hz.
  - destruct x as [[] | | |], z as [[] | | |]; try discriminate;
      try (left; reflexivity); right; split; reflexivity.
  - right. split; [ apply zero_minus | ]; assumption.
Qed.

Lemma same_times_one_l b y :
  F32_same b y -> F32_number y = true -> F32_same (mul lit1 b) y.
Proof.
  intros [-> | [Hb Hy]] Hn.
  - left. apply mul_one_l, Hn.
  - right. split; [ apply zero_times_r; [ reflexivity | exact Hb ] | exact Hy ].
Qed.

Lemma same_times_one_r b y :
  F32_same b y -> F32_number y = true -> F32_same (mul b lit1) y.
Proof. rewrite F32_mul_comm. apply same_times_one_l. Qed.

Lemma same_add a x b y :
  F32_same a x -> F32_same b y -> F32_same (add a b) (add x y).
Proof.
  intros [-> | [Ha Hx]] [-> | [Hb Hy]]; try (left; reflexivity).
  - destruct x as [[] | | |], b as [[] | | |], y as [[] | | |]; try discriminate;
      try (left; reflexivity); right; split; reflexivity.
  - destruct a as [[] | | |], x as [[] | | |], y as [[] | | |]; try discriminate;
      try (left; reflexivity); right; split; reflexivity.
  - right. split; apply add_zero_zero; assumption.
Qed.

Lemma same_mul a x b y :
  F32_same a x -> F32_same b y -> F32_same (mul a b) (mul x y).
Proof.
  intros [-> | [Ha Hx]] [-> | [Hb Hy]]; try (left; reflexivity).
  - destruct x as [[] | [] | | [] ? ?], b as [[] | | |], y as [[] | | |];
      try discriminate; try (left; reflexivity); right; split; reflexivity.
  - destruct a as [[] | | |], x as [[] | | |], y as [[] | [] | | [] ? ?];
      try discriminate; try (left; reflexivity); right; split; reflexivity.
  - right. split; apply zero_times_l; auto using zero_finite.
Qed.

Lemma same_neg a x : F32_same a x -> F32_same (neg a) (neg x).
Proof.
  intros [-> | [Ha Hx]]; [ left; reflexivity | right; split; apply zero_neg; assumption ].
Qed.

(** [-1 * x] is [-x]. *)
Lemma times_minus_one_l x : F32_number x = true -> mul (neg lit1) x = neg x.
Proof. intros H. rewrite F32_mul_neg_l, mul_one_l by exact H. reflexivity. Qed.

End SameUpToZeroSign.

Create HintDb f32s discriminated.
#[global] Hint Resolve same_refl same_zeros zero_finite zero_neg finite_neg
  number_neg number_finite zero_times_l zero_times_r zero_minus add_zero_zero
  same_plus_zero_r same_plus_zero_l same_minus_zero_r same_times_one_l
  same_times_one_r : f32s.
#[global] Hint Resolve same_add same_mul same_neg | 4 : f32s.

(** Case analysis on a cell index below a bound. *)
Ltac cells_below n tac :=
  first [ lia | destruct n as [| n]; [ tac | cells_below n tac ] ].

(** The facts on the components of a vector or quaternion of numbers. *)
Ltac component_facts H :=
  unfold Vec2_numbers, Vec3_numbers, Vec4_numbers, Quat_numbers in H;
  cbn [Vec2.x Vec2.y Vec3.x Vec3.y Vec3.z Vec4.x Vec4.y Vec4.z Vec4.w
       Quat.i Quat.j Quat.k Quat.r] in H;
  repeat match type of H with
         | (_ && _ = true) =>
             let H1 := fresh "Hn" in
             apply andb_prop in H; destruct H as [H H1]
         end.

(** ** Neutral elements *)

Section NeutralElements.

(** X9: for a vector [v] of finite numbers, [identity() * v] is [v],
    component by component, up to the sign of a zero. *)
Theorem Mat4_identity_times_vec4 (v : Vec4.t) :
  Vec4_numbers v = true ->
  Vec4_same (Mat4.returned (Mat4.times_vec4 v) Mat4.identity) v.
Proof.
  intros H. destruct v as [x y z w]. component_facts H.
  repeat split; cbn; auto 10 with f32s.
Qed.

Lemma Mat4_identity_times_vec4_witness :
  Vec4_same (Mat4.returned (Mat4.times_vec4 sample_vec4) Mat4.identity) sample_vec4.
Proof. apply Mat4_identity_times_vec4. reflexivity. Defined.

(** X10: [scale(s)] and [translate(t)] touch different cells, so
    they commute on any matrix; applied to [identity()] they give a
    matrix that sends the point [(p, 1)] to [(s * p + t, 1)],
    component by component in binary32, up to the sign of a zero. *)
Theorem scale_translate_point (m : Mat4.t) (s t p : Vec3.t) :
  Mat4.receiver (Mat4.bind (Mat4.scale s) (fun _ => Mat4.translate t)) m
  = Mat4.receiver (Mat4.bind (Mat4.translate t) (fun _ => Mat4.scale s)) m /\
  (Vec3_numbers s = true -> Vec3_numbers t = true -> Vec3_numbers p = true ->
   Vec4_same
     (Mat4.returned
        (Mat4.times_vec4 (Vec4.Vec4 (Vec3.x p) (Vec3.y p) (Vec3.z p) F32.lit1))
        (Mat4.receiver (Mat4.bind (Mat4.scale s) (fun _ => Mat4.translate t))
           Mat4.identity))
     (Vec4.Vec4 (Vec3.x s * Vec3.x p + Vec3.x t)
                (Vec3.y s * Vec3.y p + Vec3.y t)
                (Vec3.z s * Vec3.z p + Vec3.z t)
                F32.lit1)).
Proof.
  split; [ destruct m; reflexivity | ].
  intros Hs Ht Hp. destruct s as [sx sy sz], t as [tx ty tz], p as [px py pz].
  component_facts Hs. component_facts Ht. component_facts Hp.
  repeat split; cbn; rewrite ?mul_one_l by assumption; auto 10 with f32s.
Qed.

Lemma scale_translate_point_witness :
  Vec4_same
    (Mat4.returned
       (Mat4.times_vec4 (Vec4.Vec4 F32.lit2 F32.lit0_5 minus1 F32.lit1))
       (Mat4.receiver
          (Mat4.bind (Mat4.scale sample_vec3) (fun _ => Mat4.translate sample_vec3))
          Mat4.identity))
    (Vec4.Vec4 (F32.lit2 * F32.lit2 + F32.lit2)
               (F32.lit0_5 * F32.lit0_5 + F32.lit0_5)
               (minus1 * minus1 + minus1)
               F32.lit1).
Proof.
  apply (proj2 (scale_translate_point Mat4.identity sample_vec3 sample_vec3 sample_vec3));
    reflexivity.
Defined.

(** X11: the identity quaternion is neutral and rotates nothing.
    For [q] of finite numbers, [q * identity()] and [identity() * q]
    are [q]; for [v] of finite numbers, [identity() * v] has the [x],
    [y], [z] of [v], on [Vec4] (where [w] becomes [1]) and on [Vec3];
    each up to the sign of a zero. *)
Theorem Quat_identity_neutral (q : Quat.t) (v : Vec3.t) (w : F32.float) :
  (Quat_numbers q = true ->
   Quat_same (Quat.times q Quat.identity) q /\
   Quat_same (Quat.times Quat.identity q) q) /\
  (Vec3_numbers v = true ->
   Vec4_same
     (Quat.times_vec4 Quat.identity (Vec4.Vec4 (Vec3.x v) (Vec3.y v) (Vec3.z v) w))
     (Vec4.Vec4 (Vec3.x v) (Vec3.y v) (Vec3.z v) F32.lit1) /\
   Vec3_same (Quat.times_vec3 Quat.identity v) v).
Proof.
  split.
  - intros H. destruct q as [i j k r]. component_facts H.
    repeat split; cbn; auto 12 with f32s.
  - intros H. destruct v as [x y z]. component_facts H.
    unfold Quat.times_vec3, Quat.times_vec4.
    cbn [Vec4.x Vec4.y Vec4.z Vec4.w Vec3.x Vec3.y Vec3.z].
    set (q1 := Quat.times (Quat.Quat x y z F32.lit0) (Quat.conjugate Quat.identity)).
    assert (H1 : F32_same (Quat.i q1) x /\ F32_same (Quat.j q1) y /\
                 F32_same (Quat.k q1) z /\ F32.is_zero (Quat.r q1) = true).
    { repeat split; cbn; auto 12 with f32s. }
    destruct H1 as (Hi & Hj & Hk & Hr).
    destruct q1 as [i1 j1 k1 r1]. cbn [Quat.i Quat.j Quat.k Quat.r] in *.
    pose proof (same_finite _ _ Hi (number_finite _ H)) as Hfi.
    pose proof (same_finite _ _ Hj (number_finite _ Hn0)) as Hfj.
    pose proof (same_finite _ _ Hk (number_finite _ Hn)) as Hfk.
    repeat split; cbn; auto 12 with f32s.
Qed.

Lemma Quat_identity_neutral_witness :
  Quat_same (Quat.times sample_quat Quat.identity) sample_quat /\
  Vec3_same (Quat.times_vec3 Quat.identity sample_vec3) sample_vec3.
Proof.
  destruct (Quat_identity_neutral sample_quat sample_vec3 F32.lit0) as [Hq Hv].
  split; [ apply (proj1 (Hq eq_refl)) | apply (proj2 (Hv eq_refl)) ].
Defined.

(** X12: [rotate] by the identity quaternion leaves a matrix of finite
    numbers as it was: each cell compares equal ([==]) to what it
    held, and is the very same value where that is not a zero. *)
Theorem rotate_by_identity (m : Mat4.t) (n : nat) :
  (forall i, (i < 16)%nat -> F32_number (Mat4.data m i) = true) ->
  (n < 16)%nat ->
  (Mat4.data (Mat4.receiver (Mat4_rotate Quat.identity) m) n == Mat4.data m n) = true /\
  (F32.is_zero (Mat4.data m n) = false ->
   Mat4.data (Mat4.receiver (Mat4_rotate Quat.identity) m) n = Mat4.data m n).
Proof.
  intros H Hn.
  change (Mat4.receiver (Mat4_rotate Quat.identity) m)
    with (Mat4.product (Quat.to_mat4 Quat.identity) m).
  replace (Quat.to_mat4 Quat.identity) with Mat4.identity
    by (vm_compute; reflexivity).
  pose proof (identity_times_same m n H Hn) as Hs.
  pose proof (number_finite _ (H n Hn)) as Hf.
  split; auto using same_eqb, same_nonzero.
Qed.

Lemma rotate_by_identity_witness :
  (Mat4.data (Mat4.receiver (Mat4_rotate Quat.identity) sample_1_to_16) 7
   == Mat4.data sample_1_to_16 7) = true /\
  (F32.is_zero (Mat4.data sample_1_to_16 7) = false ->
   Mat4.data (Mat4.receiver (Mat4_rotate Quat.identity) sample_1_to_16) 7
   = Mat4.data sample_1_to_16 7).
Proof. apply (rotate_by_identity sample_1_to_16 7 sample_cells_numbers). lia. Defined.

End NeutralElements.

(** ** Mat4: perspective *)

Section Perspective.
Context {cmath : Cmath.Double}.

(** X13: how [perspective(fov, aspect, near, far)] acts on a vector
    [v] of finite numbers: with [s] the [float] that the quotient of
    [1.0] by [tan(fov / 2.0f)], taken in [double], is rounded to, the
    product [perspective * v] is [(s / aspect * x, s * y,
    -far / (far - near) * z + -(far * near) / (far - near) * w, -z)],
    up to the sign of a zero; its [w] is [-v.z] whatever the four
    parameters are. *)
Theorem perspective_times_vec4 (fov aspect near far : F32.float) (v : Vec4.t) :
  Vec4_numbers v = true ->
  let s :=
    F64.to_f32
      (F64.div (F64.of_f32 F32.lit1)
               (Cmath.tan (F64.of_f32 (fov / F32.lit2)))) in
  Vec4_same
    (Mat4.returned (Mat4.times_vec4 v) (Mat4.perspective fov aspect near far))
    (Vec4.Vec4 (s / aspect * Vec4.x v)
               (s * Vec4.y v)
               (- far / (far - near) * Vec4.z v
                + - (far * near) / (far - near) * Vec4.w v)
               (- Vec4.z v)).
Proof.
  intros H s. destruct v as [x y z w]. component_facts H.
  repeat split; cbn -[s]; fold s.
  - auto 10 with f32s.
  - apply same_plus_zero_r; [ | auto with f32s ].
    apply same_plus_zero_r; [ | auto with f32s ].
    apply same_plus_zero_l; auto with f32s.
  - apply same_add; [ | apply same_refl ].
    apply same_plus_zero_l; auto with f32s.
  - apply same_plus_zero_r; [ | auto with f32s ].
    apply same_plus_zero_l; [ auto with f32s | ].
    left. apply times_minus_one_l. assumption.
Qed.


End Perspective.

Lemma perspective_times_vec4_witness :
  F32_same
    (Vec4.w (Mat4.returned (Mat4.times_vec4 sample_vec4)
               (@Mat4.perspective libm_tan_sample F32.lit1 F32.lit1 F32.lit1 F32.lit2)))
    (- Vec4.z sample_vec4).
Proof.
  apply (@perspective_times_vec4 libm_tan_sample F32.lit1 F32.lit1 F32.lit1 F32.lit2
           sample_vec4 eq_refl).
Defined.


(** ** Vec3: cross *)

Section CrossProduct.
Import F32.

(** Subtraction is antisymmetric, up to the sign of a zero result. *)
Lemma sub_antisym x y : F32_same (sub x y) (neg (sub y x)).
Proof.
  destruct x as [[] | [] | | sx mx ex], y as [[] | [] | | sy my ey];
    try (left; reflexivity); try (right; split; reflexivity);
    try (left; destruct sx; reflexivity); try (left; destruct sy; reflexivity).
  unfold sub, neg, SFsub. rewrite (Z.min_comm ey ex).
  set (ez := Z.min ex ey).
  set (A := cond_Zopp sx (Z.pos (fst (shl_align mx ex ez)))).
  set (B := cond_Zopp sy (Z.pos (fst (shl_align my ey ez)))).
  destruct (Z.eq_dec (A - B) 0) as [E | E].
  - right. rewrite E. replace (B - A)%Z with 0%Z by lia. split; reflexivity.
  - left. rewrite binary_normalize_opp by lia. f_equal. lia.
Qed.

(** X15: the cross product is antisymmetric up to the sign of a
    zero, [a.cross(b)] against [-(b.cross(a))], for every input; and
    [a.cross(a)] is the zero vector [(+0, +0, +0)] whenever the three
    products of two components of [a] are finite. *)
Theorem cross_antisymmetric (a b : Vec3.t) :
  Vec3_same (Vec3.cross a b) (Vec3.neg (Vec3.cross b a)) /\
  (is_finite (Vec3.y a * Vec3.z a) = true ->
   is_finite (Vec3.z a * Vec3.x a) = true ->
   is_finite (Vec3.x a * Vec3.y a) = true ->
   Vec3.cross a a = Vec3.Vec3 lit0 lit0 lit0).
Proof.
  destruct a as [ax ay az], b as [bx by' bz]. split.
  - unfold Vec3_same, Vec3.cross, Vec3.neg. cbn [Vec3.x Vec3.y Vec3.z].
    rewrite (F32_mul_comm by' az), (F32_mul_comm bz ay), (F32_mul_comm bz ax),
      (F32_mul_comm bx az), (F32_mul_comm bx ay), (F32_mul_comm by' ax).
    repeat split; apply sub_antisym.
  - cbn [Vec3.x Vec3.y Vec3.z]. intros H1 H2 H3. unfold Vec3.cross.
    cbn [Vec3.x Vec3.y Vec3.z].
    rewrite (F32_mul_comm az ay), (F32_mul_comm ax az), (F32_mul_comm ay ax).
    rewrite !F32_sub_self by assumption. reflexivity.
Qed.

Lemma cross_antisymmetric_witness :
  Vec3.cross sample_vec3 sample_vec3 = Vec3.Vec3 lit0 lit0 lit0.
Proof.
  apply (proj2 (cross_antisymmetric sample_vec3 sample_vec3)); reflexivity.
Defined.

End CrossProduct.

(** ** Lengths are never negative *)

Section LengthSign.
Import F32.

(** Sign bit clear, and a binary32 value (NaN included). *)
Local Abbreviation unsigned r := (F32_sign r = false /\ valid r = true).

Lemma rounds_to_unsigned res x :
  rounds_to res false x -> unsigned res /\ is_nan res = false.
Proof.
  intros [[-> _] | (v & Hr & _)]; [ repeat split | ].
  apply represents_facts in Hr. destruct Hr as (Hn & Hs & _).
  unfold F32_number in Hn. apply andb_prop in Hn. destruct Hn as [Hf Hv].
  repeat split; try assumption. destruct res; try discriminate; reflexivity.
Qed.

Lemma square_facts x :
  valid x = true -> unsigned (mul x x) /\ is_nan (mul x x) = is_nan x.
Proof.
  intros Hv. destruct x as [[] | [] | | s m e]; try (repeat split; reflexivity).
  assert (Hn : F32_number (S754_finite s m e) = true) by exact Hv.
  pose proof (mul_rounds _ _ Hn Hn) as Hr. cbn [F32_sign] in Hr.
  rewrite xorb_nilpotent in Hr. apply rounds_to_unsigned in Hr.
  unfold mul. tauto.
Qed.

Lemma add_facts a b :
  unsigned a -> unsigned b ->
  unsigned (add a b) /\ is_nan (add a b) = is_nan a || is_nan b.
Proof.
  intros [Hsa Hva] [Hsb Hvb].
  destruct a as [sa | sa | | sa ma ea], b as [sb | sb | | sb mb eb];
    cbn [F32_sign] in Hsa, Hsb; subst;
    try (repeat split; solve [ reflexivity | assumption ]).
  assert (H : rounds_to (add (S754_finite false ma ea) (S754_finite false mb eb))
                false (F32_magnitude (S754_finite false ma ea)
                       + F32_magnitude (S754_finite false mb eb))%R).
  { apply add_rounds; solve [ reflexivity | assumption ]. }
  apply rounds_to_unsigned in H. cbn [is_nan orb]. tauto.
Qed.

Lemma sqrt_facts a :
  unsigned a -> unsigned (sqrt a) /\ is_nan (sqrt a) = is_nan a.
Proof.
  intros [Hs Hv].
  destruct a as [sa | sa | | sa ma ea]; cbn [F32_sign] in Hs; subst;
    try (repeat split; reflexivity).
  assert (H : rounds_to (sqrt (S754_finite false ma ea)) false
                (R_sqrt.sqrt (F32_magnitude (S754_finite false ma ea)))).
  { apply sqrt_rounds; solve [ reflexivity | assumption ]. }
  apply rounds_to_unsigned in H. cbn [is_nan]. tauto.
Qed.

Lemma unsigned_not_below_zero r : F32_sign r = false -> (r < lit0) = false.
Proof. destruct r as [[] | [] | | [] m e]; try discriminate; reflexivity. Qed.

(** X16: [length_squared()] and [length()] of a [Vec2], [Vec3] or
    [Vec4] of binary32 values are never negative: the result is NaN
    exactly when a component is NaN, and otherwise its sign bit is
    clear (it is [+0], a positive number or [+infinity]), so
    [length() < 0] is false for every vector. *)
Theorem length_never_negative :
  (forall v, valid (Vec2.x v) = true -> valid (Vec2.y v) = true ->
     is_nan (Vec2.length v) = is_nan (Vec2.x v) || is_nan (Vec2.y v) /\
     F32_sign (Vec2.length_squared v) = false /\
     F32_sign (Vec2.length v) = false /\
     (Vec2.length v < lit0) = false) /\
  (forall v, valid (Vec3.x v) = true -> valid (Vec3.y v) = true ->
     valid (Vec3.z v) = true ->
     is_nan (Vec3.length v)
     = is_nan (Vec3.x v) || is_nan (Vec3.y v) || is_nan (Vec3.z v) /\
     F32_sign (Vec3.length_squared v) = false /\
     F32_sign (Vec3.length v) = false /\
     (Vec3.length v < lit0) = false) /\
  (forall v, valid (Vec4.x v) = true -> valid (Vec4.y v) = true ->
     valid (Vec4.z v) = true -> valid (Vec4.w v) = true ->
     is_nan (Vec4.length v)
     = is_nan (Vec4.x v) || is_nan (Vec4.y v) || is_nan (Vec4.z v)
       || is_nan (Vec4.w v) /\
     F32_sign (Vec4.length_squared v) = false /\
     F32_sign (Vec4.length v) = false /\
     (Vec4.length v < lit0) = false).
Proof.
  split; [ | split ].
  - intros [x y]. cbn [Vec2.x Vec2.y]. intros Hx Hy.
    unfold Vec2.length, Vec2.length_squared, Vec2.dot. cbn [Vec2.x Vec2.y].
    destruct (square_facts x Hx) as [Ux Nx], (square_facts y Hy) as [Uy Ny].
    destruct (add_facts _ _ Ux Uy) as [U1 N1].
    destruct (sqrt_facts _ U1) as [Us Ns].
    rewrite Ns, N1, Nx, Ny.
    repeat split; try tauto. apply unsigned_not_below_zero. tauto.
  - intros [x y z]. cbn [Vec3.x Vec3.y Vec3.z]. intros Hx Hy Hz.
    unfold Vec3.length, Vec3.length_squared, Vec3.dot. cbn [Vec3.x Vec3.y Vec3.z].
    destruct (square_facts x Hx) as [Ux Nx], (square_facts y Hy) as [Uy Ny],
      (square_facts z Hz) as [Uz Nz].
    destruct (add_facts _ _ Ux Uy) as [U1 N1].
    destruct (add_facts _ _ U1 Uz) as [U2 N2].
    destruct (sqrt_facts _ U2) as [Us Ns].
    rewrite Ns, N2, N1, Nx, Ny, Nz.
    repeat split; try tauto. apply unsigned_not_below_zero. tauto.
  - intros [x y z w]. cbn [Vec4.x Vec4.y Vec4.z Vec4.w]. intros Hx Hy Hz Hw.
    unfold Vec4.length, Vec4.length_squared, Vec4.dot.
    cbn [Vec4.x Vec4.y Vec4.z Vec4.w].
    destruct (square_facts x Hx) as [Ux Nx], (square_facts y Hy) as [Uy Ny],
      (square_facts z Hz) as [Uz Nz], (square_facts w Hw) as [Uw Nw].
    destruct (add_facts _ _ Ux Uy) as [U1 N1].
    destruct (add_facts _ _ U1 Uz) as [U2 N2].
    destruct (add_facts _ _ U2 Uw) as [U3 N3].
    destruct (sqrt_facts _ U3) as [Us Ns].
    rewrite Ns, N3, N2, N1, Nx, Ny, Nz, Nw.
    repeat split; try tauto. apply unsigned_not_below_zero. tauto.
Qed.

Lemma length_never_negative_witness :
  is_nan (Vec3.length sample_overflow) = false /\
  F32_sign (Vec3.length sample_overflow) = false.
Proof.
  destruct length_never_negative as (_ & H3 & _).
  destruct (H3 sample_overflow eq_refl eq_refl eq_refl) as (Hn & _ & Hs & _).
  split; [ exact Hn | exact Hs ].
Defined.

End LengthSign.

(** ** Division by one *)

Section DivOne.
Import F32.

Lemma div_eucl_exact a b q :
  (0 < b)%Z -> a = (q * b)%Z -> Z.div_eucl a b = (q, 0%Z).
Proof.
  intros Hb Ha. pose proof (Z_div_mod a b ltac:(lia)) as H.
  destruct (Z.div_eucl a b) as [q' r']. destruct H as [Heq Hr].
  assert (q' = q) by nia. subst q'. f_equal. lia.
Qed.

Lemma div_one_finite s m e :
  valid (S754_finite s m e) = true ->
  div (S754_finite s m e) lit1 = S754_finite s m e.
Proof.
  unfold valid, valid_binary, bounded, canonical_mantissa.
  intros H. apply andb_prop in H. destruct H as [Hc Hb].
  apply Z.eqb_eq in Hc. pose proof Hc as Hc'. rewrite fexp_eq in Hc'.
  unfold div, SFdiv, lit1. rewrite xorb_false_r.
  unfold SFdiv_core_binary.
  change (Zdigits2 (Z.pos m)) with (Z.pos (digits2_pos m)).
  change (Zdigits2 8388608) with 24%Z.
  rewrite fexp_eq.
  set (d := Z.pos (digits2_pos m)) in *.
  destruct (Z.eq_dec e (-149)) as [He | He].
  - replace (Z.min (Z.max (d + e - (24 + -23) - 24) (-149)) (e - -23)) with e by lia.
    replace (e - -23 - e)%Z with 23%Z by lia.
    rewrite (div_eucl_exact _ _ (Z.pos m)); [ | lia | rewrite Z.shiftl_mul_pow2 by lia; reflexivity ].
    change (new_location 8388608 0) with loc_Exact.
    unfold binary_round_aux.
    rewrite (shr_fexp_canonical _ _ Hc). cbn [shr_m loc_of_shr_record round_nearest_even].
    rewrite (shr_fexp_canonical _ _ Hc). cbn [shr_m]. rewrite Hb. reflexivity.
  - replace (Z.min (Z.max (d + e - (24 + -23) - 24) (-149)) (e - -23)) with (e - 1)%Z by lia.
    replace (e - -23 - (e - 1))%Z with 24%Z by lia.
    rewrite (div_eucl_exact _ _ (Z.pos m~0)); [ | lia | rewrite Z.shiftl_mul_pow2 by lia; change (2 ^ 24)%Z with 16777216%Z; lia ].
    change (new_location 8388608 0) with loc_Exact.
    unfold binary_round_aux.
    assert (Hs : shr_fexp prec emax (Z.pos m~0) (e - 1) loc_Exact
                 = (Build_shr_record (Z.pos m) false false, e)).
    { unfold shr_fexp, Zdigits2. cbn [digits2_pos]. rewrite Pos2Z.inj_succ.
      fold d. replace (Z.succ d + (e - 1))%Z with (d + e)%Z by lia.
      rewrite Hc. replace (e - (e - 1))%Z with 1%Z by lia.
      cbv [shr iter_pos shr_1 shr_record_of_loc orb]. f_equal. lia. }
    rewrite Hs. cbn [shr_m loc_of_shr_record round_nearest_even].
    rewrite (shr_fexp_canonical _ _ Hc). cbn [shr_m]. rewrite Hb. reflexivity.
Qed.

(** Division by [1.0f] is exact. *)
Lemma div_one x : valid x = true -> div x lit1 = x.
Proof.
  destruct x as [[] | [] | | s m e]; try reflexivity. apply div_one_finite.
Qed.

End DivOne.

(** ** Negation, conjugation and transposition *)

Section Negation.
Import F32.

Lemma eqb_one c : (c == lit1) = true -> c = lit1.
Proof.
  unfold eqb, SFeqb, SFcompare, lit1.
  destruct c as [[] | [] | | [] m e]; try discriminate.
  destruct (e ?= -23)%Z eqn:He; try discriminate.
  destruct (Pos.compare_cont Eq m 8388608) eqn:Hm; try discriminate.
  apply Z.compare_eq in He. apply Pos.compare_eq in Hm. subst e m.
  reflexivity.
Qed.

Lemma valid_neg x : valid (neg x) = valid x.
Proof. destruct x as [[] | [] | | [] m e]; reflexivity. Qed.

Lemma sub_neg x y : sub x (neg y) = add x y.
Proof.
  destruct x as [[] | [] | | sx mx ex], y as [[] | [] | | sy my ey];
    try reflexivity; destruct sy; reflexivity.
Qed.

Lemma add_neg x y : add x (neg y) = sub x y.
Proof. rewrite <- (F32_neg_involutive y) at 2. rewrite sub_neg. reflexivity. Qed.



(** X17: for a quaternion [q] of finite numbers whose squared norm
    [i*i + j*j + k*k + r*r] evaluates to [1.0f], [q.inverse()] is
    [q.conjugate()], bit for bit. *)
Theorem inverse_of_unit_is_conjugate (q : Quat.t) :
  Quat_numbers q = true -> Quat_is_unit q = true ->
  Quat.inverse q = Quat.conjugate q.
Proof.
  intros H Hu. unfold Quat_is_unit in Hu. apply eqb_one in Hu.
  unfold Quat.inverse. unfold Quat.dot in Hu. rewrite Hu.
  destruct q as [i j k r]. component_facts H.
  unfold Quat.div_scalar, Quat.conjugate. cbn [Quat.i Quat.j Quat.k Quat.r].
  unfold F32_number in *.
  repeat match goal with
         | H : _ && _ = true |- _ => apply andb_prop in H; destruct H
         end.
  rewrite !div_one; rewrite ?valid_neg; auto.
Qed.

Lemma inverse_of_unit_is_conjugate_witness :
  Quat.inverse sample_quat = Quat.conjugate sample_quat.
Proof. apply inverse_of_unit_is_conjugate; reflexivity. Defined.

Lemma to_mat4_conjugate (q : Quat.t) :
  Quat.to_mat4 (Quat.conjugate q)
  = Mat4.returned Mat4.transpose (Quat.to_mat4 q).
Proof.
  destruct q as [i j k r].
  cbv [Quat.to_mat4 Quat.conjugate Quat.i Quat.j Quat.k Quat.r
       Mat4.returned Mat4.transpose Mat4.bind Mat4.self Mat4.ret fst
       Mat4.Mat4 Mat4.store Mat4.zero Mat4.data].
  rewrite !F32_mul_neg_r, !F32_mul_neg_l, !F32_neg_involutive,
    ?sub_neg, ?add_neg.
  reflexivity.
Qed.


(** X19: [m * v] on a vector reads [m] by columns, where the matrix
    product reads its left operand by rows: [m.transpose() * v] is the
    first column of the matrix product of [m] with the matrix whose
    first column is [v], bit for bit.  So what
    [q.conjugate().to_mat4() * v] returns is what the matrix product
    makes of [q.to_mat4()] and [v]. *)
Theorem times_vec4_reads_columns (m : Mat4.t) (q : Quat.t) (v : Vec4.t) :
  Mat4.returned (Mat4.times_vec4 v) (Mat4.returned Mat4.transpose m)
  = Mat4_first_column (Mat4.product m (Mat4_of_column v)) /\
  Mat4.returned (Mat4.times_vec4 v) (Quat.to_mat4 (Quat.conjugate q))
  = Mat4_first_column (Mat4.product (Quat.to_mat4 q) (Mat4_of_column v)).
Proof.
  assert (H : forall n : Mat4.t,
             Mat4.returned (Mat4.times_vec4 v) (Mat4.returned Mat4.transpose n)
             = Mat4_first_column (Mat4.product n (Mat4_of_column v))).
  { intros n. destruct n, v. reflexivity. }
  split; [ apply H | ]. rewrite to_mat4_conjugate. apply H.
Qed.


Lemma div_self_finite s m e :
  div (S754_finite s m e) (S754_finite s m e) = lit1.
Proof.
  unfold div, SFdiv, SFdiv_core_binary. rewrite !Z.sub_diag, xorb_nilpotent.
  change (Z.min (fexp prec emax 0) 0) with (-24)%Z.
  change (0 - -24)%Z with 24%Z.
  rewrite (div_eucl_exact _ _ 16777216);
    [ | lia | rewrite Z.shiftl_mul_pow2 by lia; change (2 ^ 24)%Z with 16777216%Z; lia ].
  replace (new_location (Z.pos m) 0) with loc_Exact
    by (unfold new_location; destruct (Z.even (Z.pos m)); reflexivity).
  reflexivity.
Qed.

(** A finite number that is not a zero, divided by itself, is [1.0f]. *)
Lemma div_self x : is_finite x = true -> is_zero x = false -> div x x = lit1.
Proof.
  destruct x as [| | | s m e]; try discriminate. intros _ _. apply div_self_finite.
Qed.


Lemma number_valid x : F32_number x = true -> valid x = true.
Proof. unfold F32_number. intros H. apply andb_prop in H. tauto. Qed.



(** X22: multiplying or dividing by [1.0f] changes nothing, and a
    vector divided by itself is all ones: for [v] of finite numbers,
    [v * 1.0f] and [v / 1.0f] are [v], bit for bit, on [Vec2], [Vec3]
    and [Quat]; and [v / v] is [(1, 1, 1)] when no component of [v] is
    a zero. *)
Theorem unit_scalar_and_self_quotient :
  (forall v, Vec2_numbers v = true ->
     Vec2.times_scalar v lit1 = v /\ Vec2.div_scalar v lit1 = v) /\
  (forall v, Vec3_numbers v = true ->
     Vec3.times_scalar v lit1 = v /\ Vec3.div_scalar v lit1 = v) /\
  (forall q, Quat_numbers q = true ->
     Quat.times_scalar q lit1 = q /\ Quat.div_scalar q lit1 = q) /\
  (forall v, Vec3_numbers v = true ->
     is_zero (Vec3.x v) = false -> is_zero (Vec3.y v) = false ->
     is_zero (Vec3.z v) = false ->
     Vec3.div v v = Vec3.Vec3 lit1 lit1 lit1).
Proof.
  repeat apply conj.
  - intros [x y] H. component_facts H.
    unfold Vec2.times_scalar, Vec2.div_scalar. cbn [Vec2.x Vec2.y].
    rewrite !mul_one_r, !div_one by auto using number_valid. split; reflexivity.
  - intros [x y z] H. component_facts H.
    unfold Vec3.times_scalar, Vec3.div_scalar. cbn [Vec3.x Vec3.y Vec3.z].
    rewrite !mul_one_r, !div_one by auto using number_valid. split; reflexivity.
  - intros [i j k r] H. component_facts H.
    unfold Quat.times_scalar, Quat.div_scalar. cbn [Quat.i Quat.j Quat.k Quat.r].
    rewrite !mul_one_r, !div_one by auto using number_valid. split; reflexivity.
  - intros [x y z] H. component_facts H. cbn [Vec3.x Vec3.y Vec3.z].
    intros Hx Hy Hz. unfold Vec3.div. cbn [Vec3.x Vec3.y Vec3.z].
    rewrite !div_self by auto using number_finite. reflexivity.
Qed.

Lemma unit_scalar_and_self_quotient_witness :
  Vec3.times_scalar sample_vec3 lit1 = sample_vec3 /\
  Vec3.div sample_vec3 sample_vec3 = Vec3.Vec3 lit1 lit1 lit1.
Proof.
  destruct unit_scalar_and_self_quotient as (_ & H3 & _ & Hd).
  split; [ apply (proj1 (H3 sample_vec3 eq_refl)) | apply Hd; reflexivity ].
Defined.

End Negation.

(** ** Quat: lerp at its end points *)

Section LerpEndPoints.
Import F32.

Lemma square_same a x : F32_same a x -> mul a a = mul x x.
Proof.
  intros [-> | [Ha Hx]]; [ reflexivity | ].
  destruct a as [[] | | |], x as [[] | | |]; try discriminate; reflexivity.
Qed.

Lemma same_div_l a x d : F32_same a x -> F32_same (div a d) (div x d).
Proof.
  intros [-> | [Ha Hx]]; [ left; reflexivity | ].
  destruct a as [[] | | |], x as [[] | | |], d as [[] | [] | | [] ? ?];
    try discriminate; try (left; reflexivity); right; split; reflexivity.
Qed.

Lemma normalize_same (p q : Quat.t) :
  Quat_same p q -> Quat_same (Quat.normalize p) (Quat.normalize q).
Proof.
  destruct p as [pi pj pk pr], q as [qi qj qk qr].
  unfold Quat_same, Quat.normalize. cbn [Quat.i Quat.j Quat.k Quat.r].
  intros (Hi & Hj & Hk & Hr).
  rewrite (square_same _ _ Hi), (square_same _ _ Hj), (square_same _ _ Hk),
    (square_same _ _ Hr).
  repeat split; apply same_div_l; assumption.
Qed.

(** X23: [lerp] meets its end points: for [a] and [b] of finite
    numbers, [lerp(a, b, 0)] is [a.normalize()] and [lerp(a, b, 1)] is
    [b.normalize()], up to the sign of a zero. *)
Theorem lerp_end_points (a b : Quat.t) :
  Quat_numbers a = true -> Quat_numbers b = true ->
  Quat_same (Quat.lerp a b lit0) (Quat.normalize a) /\
  Quat_same (Quat.lerp a b lit1) (Quat.normalize b).
Proof.
  intros Ha Hb. destruct a as [ai aj ak ar], b as [bi bj bk br].
  component_facts Ha. component_facts Hb.
  unfold Quat.lerp.
  change (lit1 - lit0) with lit1. change (lit1 - lit1) with lit0.
  split; apply normalize_same; repeat split; cbn; auto 10 with f32s.
Qed.

Lemma lerp_end_points_witness :
  Quat_same (Quat.lerp sample_quat sample_quarter_turn lit0)
            (Quat.normalize sample_quat) /\
  Quat_same (Quat.lerp sample_quat sample_quarter_turn lit1)
            (Quat.normalize sample_quarter_turn).
Proof. apply lerp_end_points; reflexivity. Defined.

End LerpEndPoints.

(** ** The projection of the example applications *)

Section ExampleProjection.
Import F32.

(** Adding a normal number to itself raises its exponent, or overflows. *)
Lemma add_self_normal s m e :
  Z.pos (digits2_pos m) = 24%Z -> (-149 <= e)%Z ->
  add (S754_finite s m e) (S754_finite s m e)
  = if (e + 1 <=? 104)%Z then S754_finite s m (e + 1) else S754_infinity s.
Proof.
  intros Hd He. unfold add, SFadd. rewrite Z.min_id, shl_align_same. cbn [fst].
  assert (Hsum : (cond_Zopp s (Z.pos m) + cond_Zopp s (Z.pos m))%Z
                 = cond_Zopp s (Z.pos m~0))
    by (destruct s; cbn; rewrite Pos.add_diag; reflexivity).
  rewrite Hsum.
  assert (Hr : binary_round prec emax s m~0 e
               = if (e + 1 <=? 104)%Z then S754_finite s m (e + 1)
                 else S754_infinity s).
  { unfold binary_round. cbn [digits2_pos]. rewrite Pos2Z.inj_succ, Hd, fexp_eq.
    replace (Z.max (Z.succ 24 + e - 24) (-149)) with (e + 1)%Z by lia.
    assert (Hal' : shl_align m~0 e (e + 1) = (m~0, e)%positive).
    { unfold shl_align. replace (e + 1 - e)%Z with 1%Z by lia. reflexivity. }
    rewrite Hal'. unfold binary_round_aux.
    assert (Hs : shr_fexp prec emax (Z.pos m~0) e loc_Exact
                 = (Build_shr_record (Z.pos m) false false, (e + 1)%Z)).
    { unfold shr_fexp, Zdigits2. cbn [digits2_pos].
      rewrite Pos2Z.inj_succ, Hd, fexp_eq.
      replace (Z.max _ _ - e)%Z with 1%Z by lia.
      cbv [shr iter_pos shr_1 shr_record_of_loc orb]. reflexivity. }
    rewrite Hs. cbn [shr_m loc_of_shr_record round_nearest_even].
    rewrite shr_fexp_canonical by (rewrite Hd, fexp_eq; lia).
    cbn [shr_m]. reflexivity. }
  destruct s; cbn [cond_Zopp Z.opp binary_normalize]; exact Hr.
Qed.

(** Scaling both operands of a division by two leaves the quotient. *)
Lemma div_both_doubled s1 m1 e1 s2 m2 e2 :
  div (S754_finite s1 m1 (e1 + 1)) (S754_finite s2 m2 (e2 + 1))
  = div (S754_finite s1 m1 e1) (S754_finite s2 m2 e2).
Proof.
  unfold div, SFdiv, SFdiv_core_binary.
  replace (Zdigits2 (Z.pos m1) + (e1 + 1) - (Zdigits2 (Z.pos m2) + (e2 + 1)))%Z
    with (Zdigits2 (Z.pos m1) + e1 - (Zdigits2 (Z.pos m2) + e2))%Z by lia.
  replace (e1 + 1 - (e2 + 1))%Z with (e1 - e2)%Z by lia.
  reflexivity.
Qed.

(** X24: the projection the example applications build,
    [ortho(1, -1, -aspect, aspect, 1, -1)]: for a normal [aspect]
    whose double is finite it is the diagonal matrix
    [(-1, 1 / aspect, 1, 1)], cell for cell up to the sign of a zero;
    it mirrors [x] and translates nothing. *)
Theorem example_projection_cells (aspect : float) (n : nat) :
  valid aspect = true -> F32_normal aspect = true ->
  is_finite (aspect + aspect) = true ->
  (n < 16)%nat ->
  F32_same (Mat4.data (example_projection aspect) n)
    (Mat4.data (Mat4.Mat4 (- lit1) lit0 lit0 lit0
                          lit0 (lit1 / aspect) lit0 lit0
                          lit0 lit0 lit1 lit0
                          lit0 lit0 lit0 lit1) n).
Proof.
  intros Hv Hn Hf Hlt.
  destruct aspect as [| | | s m e]; try discriminate Hn.
  cbn [F32_normal] in Hn. apply Z.eqb_eq in Hn. change prec with 24%Z in Hn.
  assert (He : (-149 <= e)%Z).
  { unfold valid in Hv. cbn [valid_binary] in Hv.
    destruct (canonical_cases _ _ Hv) as [[Hc | Hc] _]; lia. }
  rewrite (add_self_normal s m e Hn He) in Hf.
  assert (Hsub : S754_finite s m e - - S754_finite s m e = S754_finite s m (e + 1)).
  { rewrite sub_neg, (add_self_normal s m e Hn He).
    destruct (e + 1 <=? 104)%Z; [ reflexivity | discriminate Hf ]. }
  assert (Hadd : S754_finite s m e + - S754_finite s m e = S754_zero false).
  { apply F32_add_neg_self. reflexivity. }
  assert (H5 : lit2 / S754_finite s m (e + 1) = lit1 / S754_finite s m e).
  { apply (div_both_doubled false 8388608 (-23) s m e). }
  unfold example_projection.
  cbv [Mat4.ortho Mat4.data Mat4.store Mat4.identity Mat4.Mat4 Mat4.zero].
  rewrite Hsub, Hadd, H5.
  cells_below n ltac:(first [ left; reflexivity
                           | right; split; reflexivity
                           | right; split; destruct s; reflexivity ]).
Qed.

Lemma example_projection_cells_witness :
  F32_same (Mat4.data (example_projection lit0_5) 5)
    (Mat4.data (Mat4.Mat4 (- lit1) lit0 lit0 lit0
                          lit0 (lit1 / lit0_5) lit0 lit0
                          lit0 lit0 lit1 lit0
                          lit0 lit0 lit0 lit1) 5).
Proof.
  apply (example_projection_cells lit0_5 5); try reflexivity. lia.
Defined.

End ExampleProjection.

(** ** Quat: from_axis_angle *)

Section AxisAngle.
Context {libm : Libm}.

(** X25: with a libm that has [sin(0) = 0] and [cos(0) = 1],
    [from_axis_angle(axis, 0)] is the identity quaternion up to the
    sign of a zero, for every [axis] of finite numbers. *)
Theorem from_axis_angle_zero (axis : Vec3.t) :
  sinf F32.lit0 = F32.lit0 -> cosf F32.lit0 = F32.lit1 ->
  Vec3_numbers axis = true ->
  Quat_same (Quat.from_axis_angle axis F32.lit0) Quat.identity.
Proof.
  intros Hs Hc H. unfold Quat.from_axis_angle.
  change (F32.lit0 / F32.lit2) with F32.lit0. rewrite Hs, Hc.
  destruct axis as [x y z]. component_facts H.
  repeat split; cbn; auto with f32s.
Qed.

End AxisAngle.

Lemma from_axis_angle_zero_witness :
  Quat_same (@Quat.from_axis_angle libm_at_zero sample_vec3 F32.lit0) Quat.identity.
Proof. apply (@from_axis_angle_zero libm_at_zero); reflexivity. Defined.

(** ** Accuracy of length and of Vec2::normalize *)

Section LengthAccuracy.
Import F32.
Local Open Scope R_scope.

Lemma value_square x : F32_value x * F32_value x = F32_magnitude x * F32_magnitude x.
Proof. unfold F32_value. destruct (F32_sign x); ring. Qed.

(** A rounded square root against the root of the exact sum. *)
Lemma length_relative d S r L :
  0 <= d ->
  d * (1 - 901 / 100 * u32) <= S <= d * (1 + 901 / 100 * u32) ->
  0 <= r -> r * r = d -> 0 <= L -> Rabs (L - r) <= u32 * r ->
  Rabs (L - R_sqrt.sqrt S) <= 6 * u32 * R_sqrt.sqrt S.
Proof.
  unfold u32. intros Hd HS Hr Hrr HL HLr. apply Rabs_le_inv in HLr.
  assert (HS0 : 0 <= S) by lra.
  pose proof (sqrt_pos S) as Hs0. pose proof (sqrt_sqrt S HS0) as Hss.
  set (s := R_sqrt.sqrt S) in *.
  assert (Hup : r * (1 + / 16777216) <= s * (1 + 6 * / 16777216)).
  { apply sq_le_inv; [ nra | nra | ]. nra. }
  assert (Hlo : s * (1 - 6 * / 16777216) <= r * (1 - / 16777216)).
  { apply sq_le_inv; [ nra | nra | ]. nra. }
  apply Rabs_le. lra.
Qed.

(** X26: [Vec3::length()] is accurate: when the components are
    binary32 values and the squared length, as computed, is a normal
    number, [length()] is a finite number within a relative error of
    [3 * FLT_EPSILON] of the Euclidean norm of the components. *)
Theorem length_accuracy (v : Vec3.t) :
  valid (Vec3.x v) = true -> valid (Vec3.y v) = true -> valid (Vec3.z v) = true ->
  F32_normal (Vec3.length_squared v) = true ->
  let norm := R_sqrt.sqrt (F32_value (Vec3.x v) * F32_value (Vec3.x v)
                    + F32_value (Vec3.y v) * F32_value (Vec3.y v)
                    + F32_value (Vec3.z v) * F32_value (Vec3.z v)) in
  F32_number (Vec3.length v) = true /\
  Rabs (F32_value (Vec3.length v) - norm) <= 3 * FLT_EPSILON * norm.
Proof.
  intros Hvx Hvy Hvz Hn. unfold Vec3.length_squared in Hn.
  destruct (dot_finite_components v (normal_finite _ Hn)) as (Hfx & Hfy & Hfz).
  destruct v as [a b c]. cbn [Vec3.x Vec3.y Vec3.z] in *.
  assert (Ha : F32_number a = true) by (unfold F32_number; rewrite Hfx, Hvx; reflexivity).
  assert (Hb : F32_number b = true) by (unfold F32_number; rewrite Hfy, Hvy; reflexivity).
  assert (Hc : F32_number c = true) by (unfold F32_number; rewrite Hfz, Hvz; reflexivity).
  rewrite !value_square. cbv zeta.
  destruct eta32_bounds as (He0 & HeT & He1).
  destruct (dot3_finite_bounds a b c Ha Hb Hc (normal_finite _ Hn)) as (Hnd & Hsd & Hd).
  cbv zeta in Hd.
  set (d := Vec3.dot (Vec3.Vec3 a b c) (Vec3.Vec3 a b c)) in *.
  set (dv := F32_magnitude d) in *.
  set (S := F32_magnitude a * F32_magnitude a + F32_magnitude b * F32_magnitude b
            + F32_magnitude c * F32_magnitude c) in *.
  pose proof (magnitude_nonneg a) as Hxa. pose proof (magnitude_nonneg b) as Hxb.
  pose proof (magnitude_nonneg c) as Hxc.
  pose proof (normal_ge_min d Hnd Hn) as HT. fold dv in HT.
  assert (HS0 : 0 <= S) by (unfold S; nra).
  pose proof (dot3_relative eta32 (pow2 (-126)) S dv ltac:(lra) HT HS0 Hd) as HSd.
  pose proof (pow2_pos (-126)) as HTpos.
  set (r := R_sqrt.sqrt dv).
  assert (Hr0 : 0 <= r) by apply sqrt_pos.
  assert (Hrr : r * r = dv) by (apply sqrt_sqrt; lra).
  assert (Hrlo : pow2 (-63) <= r).
  { apply sq_le_inv; [ apply Rlt_le, pow2_pos | exact Hr0 | ].
    rewrite Hrr, <- pow2_add. exact HT. }
  assert (Hrhi : r <= pow2 64).
  { apply sq_le_inv; [ exact Hr0 | apply Rlt_le, pow2_pos | ].
    rewrite Hrr, <- pow2_add. apply Rlt_le. apply (number_lt_max d Hnd). }
  assert (H63 : pow2 (-126) <= pow2 (-63)) by (apply pow2_le; lia).
  assert (H64 : pow2 64 < pow2 127) by (apply pow2_lt; lia).
  destruct (rounds_to_finite _ _ _ (sqrt_rounds d Hnd Hsd) ltac:(fold dv r; lra))
    as (HnL & HsL & _ & HLr).
  fold dv r in HLr. specialize (HLr ltac:(lra)).
  rewrite pow2_m24 in HLr. fold u32 in HLr.
  change (SFsqrt prec emax d) with (Vec3.length (Vec3.Vec3 a b c)) in HnL, HsL, HLr.
  split; [ exact HnL | ].
  unfold F32_value at 1. rewrite HsL.
  replace (3 * FLT_EPSILON) with (6 * u32).
  - apply (length_relative dv S r); try assumption; try lra.
    apply magnitude_nonneg.
  - unfold FLT_EPSILON, u32. rewrite <- pow2_m24.
    change (-23)%Z with (-24 + 1)%Z. rewrite pow2_succ. lra.
Qed.

Lemma length_accuracy_witness :
  F32_number (Vec3.length sample_vec3) = true.
Proof.
  apply (length_accuracy sample_vec3); reflexivity.
Defined.

Local Close Scope R_scope.

(** The sign bit of a rounding is the one it is given. *)
Lemma round_aux_sign s m e l :
  F32_sign (binary_round_aux prec emax s m e l) = s \/
  binary_round_aux prec emax s m e l = S754_nan.
Proof.
  unfold binary_round_aux.
  destruct (shr_fexp prec emax m e l) as [mrs' e'].
  destruct (shr_fexp prec emax _ e' loc_Exact) as [mrs'' e''].
  destruct (shr_m mrs'') as [| p | p]; [ left; reflexivity | | right; reflexivity ].
  destruct (e'' <=? emax - prec)%Z; left; reflexivity.
Qed.

Lemma square_sign x : F32_sign (mul x x) = false.
Proof.
  destruct x as [[] | [] | | s m e]; try reflexivity.
  unfold mul, SFmul. rewrite xorb_nilpotent.
  destruct (round_aux_sign false (Z.pos (m * m)) (e + e) loc_Exact) as [H | H];
    rewrite H; reflexivity.
Qed.

Lemma add_sign a b :
  F32_sign a = false -> F32_sign b = false -> F32_sign (add a b) = false.
Proof.
  intros Ha Hb.
  destruct a as [sa | sa | | sa ma ea], b as [sb | sb | | sb mb eb];
    cbn [F32_sign] in Ha, Hb; subst; try reflexivity.
  unfold add, SFadd. cbn [cond_Zopp Z.add binary_normalize]. unfold binary_round.
  destruct (shl_align _ _ _) as [mz ez].
  destruct (round_aux_sign false (Z.pos mz) ez loc_Exact) as [H | H];
    rewrite H; reflexivity.
Qed.

Lemma add_pos_zero s : F32_sign s = false -> add s (S754_zero false) = s.
Proof. destruct s as [[] | [] | | [] m e]; try discriminate; reflexivity. Qed.

(** The squared length in two dimensions is the one in three, the
    third component a zero. *)
Lemma dot2_as_dot3 x y z :
  is_zero z = true ->
  Vec2.dot (Vec2.Vec2 x y) (Vec2.Vec2 x y)
  = Vec3.dot (Vec3.Vec3 x y z) (Vec3.Vec3 x y z).
Proof.
  intros Hz. unfold Vec2.dot, Vec3.dot. cbn [Vec2.x Vec2.y Vec3.x Vec3.y Vec3.z].
  replace (z * z)%f32 with (S754_zero false)
    by (destruct z as [[] | | |]; try discriminate; reflexivity).
  symmetry. apply add_pos_zero, add_sign; apply square_sign.
Qed.

(** A zero divided by [L] is a zero, unless it is NaN and poisons the
    sum it enters. *)
Lemma zero_quotient_in_sum (s L : float) :
  F32_number (F32.sqrt (s + lit0 / L * (lit0 / L))%f32) = true ->
  is_zero (lit0 / L)%f32 = true.
Proof.
  destruct L as [sl | sl | | sl ml el]; try reflexivity; intros H; exfalso.
  - change (lit0 / S754_zero sl * (lit0 / S754_zero sl))%f32 with S754_nan in H.
    rewrite (proj1 (proj2 (F32_nan_absorbs s))) in H. discriminate H.
  - change (lit0 / S754_nan * (lit0 / S754_nan))%f32 with S754_nan in H.
    rewrite (proj1 (proj2 (F32_nan_absorbs s))) in H. discriminate H.
Qed.

(** [normalize()] in two dimensions is the one in three, the third
    component zero. *)
Lemma normalize2_as_normalize3 (x y : float) :
  F32_number (Vec3.length (Vec3.normalize (Vec3.Vec3 x y lit0))) = true ->
  Vec2.length (Vec2.normalize (Vec2.Vec2 x y))
  = Vec3.length (Vec3.normalize (Vec3.Vec3 x y lit0)).
Proof.
  unfold Vec3.normalize, Vec3.div_scalar, Vec3.length,
    Vec2.normalize, Vec2.div_scalar, Vec2.length.
  cbn [Vec3.x Vec3.y Vec3.z Vec2.x Vec2.y].
  rewrite <- (dot2_as_dot3 x y lit0 eq_refl).
  generalize (F32.sqrt (Vec2.dot (Vec2.Vec2 x y) (Vec2.Vec2 x y))). intros L H.
  rewrite (dot2_as_dot3 (x / L)%f32 (y / L)%f32 (lit0 / L)%f32); [ reflexivity | ].
  unfold Vec3.dot in H. cbn [Vec3.x Vec3.y Vec3.z] in H.
  exact (zero_quotient_in_sum _ _ H).
Qed.

Local Open Scope R_scope.

(** X27: [Vec2::normalize()] as accurate as [Vec3]'s: when the
    components are binary32 values and the squared length is a normal
    number, the length of the result is a finite number within
    [5 * FLT_EPSILON] of [1]. *)
Theorem Vec2_normalize_length_near_one (v : Vec2.t) :
  valid (Vec2.x v) = true -> valid (Vec2.y v) = true ->
  F32_normal (Vec2.length_squared v) = true ->
  F32_number (Vec2.length (Vec2.normalize v)) = true /\
  Rabs (F32_value (Vec2.length (Vec2.normalize v)) - 1) <= 5 * FLT_EPSILON /\
  close five_epsilon (Vec2.length (Vec2.normalize v)) lit1 = true.
Proof.
  destruct v as [x y]. cbn [Vec2.x Vec2.y]. intros Hx Hy Hn.
  unfold Vec2.length_squared in Hn.
  rewrite (dot2_as_dot3 x y lit0 eq_refl) in Hn.
  pose proof (normalize_length_accuracy (Vec3.Vec3 x y lit0) Hx Hy eq_refl Hn) as H.
  rewrite (normalize2_as_normalize3 x y (proj1 H)). exact H.
Qed.

Lemma Vec2_normalize_length_near_one_witness :
  F32_number (Vec2.length (Vec2.normalize (Vec2.Vec2 lit2 lit0_5))) = true.
Proof.
  apply (Vec2_normalize_length_near_one (Vec2.Vec2 lit2 lit0_5)); reflexivity.
Defined.

Local Close Scope R_scope.

End LengthAccuracy.

(** ** Mat4: the inverse of a translation *)

Section InverseOfTranslation.
Import F32.

(** [e] stands for the number [v], up to the sign of a zero. *)
Local Abbreviation stands e v := (F32_same e v /\ F32_number v = true).

Lemma same_is_zero a : F32_same a lit0 -> is_zero a = true.
Proof. intros [-> | [H _]]; [ reflexivity | exact H ]. Qed.

Lemma same_trans a b c : F32_same a b -> F32_same b c -> F32_same a c.
Proof.
  intros [-> | [Ha Hb]] [-> | [Hb' Hc]]; try (left; reflexivity);
    right; split; assumption.
Qed.

Lemma stands_lit0 : stands lit0 lit0.
Proof. split; [ apply same_refl | reflexivity ]. Qed.

Lemma stands_lit1 : stands lit1 lit1.
Proof. split; [ apply same_refl | reflexivity ]. Qed.

Lemma stands_number x : F32_number x = true -> stands x x.
Proof. split; [ apply same_refl | assumption ]. Qed.

Lemma stands_mul_zero_l a b vb : stands a lit0 -> stands b vb -> stands (a * b) lit0.
Proof.
  intros [Ha _] [Hb Hnb]. split; [ | reflexivity ].
  apply same_zeros; [ | reflexivity ].
  apply zero_times_l; [ apply same_is_zero, Ha | ].
  apply (same_finite _ _ Hb), number_finite, Hnb.
Qed.

Lemma stands_mul_zero_r a b va : stands a va -> stands b lit0 -> stands (a * b) lit0.
Proof. intros Ha Hb. rewrite F32_mul_comm. apply (stands_mul_zero_l _ _ va); assumption. Qed.

Lemma stands_mul_one_l a b vb : stands a lit1 -> stands b vb -> stands (a * b) vb.
Proof.
  intros [Ha _] [Hb Hnb]. split; [ | exact Hnb ].
  rewrite (same_nonzero _ _ Ha eq_refl). apply same_times_one_l; assumption.
Qed.

Lemma stands_mul_one_r a b va : stands a va -> stands b lit1 -> stands (a * b) va.
Proof. intros Ha Hb. rewrite F32_mul_comm. apply stands_mul_one_l; assumption. Qed.

Lemma stands_add_zero_l a b vb : stands a lit0 -> stands b vb -> stands (a + b) vb.
Proof.
  intros [Ha _] [Hb Hnb]. split; [ | exact Hnb ].
  apply same_plus_zero_l; [ apply same_is_zero, Ha | exact Hb ].
Qed.

Lemma stands_add_zero_r a b va : stands a va -> stands b lit0 -> stands (a + b) va.
Proof.
  intros [Ha Hna] [Hb _]. split; [ | exact Hna ].
  apply same_plus_zero_r; [ exact Ha | apply same_is_zero, Hb ].
Qed.

Lemma stands_sub_zero_r a b va : stands a va -> stands b lit0 -> stands (a - b) va.
Proof.
  intros [Ha Hna] [Hb _]. split; [ | exact Hna ].
  apply same_minus_zero_r; [ exact Ha | apply same_is_zero, Hb ].
Qed.

Lemma stands_sub_zero_l a b vb : stands a lit0 -> stands b vb -> stands (a - b) (- vb).
Proof.
  intros [Ha _] [Hb Hnb]. split; [ | apply number_neg, Hnb ].
  rewrite <- add_neg. apply same_plus_zero_l; [ apply same_is_zero, Ha | ].
  apply same_neg, Hb.
Qed.

Lemma stands_neg a va : stands a va -> stands (- a) (- va).
Proof. intros [Ha Hna]. split; [ apply same_neg, Ha | apply number_neg, Hna ]. Qed.

Lemma stands_neg_zero a : stands a lit0 -> stands (- a) lit0.
Proof.
  intros [Ha _]. split; [ | reflexivity ].
  apply same_zeros; [ apply zero_neg, same_is_zero, Ha | reflexivity ].
Qed.

Lemma stands_neg_neg a v : stands a (- v) -> stands (- a) v.
Proof.
  intros [Ha Hna]. split.
  - rewrite <- (F32_neg_involutive v). apply same_neg, Ha.
  - rewrite <- (F32_neg_involutive v). apply number_neg, Hna.
Qed.

Lemma stands_div_one a b va : stands a va -> stands b lit1 -> stands (a / b) va.
Proof.
  intros [Ha Hna] [Hb _]. split; [ | exact Hna ].
  rewrite (same_nonzero _ _ Hb eq_refl).
  destruct Ha as [-> | [Hza Hzv]].
  - left. apply div_one. unfold F32_number in Hna.
    apply andb_prop in Hna. tauto.
  - apply same_zeros; [ | exact Hzv ].
    destruct a as [[] | | |]; try discriminate; reflexivity.
Qed.

(** The number an expression over [0], [1] and numbers stands for,
    where every product has a factor [0] or [1] and every sum a term
    [0]. *)
Ltac stands_for e :=
  lazymatch e with
  | lit0 => constr:(stands_lit0)
  | lit1 => constr:(stands_lit1)
  | (?a * ?b)%f32 =>
      let pa := stands_for a in
      let pb := stands_for b in
      lazymatch type of pa with
      | F32_same _ lit0 /\ _ => constr:(stands_mul_zero_l _ _ _ pa pb)
      | F32_same _ lit1 /\ _ => constr:(stands_mul_one_l _ _ _ pa pb)
      | _ =>
          lazymatch type of pb with
          | F32_same _ lit0 /\ _ => constr:(stands_mul_zero_r _ _ _ pa pb)
          | F32_same _ lit1 /\ _ => constr:(stands_mul_one_r _ _ _ pa pb)
          end
      end
  | (?a + ?b)%f32 =>
      let pa := stands_for a in
      let pb := stands_for b in
      lazymatch type of pa with
      | F32_same _ lit0 /\ _ => constr:(stands_add_zero_l _ _ _ pa pb)
      | _ => constr:(stands_add_zero_r _ _ _ pa pb)
      end
  | (?a - ?b)%f32 =>
      let pa := stands_for a in
      let pb := stands_for b in
      lazymatch type of pb with
      | F32_same _ lit0 /\ _ => constr:(stands_sub_zero_r _ _ _ pa pb)
      | _ => constr:(stands_sub_zero_l _ _ _ pa pb)
      end
  | (- ?a)%f32 =>
      let pa := stands_for a in
      lazymatch type of pa with
      | F32_same _ lit0 /\ _ => constr:(stands_neg_zero _ pa)
      | F32_same _ (- _)%f32 /\ _ => constr:(stands_neg_neg _ _ pa)
      | _ => constr:(stands_neg _ _ pa)
      end
  | (?a / ?b)%f32 =>
      let pa := stands_for a in
      let pb := stands_for b in
      constr:(stands_div_one _ _ _ pa pb)
  | ?x =>
      lazymatch goal with
      | H : F32_number x = true |- _ => constr:(stands_number x H)
      end
  end.

(** Both sides stand for the same number. *)
Ltac stands_same :=
  lazymatch goal with
  | |- F32_same ?e ?r =>
      let p := stands_for e in
      let q := stands_for r in
      exact (same_trans _ _ _ (proj1 p) (same_sym _ _ (proj1 q)))
  end.

(** [inverse()] past its guard. *)
Lemma inverse_nonsingular (m : Mat4.t) :
  (Mat4.returned Mat4.determinant m == lit0) = false ->
  Mat4.returned Mat4.inverse m
  = Mat4.for_upto 16
      (fun i result =>
         Mat4.store result i
           (Mat4.data (Mat4.returned Mat4.transpose (Mat4.returned Mat4.cofactor m)) i
            / Mat4.returned Mat4.determinant m))
      m.
Proof.
  intros Hdet. unfold Mat4.returned in *. unfold Mat4.inverse, Mat4.bind.
  cbn [Mat4.self].
  destruct (Mat4.determinant m) as [det this'] eqn:E.
  assert (this' = m) as ->
    by (unfold Mat4.determinant, Mat4.bind, Mat4.self, Mat4.ret in E; congruence).
  cbn [fst] in *. rewrite Hdet. reflexivity.
Qed.

Lemma inverse_of_translation_cells (t : Vec3.t) (n : nat) :
  Vec3_numbers t = true -> (n < 16)%nat ->
  let m := Mat4.receiver (Mat4.translate t) Mat4.identity in
  Mat4.returned Mat4.determinant m = lit1 /\
  F32_same (Mat4.data (Mat4.returned Mat4.inverse m) n)
           (Mat4.data (Mat4.receiver (Mat4.translate (Vec3.neg t)) Mat4.identity) n).
Proof.
  intros H Hn m. destruct t as [tx ty tz]. component_facts H.
  assert (Hdet : Mat4.returned Mat4.determinant m = lit1).
  { apply same_nonzero; [ | reflexivity ].
    cbv [m Mat4.returned Mat4.receiver Mat4.determinant Mat4.translate
         Mat4.add_assign Mat4.assign Mat4.bind Mat4.self Mat4.ret fst snd
         Mat4.identity Mat4.Mat4 Mat4.store Mat4.zero Mat4.data
         Mat4.d0 Mat4.d1 Mat4.d2 Mat4.d3 Mat4.d4 Mat4.d5 Mat4.d6 Mat4.d7
         Mat4.d8 Mat4.d9 Mat4.d10 Mat4.d11 Mat4.d12 Mat4.d13 Mat4.d14 Mat4.d15
         Vec3.x Vec3.y Vec3.z].
    stands_same. }
  split; [ exact Hdet | ].
  rewrite inverse_nonsingular by (rewrite Hdet; reflexivity).
  rewrite Hdet.
  cbv [m Mat4.returned Mat4.receiver Mat4.cofactor Mat4.transpose Mat4.translate
       Mat4.add_assign Mat4.assign Mat4.bind Mat4.self Mat4.ret fst snd
       Mat4.identity Mat4.Mat4 Mat4.store Mat4.zero Mat4.for_upto seq fold_left
       Mat4.d0 Mat4.d1 Mat4.d2 Mat4.d3 Mat4.d4 Mat4.d5 Mat4.d6 Mat4.d7
       Mat4.d8 Mat4.d9 Mat4.d10 Mat4.d11 Mat4.d12 Mat4.d13 Mat4.d14 Mat4.d15
       Mat4.data Vec3.x Vec3.y Vec3.z Vec3.neg].
  pose proof (number_neg _ H) as Hx.
  pose proof (number_neg _ Hn1) as Hy.
  pose proof (number_neg _ Hn0) as Hz.
  cells_below n ltac:(cbv iota; stands_same).
Qed.

Lemma zero_plus_finite x : is_finite x = true -> is_finite (lit0 + x) = true.
Proof. destruct x as [[] | | |]; try discriminate; reflexivity. Qed.

(** X28: [inverse()] inverts translations: the matrix that
    [translate(t)] makes of [identity()], for [t] of finite numbers,
    has determinant [1.0f], and its [inverse()] is the matrix that
    [translate(-t)] makes of [identity()]: cell for cell the two
    compare equal ([==]), and are the very same value wherever the
    cell is not a zero. *)
Theorem inverse_of_translation (t : Vec3.t) :
  Vec3_numbers t = true ->
  let m := Mat4.receiver (Mat4.translate t) Mat4.identity in
  let m' := Mat4.receiver (Mat4.translate (Vec3.neg t)) Mat4.identity in
  Mat4.returned Mat4.determinant m = lit1 /\
  Mat4_cells_eqb (Mat4.returned Mat4.inverse m) m' = true /\
  (forall n, (n < 16)%nat -> is_zero (Mat4.data m' n) = false ->
     Mat4.data (Mat4.returned Mat4.inverse m) n = Mat4.data m' n).
Proof.
  intros H m m'.
  pose proof (fun n Hn => proj2 (inverse_of_translation_cells t n H Hn)) as Hc.
  cbv zeta in Hc. fold m m' in Hc.
  assert (Hf : forall n, (n < 16)%nat -> is_finite (Mat4.data m' n) = true).
  { intros n Hn. destruct t as [tx ty tz]. component_facts H.
    pose proof (number_finite _ (number_neg _ H)).
    pose proof (number_finite _ (number_neg _ Hn1)).
    pose proof (number_finite _ (number_neg _ Hn0)).
    cells_below n ltac:(first [ reflexivity
                              | cbn; apply zero_plus_finite; assumption ]). }
  split; [ exact (proj1 (inverse_of_translation_cells t 0 H ltac:(lia))) | ].
  split.
  - unfold Mat4_cells_eqb. apply forallb_forall. intros n Hn.
    apply in_seq in Hn. apply same_eqb; [ apply Hc | apply Hf ]; lia.
  - intros n Hn Hz. apply same_nonzero; [ apply Hc, Hn | exact Hz ].
Qed.

Lemma inverse_of_translation_witness :
  Mat4_cells_eqb
    (Mat4.returned Mat4.inverse
       (Mat4.receiver (Mat4.translate sample_vec3) Mat4.identity))
    (Mat4.receiver (Mat4.translate (Vec3.neg sample_vec3)) Mat4.identity)
  = true.
Proof. apply (proj1 (proj2 (inverse_of_translation sample_vec3 eq_refl))). Defined.

(** The product respects equality up to the sign of a zero. *)
Lemma product_same (a a' b b' : Mat4.t) (n : nat) :
  (forall i, (i < 16)%nat -> F32_same (Mat4.data a i) (Mat4.data a' i)) ->
  (forall i, (i < 16)%nat -> F32_same (Mat4.data b i) (Mat4.data b' i)) ->
  (n < 16)%nat ->
  F32_same (Mat4.data (Mat4.product a b) n) (Mat4.data (Mat4.product a' b') n).
Proof.
  intros Ha Hb Hn.
  destruct a as [a0 a1 a2 a3 a4 a5 a6 a7 a8 a9 a10 a11 a12 a13 a14 a15].
  destruct a' as [c0 c1 c2 c3 c4 c5 c6 c7 c8 c9 c10 c11 c12 c13 c14 c15].
  destruct b as [b0 b1 b2 b3 b4 b5 b6 b7 b8 b9 b10 b11 b12 b13 b14 b15].
  destruct b' as [e0 e1 e2 e3 e4 e5 e6 e7 e8 e9 e10 e11 e12 e13 e14 e15].
  pose proof (Ha 0%nat ltac:(lia)). pose proof (Ha 1%nat ltac:(lia)).
  pose proof (Ha 2%nat ltac:(lia)). pose proof (Ha 3%nat ltac:(lia)).
  pose proof (Ha 4%nat ltac:(lia)). pose proof (Ha 5%nat ltac:(lia)).
  pose proof (Ha 6%nat ltac:(lia)). pose proof (Ha 7%nat ltac:(lia)).
  pose proof (Ha 8%nat ltac:(lia)). pose proof (Ha 9%nat ltac:(lia)).
  pose proof (Ha 10%nat ltac:(lia)). pose proof (Ha 11%nat ltac:(lia)).
  pose proof (Ha 12%nat ltac:(lia)). pose proof (Ha 13%nat ltac:(lia)).
  pose proof (Ha 14%nat ltac:(lia)). pose proof (Ha 15%nat ltac:(lia)).
  pose proof (Hb 0%nat ltac:(lia)). pose proof (Hb 1%nat ltac:(lia)).
  pose proof (Hb 2%nat ltac:(lia)). pose proof (Hb 3%nat ltac:(lia)).
  pose proof (Hb 4%nat ltac:(lia)). pose proof (Hb 5%nat ltac:(lia)).
  pose proof (Hb 6%nat ltac:(lia)). pose proof (Hb 7%nat ltac:(lia)).
  pose proof (Hb 8%nat ltac:(lia)). pose proof (Hb 9%nat ltac:(lia)).
  pose proof (Hb 10%nat ltac:(lia)). pose proof (Hb 11%nat ltac:(lia)).
  pose proof (Hb 12%nat ltac:(lia)). pose proof (Hb 13%nat ltac:(lia)).
  pose proof (Hb 14%nat ltac:(lia)). pose proof (Hb 15%nat ltac:(lia)).
  clear Ha Hb. cbn [Mat4.data] in *.
  cells_below n ltac:(cbn; repeat apply same_add; apply same_mul; assumption).
Qed.

(** X29: translations compose under the matrix product: with [T(t)]
    the matrix [translate(t)] makes of [identity()], [T(a) * T(b)] is,
    cell for cell up to the sign of a zero, the matrix that
    [translate(a)] followed by [translate(b)] makes of [identity()];
    and [T(t) * T(t).inverse()] is [identity()]. *)
Theorem translations_compose (a b : Vec3.t) (n : nat) :
  Vec3_numbers a = true -> Vec3_numbers b = true -> (n < 16)%nat ->
  let T t := Mat4.receiver (Mat4.translate t) Mat4.identity in
  F32_same
    (Mat4.data (Mat4.product (T a) (T b)) n)
    (Mat4.data
       (Mat4.receiver (Mat4.bind (Mat4.translate a) (fun _ => Mat4.translate b))
          Mat4.identity) n) /\
  F32_same
    (Mat4.data (Mat4.product (T a) (Mat4.returned Mat4.inverse (T a))) n)
    (Mat4.data Mat4.identity n).
Proof.
  intros Ha Hb Hn T.
  assert (Hprod : forall u v : Vec3.t,
             Vec3_numbers u = true -> Vec3_numbers v = true ->
             forall k, (k < 16)%nat ->
             F32_same
               (Mat4.data (Mat4.product (T u) (T v)) k)
               (Mat4.data
                  (Mat4.receiver
                     (Mat4.bind (Mat4.translate u) (fun _ => Mat4.translate v))
                     Mat4.identity) k)).
  { intros [ux uy uz] [vx vy vz] Hu Hv k Hk.
    component_facts Hu. component_facts Hv.
    cells_below k ltac:(cbn; first [ stands_same | apply same_add; stands_same ]). }
  split; [ apply Hprod; assumption | ].
  apply same_trans with
    (Mat4.data (Mat4.product (T a) (T (Vec3.neg a))) n).
  - apply product_same; [ intros; apply same_refl | | exact Hn ].
    intros i Hi. apply (proj2 (inverse_of_translation_cells a i Ha Hi)).
  - assert (Hna : Vec3_numbers (Vec3.neg a) = true).
    { destruct a as [ax ay az]. component_facts Ha.
      unfold Vec3_numbers, Vec3.neg. cbn [Vec3.x Vec3.y Vec3.z].
      rewrite !number_neg by assumption. reflexivity. }
    apply same_trans with (1 := Hprod a (Vec3.neg a) Ha Hna n Hn).
    destruct a as [ax ay az]. component_facts Ha.
    pose proof (number_neg _ Ha) as Hx.
    pose proof (number_neg _ Hn1) as Hy.
    pose proof (number_neg _ Hn0) as Hz.
    cells_below n ltac:(cbn;
      first [ stands_same
            | lazymatch goal with
              | |- F32_same (_ + ?x + - ?x)%f32 _ =>
                  apply same_trans with (x + - x)%f32;
                  [ apply same_add; [ stands_same | apply same_refl ]
                  | rewrite F32_add_neg_self by auto with f32s; apply same_refl ]
              end ]).
Qed.

Lemma translations_compose_witness :
  F32_same
    (Mat4.data
       (Mat4.product
          (Mat4.receiver (Mat4.translate sample_vec3) Mat4.identity)
          (Mat4.returned Mat4.inverse
             (Mat4.receiver (Mat4.translate sample_vec3) Mat4.identity))) 12)
    (Mat4.data Mat4.identity 12).
Proof.
  apply (proj2 (translations_compose sample_vec3 sample_vec3 12 eq_refl eq_refl
                  ltac:(lia))).
Defined.

End InverseOfTranslation.

(** ** Accuracy of normalize on four components *)

Section NormalizeFour.
Local Open Scope R_scope.

Local Abbreviation dot4 a b c d := (a * a + b * b + c * c + d * d)%f32 (only parsing).

Lemma dot4_bounds eta p1 p2 p3 p4 X Y Z W A B d :
  0 <= eta ->
  0 <= p1 -> 0 <= p2 -> 0 <= p3 -> 0 <= p4 ->
  0 <= X -> 0 <= Y -> 0 <= Z -> 0 <= W -> 0 <= A -> 0 <= B ->
  near eta X p1 -> near eta Y p2 -> near eta Z p3 -> near eta W p4 ->
  near eta A (X + Y) -> near eta B (A + Z) -> near eta d (B + W) ->
  (p1 + p2 + p3 + p4) * (1 - 4 * u32) - 8 * eta <= d
    <= (p1 + p2 + p3 + p4) * (1 + 4001 / 1000 * u32) + 8 * eta.
Proof.
  unfold near, u32.
  intros He H1 H2 H3 H4 HX0 HY0 HZ0 HW0 HA0 HB0 HX HY HZ HW HA HB Hd.
  apply Rabs_le_inv in HX, HY, HZ, HW, HA, HB, Hd.
  split; lra.
Qed.

Lemma dot4_relative eta T S d :
  0 <= eta <= u32 * T -> T <= d -> 0 <= S ->
  S * (1 - 4 * u32) - 8 * eta <= d <= S * (1 + 4001 / 1000 * u32) + 8 * eta ->
  d * (1 - 1201 / 100 * u32) <= S <= d * (1 + 1201 / 100 * u32).
Proof. unfold u32. intros He HT HS Hd. split; lra. Qed.

Lemma ratio_bounds4 S d Q :
  0 <= d ->
  d * (1 - 1201 / 100 * u32) <= S <= d * (1 + 1201 / 100 * u32) ->
  d * (1 - 2 * u32) <= Q <= d * (1 + 2001 / 1000 * u32) ->
  Q * (1 - 1402 / 100 * u32) <= S <= Q * (1 + 1402 / 100 * u32).
Proof. unfold u32. intros Hd HS HQ. split; lra. Qed.

Lemma component_le_one4 Q S p t :
  0 < Q -> S <= Q * (1 + 1402 / 100 * u32) -> 0 <= p <= S ->
  0 <= t -> t * t * Q = p -> t <= 101 / 100.
Proof.
  unfold u32. intros HQ HS Hp Ht Htt.
  apply sq_le_inv; [ exact Ht | lra | ].
  assert (t * t * Q <= (101 / 100 * (101 / 100)) * Q) by lra.
  apply Rmult_le_reg_r with Q; [ exact HQ | exact H ].
Qed.

Lemma sum_sq_bounds4 Q S T2 :
  0 < Q -> T2 * Q = S ->
  Q * (1 - 1402 / 100 * u32) <= S <= Q * (1 + 1402 / 100 * u32) ->
  1 - 1402 / 100 * u32 <= T2 <= 1 + 1402 / 100 * u32.
Proof.
  intros HQ HT [Hl Hh]. rewrite <- HT in Hl, Hh. split.
  - apply Rmult_le_reg_r with Q; [ exact HQ | lra ].
  - apply Rmult_le_reg_r with Q; [ exact HQ | lra ].
Qed.

Lemma second_dot_bounds4 eta T2 N2 d' :
  0 <= eta <= u32 * u32 ->
  1 - 1402 / 100 * u32 <= T2 <= 1 + 1402 / 100 * u32 ->
  T2 * (1 - 2 * u32) - 12 * eta <= N2 <= T2 * (1 + 2001 / 1000 * u32) + 12 * eta ->
  N2 * (1 - 4 * u32) - 8 * eta <= d' <= N2 * (1 + 4001 / 1000 * u32) + 8 * eta ->
  1 - 202 / 10 * u32 <= d' <= 1 + 202 / 10 * u32.
Proof. unfold u32. intros He HT HN Hd. split; nra. Qed.

Lemma final_bound4 d' r' L' :
  1 - 202 / 10 * u32 <= d' <= 1 + 202 / 10 * u32 ->
  0 <= r' -> r' * r' = d' -> Rabs (L' - r') <= u32 * r' ->
  Rabs (L' - 1) <= 12 * u32.
Proof.
  unfold u32. intros Hd' Hr Hrr HL. apply Rabs_le_inv in HL.
  assert (Hrh : r' <= 1 + 101 / 10 * / 16777216).
  { apply sq_le_inv; [ exact Hr | lra | ]. rewrite Hrr. lra. }
  assert (Hrl : 1 - 102 / 10 * / 16777216 <= r').
  { apply sq_le_inv; [ lra | exact Hr | ]. rewrite Hrr. lra. }
  apply Rabs_le. lra.
Qed.

Lemma dot4_finite_bounds a b c d :
  F32_number a = true -> F32_number b = true -> F32_number c = true ->
  F32_number d = true ->
  F32.is_finite (dot4 a b c d) = true ->
  F32_number (dot4 a b c d) = true /\ F32_sign (dot4 a b c d) = false /\
  let S := F32_magnitude a * F32_magnitude a + F32_magnitude b * F32_magnitude b
           + F32_magnitude c * F32_magnitude c + F32_magnitude d * F32_magnitude d in
  S * (1 - 4 * u32) - 8 * eta32 <= F32_magnitude (dot4 a b c d)
    <= S * (1 + 4001 / 1000 * u32) + 8 * eta32.
Proof.
  intros Ha Hb Hc Hd Hf. unfold F32.add, F32.mul in *.
  destruct (add_finite_inv _ _ Hf) as [HfB HfW].
  destruct (add_finite_inv _ _ HfB) as [HfA HfZ].
  destruct (add_finite_inv _ _ HfA) as [HfX HfY].
  destruct (near_of_rounds _ _ _ (mul_rounds a a Ha Ha) HfX) as (HnX & HsX & HX).
  destruct (near_of_rounds _ _ _ (mul_rounds b b Hb Hb) HfY) as (HnY & HsY & HY).
  destruct (near_of_rounds _ _ _ (mul_rounds c c Hc Hc) HfZ) as (HnZ & HsZ & HZ).
  destruct (near_of_rounds _ _ _ (mul_rounds d d Hd Hd) HfW) as (HnW & HsW & HW).
  rewrite xorb_nilpotent in HsX, HsY, HsZ, HsW.
  destruct (near_of_rounds _ _ _ (add_rounds _ _ HnX HnY HsX HsY) HfA) as (HnA & HsA & HA).
  destruct (near_of_rounds _ _ _ (add_rounds _ _ HnA HnZ HsA HsZ) HfB) as (HnB & HsB & HB).
  destruct (near_of_rounds _ _ _ (add_rounds _ _ HnB HnW HsB HsW) Hf) as (Hnd & Hsd & Hdd).
  split; [ exact Hnd | ]. split; [ exact Hsd | ].
  cbv zeta.
  pose proof (magnitude_nonneg a). pose proof (magnitude_nonneg b).
  pose proof (magnitude_nonneg c). pose proof (magnitude_nonneg d).
  destruct eta32_bounds as (He & _ & _).
  eapply dot4_bounds;
    [ lra | nra | nra | nra | nra | ..
    | exact HX | exact HY | exact HZ | exact HW | exact HA | exact HB | exact Hdd ];
    apply magnitude_nonneg.
Qed.

Lemma pow2_127_bigger : 8 <= pow2 127.
Proof.
  apply Rle_trans with (pow2 3); [ unfold pow2; simpl; lra | apply pow2_le; lia ].
Qed.

(** The square of a number of magnitude about one. *)
Lemma square_small x :
  F32_number x = true -> F32_magnitude x <= 102 / 100 ->
  F32_number (SFmul F32.prec F32.emax x x) = true /\
  F32_sign (SFmul F32.prec F32.emax x x) = false /\
  F32_magnitude (SFmul F32.prec F32.emax x x) <= 105 / 100.
Proof.
  intros Hx Hm. pose proof (magnitude_nonneg x) as H0.
  pose proof pow2_127_bigger as Hbig.
  destruct eta32_bounds as (He0 & _ & He1). unfold u32 in He1.
  assert (Hsq : F32_magnitude x * F32_magnitude x <= 10404 / 10000) by nra.
  assert (Hsq0 : 0 <= F32_magnitude x * F32_magnitude x) by nra.
  destruct (rounds_to_finite _ _ _ (mul_rounds x x Hx Hx) ltac:(lra)) as (Hn & Hs & Hb & _).
  rewrite xorb_nilpotent in Hs. rewrite pow2_m24 in Hb. fold eta32 in Hb.
  apply Rabs_le_inv in Hb.
  split; [ exact Hn | ]. split; [ exact Hs | ]. lra.
Qed.

(** The sum of two numbers that are not negative and stay small. *)
Lemma sum_small x y bx by' :
  F32_number x = true -> F32_number y = true ->
  F32_sign x = false -> F32_sign y = false ->
  F32_magnitude x <= bx -> F32_magnitude y <= by' -> bx + by' <= 5 ->
  F32_number (SFadd F32.prec F32.emax x y) = true /\
  F32_sign (SFadd F32.prec F32.emax x y) = false /\
  F32_magnitude (SFadd F32.prec F32.emax x y) <= (bx + by') * (1 + u32) + eta32.
Proof.
  intros Hx Hy Hsx Hsy Hbx Hby Hsum.
  pose proof (magnitude_nonneg x). pose proof (magnitude_nonneg y).
  pose proof pow2_127_bigger as Hbig.
  destruct (rounds_to_finite _ _ _ (add_rounds x y Hx Hy Hsx Hsy) ltac:(lra))
    as (Hn & Hs & Hb & _).
  rewrite pow2_m24 in Hb. fold eta32 u32 in Hb. apply Rabs_le_inv in Hb.
  split; [ exact Hn | ]. split; [ exact Hs | ].
  unfold u32 in *. nra.
Qed.

Lemma dot4_small_finite a b c d :
  F32_number a = true -> F32_number b = true -> F32_number c = true ->
  F32_number d = true ->
  F32_magnitude a <= 102 / 100 -> F32_magnitude b <= 102 / 100 ->
  F32_magnitude c <= 102 / 100 -> F32_magnitude d <= 102 / 100 ->
  F32.is_finite (dot4 a b c d) = true.
Proof.
  intros Ha Hb Hc Hd Hxa Hxb Hxc Hxd. unfold F32.add, F32.mul.
  destruct eta32_bounds as (He0 & _ & He1). unfold u32 in He1.
  destruct (square_small a Ha Hxa) as (HnX & HsX & HX).
  destruct (square_small b Hb Hxb) as (HnY & HsY & HY).
  destruct (square_small c Hc Hxc) as (HnZ & HsZ & HZ).
  destruct (square_small d Hd Hxd) as (HnW & HsW & HW).
  destruct (sum_small _ _ _ _ HnX HnY HsX HsY HX HY ltac:(lra)) as (HnA & HsA & HA).
  assert (HA' : F32_magnitude
                  (SFadd F32.prec F32.emax (SFmul F32.prec F32.emax a a)
                     (SFmul F32.prec F32.emax b b)) <= 211 / 100)
    by (unfold u32 in HA; lra).
  destruct (sum_small _ _ _ _ HnA HnZ HsA HsZ HA' HZ ltac:(lra)) as (HnB & HsB & HB).
  assert (HB' : F32_magnitude
                  (SFadd F32.prec F32.emax
                     (SFadd F32.prec F32.emax (SFmul F32.prec F32.emax a a)
                        (SFmul F32.prec F32.emax b b))
                     (SFmul F32.prec F32.emax c c)) <= 317 / 100)
    by (unfold u32 in HB; lra).
  destruct (sum_small _ _ _ _ HnB HnW HsB HsW HB' HW ltac:(lra)) as (Hn & _).
  unfold F32_number in Hn. apply andb_prop in Hn. tauto.
Qed.

Lemma quotient_component4 a L S :
  F32_number a = true -> F32_number L = true -> 0 < F32_magnitude L ->
  S <= F32_magnitude L * F32_magnitude L * (1 + 1402 / 100 * u32) ->
  F32_magnitude a * F32_magnitude a <= S ->
  let n := SFdiv F32.prec F32.emax a L in
  let t := F32_magnitude a / F32_magnitude L in
  F32_number n = true /\ F32_magnitude n <= 102 / 100 /\
  t * t * (F32_magnitude L * F32_magnitude L) = F32_magnitude a * F32_magnitude a /\
  t * t * (1 - 2 * u32) - 3 * eta32 <= F32_magnitude n * F32_magnitude n
    <= t * t * (1 + 2001 / 1000 * u32) + 3 * eta32.
Proof.
  intros Ha HL HLpos HS HaS n t.
  pose proof (magnitude_nonneg a) as Hxa.
  destruct eta32_bounds as (He0 & _ & He1).
  pose proof pow2_127_big as Hbig.
  assert (Ht0 : 0 <= t).
  { unfold t. apply Rmult_le_pos; [ exact Hxa | apply Rlt_le, Rinv_0_lt_compat, HLpos ]. }
  assert (Htt : t * t * (F32_magnitude L * F32_magnitude L)
                = F32_magnitude a * F32_magnitude a) by (unfold t; field; lra).
  assert (Ht1 : t <= 101 / 100).
  { apply (component_le_one4 (F32_magnitude L * F32_magnitude L) S
             (F32_magnitude a * F32_magnitude a) t); try assumption; nra. }
  destruct (rounds_to_finite _ _ _ (div_rounds a L Ha HL HLpos) ltac:(fold t; lra))
    as (Hn & _ & Hnear & _).
  fold n t in Hn, Hnear. rewrite pow2_m24 in Hnear. fold u32 eta32 in Hnear.
  pose proof (magnitude_nonneg n) as Hn0.
  split; [ exact Hn | ]. split.
  - apply Rabs_le_inv in Hnear. unfold u32 in *. lra.
  - split; [ exact Htt | ].
    apply quotient_rounded_sq; try assumption; lra.
Qed.

(** The squared length and the length of four components divided by
    their length. *)
Lemma normalize4_length a b c d :
  F32_number a = true -> F32_number b = true -> F32_number c = true ->
  F32_number d = true ->
  F32_normal (dot4 a b c d) = true ->
  let L := F32.sqrt (dot4 a b c d) in
  let d' := dot4 (a / L)%f32 (b / L)%f32 (c / L)%f32 (d / L)%f32 in
  F32_number d' = true /\ F32_sign d' = false /\
  Rabs (F32_magnitude d' - 1) <= 202 / 10 * u32 /\
  F32_number (F32.sqrt d') = true /\ F32_sign (F32.sqrt d') = false /\
  Rabs (F32_magnitude (F32.sqrt d') - 1) <= 12 * u32.
Proof.
  intros Ha Hb Hc Hd Hnorm L d'.
  pose proof (magnitude_nonneg a) as Hxa. pose proof (magnitude_nonneg b) as Hxb.
  pose proof (magnitude_nonneg c) as Hxc. pose proof (magnitude_nonneg d) as Hxd.
  destruct eta32_bounds as (He0 & HeT & He1).
  pose proof pow2_127_big as Hbig.
  destruct (dot4_finite_bounds a b c d Ha Hb Hc Hd (normal_finite _ Hnorm))
    as (Hnd & Hsd & Hdb).
  cbv zeta in Hdb.
  set (q := dot4 a b c d) in *. set (dv := F32_magnitude q) in *.
  set (S := F32_magnitude a * F32_magnitude a + F32_magnitude b * F32_magnitude b
            + F32_magnitude c * F32_magnitude c + F32_magnitude d * F32_magnitude d) in *.
  pose proof (normal_ge_min q Hnd Hnorm) as HT. fold dv in HT.
  assert (HS0 : 0 <= S) by (unfold S; nra).
  pose proof (dot4_relative eta32 (pow2 (-126)) S dv ltac:(lra) HT HS0 Hdb) as HSd.
  pose proof (pow2_pos (-126)) as HTpos.
  set (r := sqrt dv).
  assert (Hr0 : 0 <= r) by apply sqrt_pos.
  assert (Hrr : r * r = dv) by (apply sqrt_sqrt; lra).
  assert (Hrlo : pow2 (-63) <= r).
  { apply sq_le_inv; [ apply Rlt_le, pow2_pos | exact Hr0 | ].
    rewrite Hrr, <- pow2_add. exact HT. }
  assert (Hrhi : r <= pow2 64).
  { apply sq_le_inv; [ exact Hr0 | apply Rlt_le, pow2_pos | ].
    rewrite Hrr, <- pow2_add. apply Rlt_le. apply (number_lt_max q Hnd). }
  assert (H63 : pow2 (-126) <= pow2 (-63)) by (apply pow2_le; lia).
  assert (H64 : pow2 64 < pow2 127) by (apply pow2_lt; lia).
  destruct (rounds_to_finite _ _ _ (sqrt_rounds q Hnd Hsd) ltac:(fold dv r; lra))
    as (HnL & HsL & _ & HLr).
  fold dv r in HLr. specialize (HLr ltac:(lra)).
  change (SFsqrt F32.prec F32.emax q) with L in HnL, HsL, HLr.
  set (Lv := F32_magnitude L) in *.
  pose proof (magnitude_nonneg L) as HLv0. fold Lv in HLv0.
  rewrite pow2_m24 in HLr. fold u32 in HLr.
  pose proof (sqrt_rounded_sq dv r Lv Hr0 Hrr HLv0 HLr) as HQ.
  assert (HLpos : 0 < Lv).
  { apply Rabs_le_inv in HLr. unfold u32 in HLr. pose proof (pow2_pos (-63)). lra. }
  set (Q := Lv * Lv) in *.
  assert (HQpos : 0 < Q) by (unfold Q; nra).
  pose proof (ratio_bounds4 S dv Q ltac:(lra) HSd HQ) as HSQ.
  assert (HaS : F32_magnitude a * F32_magnitude a <= S) by (unfold S; nra).
  assert (HbS : F32_magnitude b * F32_magnitude b <= S) by (unfold S; nra).
  assert (HcS : F32_magnitude c * F32_magnitude c <= S) by (unfold S; nra).
  assert (HdS : F32_magnitude d * F32_magnitude d <= S) by (unfold S; nra).
  destruct HSQ as [HSQl HSQh].
  destruct (quotient_component4 a L S Ha HnL HLpos HSQh HaS) as (Hna & Hna1 & Hta & HNa).
  destruct (quotient_component4 b L S Hb HnL HLpos HSQh HbS) as (Hnb & Hnb1 & Htb & HNb).
  destruct (quotient_component4 c L S Hc HnL HLpos HSQh HcS) as (Hnc & Hnc1 & Htc & HNc).
  destruct (quotient_component4 d L S Hd HnL HLpos HSQh HdS) as (Hne & Hne1 & Hte & HNe).
  cbv zeta in *.
  fold Lv in Hta, Htb, Htc, Hte, HNa, HNb, HNc, HNe. fold Q in Hta, Htb, Htc, Hte.
  change (SFdiv F32.prec F32.emax a L) with (a / L)%f32 in *.
  change (SFdiv F32.prec F32.emax b L) with (b / L)%f32 in *.
  change (SFdiv F32.prec F32.emax c L) with (c / L)%f32 in *.
  change (SFdiv F32.prec F32.emax d L) with (d / L)%f32 in *.
  set (na := (a / L)%f32) in *. set (nb := (b / L)%f32) in *.
  set (nc := (c / L)%f32) in *. set (ne := (d / L)%f32) in *.
  set (ta := F32_magnitude a / Lv) in *. set (tb := F32_magnitude b / Lv) in *.
  set (tc := F32_magnitude c / Lv) in *. set (te := F32_magnitude d / Lv) in *.
  set (T2 := ta * ta + tb * tb + tc * tc + te * te).
  assert (HT2Q : T2 * Q = S) by (unfold T2, S; lra).
  pose proof (sum_sq_bounds4 Q S T2 HQpos HT2Q (conj HSQl HSQh)) as HT2.
  pose proof (dot4_small_finite na nb nc ne Hna Hnb Hnc Hne Hna1 Hnb1 Hnc1 Hne1) as Hfd'.
  destruct (dot4_finite_bounds na nb nc ne Hna Hnb Hnc Hne Hfd') as (Hnd' & Hsd' & Hd').
  cbv zeta in Hd'. fold d' in Hfd', Hnd', Hsd', Hd'.
  set (dv' := F32_magnitude d') in *.
  set (N2 := F32_magnitude na * F32_magnitude na + F32_magnitude nb * F32_magnitude nb
             + F32_magnitude nc * F32_magnitude nc + F32_magnitude ne * F32_magnitude ne) in *.
  assert (HN2 : T2 * (1 - 2 * u32) - 12 * eta32 <= N2
                <= T2 * (1 + 2001 / 1000 * u32) + 12 * eta32)
    by (unfold N2, T2; lra).
  pose proof (second_dot_bounds4 eta32 T2 N2 dv' ltac:(lra) HT2 HN2 Hd') as Hdv'.
  split; [ exact Hnd' | ]. split; [ exact Hsd' | ].
  split; [ apply Rabs_le; lra | ].
  set (r' := sqrt dv').
  assert (Hr0' : 0 <= r') by apply sqrt_pos.
  assert (Hrr' : r' * r' = dv') by (apply sqrt_sqrt; unfold u32 in Hdv'; lra).
  assert (Hr'1 : / 2 <= r' <= 2).
  { unfold u32 in Hdv'. split; apply sq_le_inv; try lra; rewrite Hrr'; lra. }
  assert (Hmin1 : pow2 (-126) <= / 2).
  { apply Rle_trans with (pow2 (-1)); [ apply pow2_le; lia | ].
    change (-1)%Z with (- (1))%Z. rewrite pow2_opp, pow2_1. lra. }
  destruct (rounds_to_finite _ _ _ (sqrt_rounds d' Hnd' Hsd') ltac:(fold dv' r'; lra))
    as (HnL' & HsL' & _ & HLr').
  fold dv' r' in HLr'. specialize (HLr' ltac:(lra)).
  rewrite pow2_m24 in HLr'. fold u32 in HLr'.
  split; [ exact HnL' | ]. split; [ exact HsL' | ].
  exact (final_bound4 dv' r' _ Hdv' Hr0' Hrr' HLr').
Qed.

Lemma dot4_finite_components a b c d :
  F32.is_finite (dot4 a b c d) = true ->
  F32.is_finite a = true /\ F32.is_finite b = true /\
  F32.is_finite c = true /\ F32.is_finite d = true.
Proof.
  intros H.
  destruct (add_finite_inv _ _ H) as [HB HW].
  destruct (add_finite_inv _ _ HB) as [HA HZ].
  destruct (add_finite_inv _ _ HA) as [HX HY].
  auto using mul_finite_inv.
Qed.

(** X30: [Quat::normalize()] and [Vec4::normalize()] return a unit
    quaternion or vector, to rounding: when the components are
    binary32 values and the squared norm, as computed, is a normal
    number, the squared norm of the result is within
    [11 * FLT_EPSILON] of [1], and the [length()] of the [Vec4] result
    within [6 * FLT_EPSILON]. *)
Theorem normalize4_is_unit :
  (forall q,
     F32.valid (Quat.i q) = true -> F32.valid (Quat.j q) = true ->
     F32.valid (Quat.k q) = true -> F32.valid (Quat.r q) = true ->
     F32_normal (Quat.dot q q) = true ->
     F32_number (Quat.dot (Quat.normalize q) (Quat.normalize q)) = true /\
     Rabs (F32_value (Quat.dot (Quat.normalize q) (Quat.normalize q)) - 1)
     <= 11 * FLT_EPSILON) /\
  (forall v,
     F32.valid (Vec4.x v) = true -> F32.valid (Vec4.y v) = true ->
     F32.valid (Vec4.z v) = true -> F32.valid (Vec4.w v) = true ->
     F32_normal (Vec4.length_squared v) = true ->
     F32_number (Vec4.length (Vec4.normalize v)) = true /\
     Rabs (F32_value (Vec4.length (Vec4.normalize v)) - 1) <= 6 * FLT_EPSILON).
Proof.
  assert (Heps : FLT_EPSILON = 2 * u32).
  { unfold FLT_EPSILON, u32. rewrite <- pow2_m24.
    change (-23)%Z with (-24 + 1)%Z. rewrite pow2_succ. lra. }
  assert (Hnum : forall x, F32.valid x = true -> F32.is_finite x = true ->
                 F32_number x = true).
  { intros x Hv Hf. unfold F32_number. rewrite Hv, Hf. reflexivity. }
  split.
  - intros [a b c d]. cbn [Quat.i Quat.j Quat.k Quat.r]. intros Hva Hvb Hvc Hvd Hn.
    unfold Quat.dot in Hn. cbn [Quat.i Quat.j Quat.k Quat.r] in Hn.
    destruct (dot4_finite_components a b c d (normal_finite _ Hn)) as (Hfa & Hfb & Hfc & Hfd).
    destruct (normalize4_length a b c d (Hnum a Hva Hfa) (Hnum b Hvb Hfb)
                (Hnum c Hvc Hfc) (Hnum d Hvd Hfd) Hn) as (H1 & H2 & H3 & _).
    unfold Quat.normalize, Quat.dot. cbn [Quat.i Quat.j Quat.k Quat.r].
    split; [ exact H1 | ].
    unfold F32_value. rewrite H2, Heps. unfold u32 in *. lra.
  - intros [a b c d]. cbn [Vec4.x Vec4.y Vec4.z Vec4.w]. intros Hva Hvb Hvc Hvd Hn.
    unfold Vec4.length_squared, Vec4.dot in Hn. cbn [Vec4.x Vec4.y Vec4.z Vec4.w] in Hn.
    destruct (dot4_finite_components a b c d (normal_finite _ Hn)) as (Hfa & Hfb & Hfc & Hfd).
    destruct (normalize4_length a b c d (Hnum a Hva Hfa) (Hnum b Hvb Hfb)
                (Hnum c Hvc Hfc) (Hnum d Hvd Hfd) Hn) as (_ & _ & _ & H1 & H2 & H3).
    unfold Vec4.normalize, Vec4.div_scalar, Vec4.length, Vec4.dot.
    cbn [Vec4.x Vec4.y Vec4.z Vec4.w].
    split; [ exact H1 | ].
    unfold F32_value. rewrite H2, Heps. unfold u32 in *. lra.
Qed.

Lemma normalize4_is_unit_witness :
  F32_number (Quat.dot (Quat.normalize sample_quat) (Quat.normalize sample_quat)) = true.
Proof.
  destruct normalize4_is_unit as [Hq _].
  apply (Hq sample_quat); reflexivity.
Defined.

Local Close Scope R_scope.

End NormalizeFour.
